(** * llms_to_pdf: conversation parser and smart highlighter

    A shallow embedding of [ConversationParser] (src/lib/conversationParser.ts)
    and [SmartHighlighter] (src/lib/smartHighlighter.ts), together with the
    part of the JavaScript runtime they rely on: strings as sequences of
    UTF-16 code units, [Math.min] on numbers, and backtracking regular
    expressions as [RegExp.prototype.exec] runs them. *)

From Stdlib Require Import String Ascii.
From Stdlib Require Import List Bool Arith NArith ZArith QArith Qround Lia.
From Stdlib Require Import DecimalString.
From Stdlib Require Import Sorted.
Import ListNotations.

Set Implicit Arguments.
Local Open Scope list_scope.
Local Open Scope nat_scope.

(* ===================================================================== *)
(** ** The JavaScript runtime used by the two classes *)
(* ===================================================================== *)

Module JS.

(** A JavaScript string is a finite sequence of UTF-16 code units. *)
Definition char := N.
Definition jsstring := list char.

(** A string literal of the source whose characters are all ASCII. *)
Definition js (s : string) : jsstring :=
  map N_of_ascii (list_ascii_of_string s).

(** [a === b] on strings. *)
Fixpoint str_eqb (a b : jsstring) : bool :=
  match a, b with
  | [], [] => true
  | c :: a', d :: b' => N.eqb c d && str_eqb a' b'
  | _, _ => false
  end.

(** WhiteSpace and LineTerminator code points of ECMAScript: the characters
    removed by [trim] and matched by the class escape [\s]. *)
Definition isWhiteSpace (c : char) : bool :=
  existsb (N.eqb c)
    [ 9; 10; 11; 12; 13; 32; 160; 5760;
      8192; 8193; 8194; 8195; 8196; 8197; 8198; 8199; 8200; 8201; 8202;
      8232; 8233; 8239; 8287; 12288; 65279 ]%N.

Fixpoint trimStart (s : jsstring) : jsstring :=
  match s with
  | [] => []
  | c :: t => if isWhiteSpace c then trimStart t else s
  end.

Fixpoint trimEnd (s : jsstring) : jsstring :=
  match s with
  | [] => []
  | c :: t =>
      match trimEnd t with
      | [] => if isWhiteSpace c then [] else [c]
      | r => c :: r
      end
  end.

(** [s.trim()] *)
Definition trim (s : jsstring) : jsstring := trimEnd (trimStart s).

(** [s.substring(a, b)]: both arguments are clamped to [0, s.length] and
    swapped when the first is the larger one. *)
Definition substring (s : jsstring) (a b : Z) : jsstring :=
  let len := Z.of_nat (length s) in
  let a' := Z.min (Z.max a 0) len in
  let b' := Z.min (Z.max b 0) len in
  let from := Z.min a' b' in
  let to := Z.max a' b' in
  firstn (Z.to_nat (to - from)) (skipn (Z.to_nat from) s).

(** [s.startsWith(p)] *)
Fixpoint startsWith (s p : jsstring) : bool :=
  match p, s with
  | [], _ => true
  | c :: p', d :: s' => N.eqb c d && startsWith s' p'
  | _ :: _, [] => false
  end.

(** [s.includes(p)] *)
Fixpoint includes (s p : jsstring) : bool :=
  startsWith s p ||
  match s with
  | [] => false
  | _ :: t => includes t p
  end.

(** [s.replace(pat, rep)] with a string pattern: the first occurrence only. *)
Fixpoint replace (s pat rep : jsstring) : jsstring :=
  if startsWith s pat then rep ++ skipn (length pat) s
  else match s with
       | [] => []
       | c :: t => c :: replace t pat rep
       end.

(** [s.split(sep)] for a one-character separator: the first piece and the
    remaining ones; the result of [split] is never empty. *)
Fixpoint split1 (sep : char) (s : jsstring) : jsstring * list jsstring :=
  match s with
  | [] => ([], [])
  | c :: t =>
      let (l, r) := split1 sep t in
      if N.eqb c sep then ([], l :: r) else (c :: l, r)
  end.

Definition split (sep : char) (s : jsstring) : list jsstring :=
  let (l, r) := split1 sep s in l :: r.

(** [l.join(sep)] *)
Fixpoint join (sep : jsstring) (l : list jsstring) : jsstring :=
  match l with
  | [] => []
  | [a] => a
  | a :: r => a ++ sep ++ join sep r
  end.

(** Decimal rendering of an array length inside a template literal. *)
Definition Number_toString (n : nat) : jsstring :=
  js (NilEmpty.string_of_uint (Nat.to_uint n)).

(** [s.toLowerCase()] on the Basic Latin block.  The full Unicode case
    conversion of the runtime is a parameter of the classes below; this is
    the function it has to agree with on ASCII text. *)
Definition isASCII (c : char) : bool := N.ltb c 128.

Definition lowerASCII (c : char) : char :=
  if N.leb 65 c && N.leb c 90 then (c + 32)%N else c.

Definition toLowerCaseASCII (s : jsstring) : jsstring := map lowerASCII s.

(** *** Numbers

    A JavaScript number without its rounding: a rational, an infinity or
    NaN.  The program only compares scores and takes their minimum with
    1.0, which is exact on doubles. *)
Inductive number :=
| NaN
| NegInfinity
| Finite (q : Q)
| PosInfinity.

(** [Math.min(a, b)] *)
Definition Math_min (a b : number) : number :=
  match a, b with
  | NaN, _ | _, NaN => NaN
  | NegInfinity, _ | _, NegInfinity => NegInfinity
  | PosInfinity, x => x
  | x, PosInfinity => x
  | Finite p, Finite q => if Qle_bool p q then a else b
  end.

(** [a <= b] on numbers; every comparison with NaN is false. *)
Definition num_le (a b : number) : Prop :=
  match a, b with
  | NaN, _ | _, NaN => False
  | NegInfinity, _ => True
  | _, PosInfinity => True
  | Finite p, Finite q => (p <= q)%Q
  | _, _ => False
  end.

(** [a < b] on numbers. *)
Definition num_lt (a b : number) : Prop :=
  match a, b with
  | NaN, _ | _, NaN => False
  | NegInfinity, NegInfinity => False
  | PosInfinity, PosInfinity => False
  | NegInfinity, _ => True
  | _, PosInfinity => True
  | Finite p, Finite q => (p < q)%Q
  | _, _ => False
  end.

(** *** Completion records: a call returns a value or throws. *)
Inductive completion (A : Type) :=
| Returned (a : A)
| Thrown.
Arguments Thrown {A}.

(** [new Set(l)] spread back into an array: the first occurrence of every
    element, in insertion order. *)
Fixpoint Set_add (seen : list jsstring) (l : list jsstring) : list jsstring :=
  match l with
  | [] => []
  | x :: r =>
      if existsb (str_eqb x) seen then Set_add seen r
      else x :: Set_add (x :: seen) r
  end.

Definition Set_of (l : list jsstring) : list jsstring := Set_add [] l.

End JS.

(* ===================================================================== *)
(** ** Regular expressions, as [RegExp.prototype.exec] matches them *)
(* ===================================================================== *)

Module RegExp.
Import JS.

(** The pattern syntax the program uses.  [Star true a] is [a*], [Star false
    a] is [a*?]; [Group] is the capturing group (no pattern here has more
    than one, and none sits under a quantifier); [Bol] and [Eol] are [^] and
    [$] without the [m] flag. *)
Inductive regex :=
| Empty
| Char (c : char)
| Class (p : char -> bool)
| Seq (a b : regex)
| Alt (a b : regex)
| Star (greedy : bool) (a : regex)
| Group (a : regex)
| Bol
| Eol.

(** [a?] *)
Definition Opt (a : regex) : regex := Alt a Empty.

(** [a+] and [a+?] *)
Definition Plus (greedy : bool) (a : regex) : regex := Seq a (Star greedy a).

(** A run of pattern characters. *)
Fixpoint lit (s : jsstring) : regex :=
  match s with
  | [] => Empty
  | c :: t => Seq (Char c) (lit t)
  end.

(** [a|b|...] *)
Fixpoint alts (l : list regex) : regex :=
  match l with
  | [] => Empty
  | [a] => a
  | a :: r => Alt a (alts r)
  end.

(** The least number of code units a match of the pattern consumes. *)
Fixpoint minLength (r : regex) : nat :=
  match r with
  | Empty | Bol | Eol | Star _ _ => 0
  | Char _ | Class _ => 1
  | Seq a b => minLength a + minLength b
  | Alt a b => Nat.min (minLength a) (minLength b)
  | Group a => minLength a
  end.

(** Whether group 1 takes part in every match of the pattern. *)
Fixpoint captures (r : regex) : bool :=
  match r with
  | Group _ => true
  | Seq a b => captures a || captures b
  | Alt a b => captures a && captures b
  | _ => false
  end.

(** The classes of the patterns. *)
Definition isLineTerminator (c : char) : bool :=
  existsb (N.eqb c) [10; 13; 8232; 8233]%N.
Definition dot : regex := Class (fun c => negb (isLineTerminator c)).
Definition space : regex := Class isWhiteSpace.
Definition anything : regex := Class (fun c => isWhiteSpace c || negb (isWhiteSpace c)).
Definition oneOf (s : jsstring) : regex := Class (fun c => existsb (N.eqb c) s).
Definition noneOf (s : jsstring) : regex := Class (fun c => negb (existsb (N.eqb c) s)).

(** Canonicalize of the specification, for a pattern without the [u] flag:
    the upper-case form, except that a code unit outside Basic Latin is never
    mapped into it.  Every pattern character of the program is either ASCII
    or U+2022, which is the image of no other code unit, so comparing after
    upper-casing the Basic Latin letters decides the same matches. *)
Definition canonicalize (ignoreCase : bool) (c : char) : char :=
  if ignoreCase && N.leb 97 c && N.leb c 122 then (c - 32)%N else c.

(** The matcher state: the end index reached and the capture of group 1. *)
Record mstate := { endIndex : nat; capture : option (nat * nat) }.

(** State [y] lies at least [n] code units after [x], and inside an input
    of length [len] when [x] does. *)
Definition reaches (len n : nat) (x y : mstate) : Prop :=
  endIndex x + n <= endIndex y /\ (endIndex x <= len -> endIndex y <= len).

(** State [y] has a capture when [sure] holds or [x] has one. *)
Definition keeps (sure : bool) (x y : mstate) : Prop :=
  sure = true \/ capture x <> None -> capture y <> None.

(** Two continuations agree on the states that lie after [x] inside an
    input of length [len]. *)
Definition agree (len : nat) (x : mstate) (k1 k2 : mstate -> option mstate)
  : Prop :=
  forall y, endIndex x <= endIndex y -> endIndex y <= len -> k1 y = k2 y.

Definition orElse (a : option mstate) (b : unit -> option mstate) : option mstate :=
  match a with
  | Some z => Some z
  | None => b tt
  end.

(** The iterations of a star whose body is matched by [body]: at most [n]
    more of them, each one refused when it consumes nothing, as the
    specification's RepeatMatcher does; a greedy star tries one more
    iteration before the continuation, a lazy one after it. *)
Fixpoint starLoop (body : (mstate -> option mstate) -> mstate -> option mstate)
  (greedy : bool) (k : mstate -> option mstate) (n : nat) (x : mstate)
  {struct n} : option mstate :=
  let again (_ : unit) :=
    match n with
    | 0 => None
    | S n' =>
        body (fun y => if endIndex x <? endIndex y
                       then starLoop body greedy k n' y else None) x
    end in
  if greedy then orElse (again tt) (fun _ => k x)
  else orElse (k x) again.

Section Matcher.
Variable ignoreCase : bool.
Variable input : jsstring.

(** The backtracking matcher in continuation-passing style: [rmatch r k x]
    matches [r] from state [x] and hands every way of doing so to [k], in
    priority order, until [k] succeeds.  Every iteration of a star
    consumes a code unit, so the code units left bound the iterations. *)
Fixpoint rmatch (r : regex) (k : mstate -> option mstate) (x : mstate)
  {struct r} : option mstate :=
  match r with
  | Empty => k x
  | Char c =>
      match nth_error input (endIndex x) with
      | Some d =>
          if N.eqb (canonicalize ignoreCase c) (canonicalize ignoreCase d)
          then k {| endIndex := S (endIndex x); capture := capture x |}
          else None
      | None => None
      end
  | Class p =>
      match nth_error input (endIndex x) with
      | Some d =>
          if p d
          then k {| endIndex := S (endIndex x); capture := capture x |}
          else None
      | None => None
      end
  | Seq a b => rmatch a (rmatch b k) x
  | Alt a b => orElse (rmatch a k x) (fun _ => rmatch b k x)
  | Star greedy a =>
      starLoop (rmatch a) greedy k (length input - endIndex x) x
  | Group a =>
      rmatch a
        (fun y => k {| endIndex := endIndex y;
                       capture := Some (endIndex x, endIndex y) |})
        x
  | Bol => if endIndex x =? 0 then k x else None
  | Eol => if length input <=? endIndex x then k x else None
  end.

Variable pattern : regex.

(** The result of a successful [exec]: [index], the end of the match, and
    the bounds of group 1 when it took part. *)
Record MatchResult :=
  { index : nat; matchEnd : nat; group1 : option (nat * nat) }.

(** The first start index from [i] on at which the pattern matches. *)
Fixpoint search (n i : nat) : option MatchResult :=
  match rmatch pattern Some {| endIndex := i; capture := None |} with
  | Some y =>
      Some {| index := i; matchEnd := endIndex y; group1 := capture y |}
  | None =>
      match n with
      | 0 => None
      | S n' => search n' (S i)
      end
  end.

(** [pattern.exec(input)] with [pattern.lastIndex = lastIndex]; a pattern
    without the [g] flag is always run from 0. *)
Definition exec (lastIndex : nat) : option MatchResult :=
  if length input <? lastIndex then None
  else search (length input - lastIndex) lastIndex.

(** [pattern.test(input)] for a pattern without the [g] flag. *)
Definition test : bool :=
  match exec 0 with
  | Some _ => true
  | None => false
  end.

(** The code units from [i] up to [e]. *)
Definition slice (i e : nat) : jsstring := firstn (e - i) (skipn i input).

(** [match[0]] and [match[1]]. *)
Definition match0 (m : MatchResult) : jsstring := slice (index m) (matchEnd m).
Definition match1 (m : MatchResult) : option jsstring :=
  match group1 m with
  | Some (i, e) => Some (slice i e)
  | None => None
  end.

(** [input.replace(pattern, rep)] for a pattern without the [g] flag. *)
Definition replaceRe (rep : jsstring) : jsstring :=
  match exec 0 with
  | Some m => firstn (index m) input ++ rep ++ skipn (matchEnd m) input
  | None => input
  end.

(** The loop [while ((match = pattern.exec(input)) !== null) { ... }] of a
    pattern with the [g] flag, which leaves [lastIndex] at the end of each
    match: the matches it visits.  [fuel] bounds the number of rounds; see
    [execLoop_fuel] for why [S (length input)] rounds are all there are
    when no match is empty. *)
Fixpoint execLoop (fuel lastIndex : nat) : list MatchResult :=
  match fuel with
  | 0 => []
  | S fuel' =>
      match exec lastIndex with
      | Some m => m :: execLoop fuel' (matchEnd m)
      | None => []
      end
  end.

Definition execAll : list MatchResult := execLoop (S (length input)) 0.

End Matcher.

End RegExp.

(* ===================================================================== *)
(** ** ConversationParser *)
(* ===================================================================== *)

Module ConversationParser.
Import JS RegExp.

Inductive Role := user | assistant | system.

Definition Role_eqb (a b : Role) : bool :=
  match a, b with
  | user, user | assistant, assistant | system, system => true
  | _, _ => false
  end.

(** [ParsedMessage]; the optional [timestamp] and [metadata] are never set by
    the parser. *)
Record ParsedMessage := { role : Role; content : jsstring }.

(** [ParsedConversation]; [source] holds one of the strings of the
    [ConversationSource] union, [metadata] its single [originalFormat]
    entry. *)
Record ParsedConversation :=
  { title : jsstring;
    source : jsstring;
    messages : list ParsedMessage;
    metadata : jsstring;
    tags : list jsstring;
    category : jsstring }.

(** [sourcePatterns], in the order [Object.entries] lists its keys; every
    pattern carries the [i] flag. *)
Definition sourcePatterns : list (jsstring * list regex) :=
  [ (js "chatgpt",
     [ lit (js "ChatGPT"); lit (js "OpenAI"); lit (js "GPT-4");
       lit (js "GPT-3.5"); lit (js "Chat History") ]);
    (js "claude",
     [ lit (js "Claude"); lit (js "Anthropic"); lit (js "Claude-3");
       lit (js "Claude-2") ]);
    (js "gemini",
     [ lit (js "Gemini"); lit (js "Google AI"); lit (js "Bard") ]);
    (js "perplexity",
     [ lit (js "Perplexity"); lit (js "Perplexity AI") ]) ].

Fixpoint detectSourceIn (entries : list (jsstring * list regex))
  (content : jsstring) : jsstring :=
  match entries with
  | [] => js "custom"
  | (source, patterns) :: rest =>
      if existsb (fun pattern => test true content pattern) patterns
      then source
      else detectSourceIn rest content
  end.

Definition detectSource (content : jsstring) : jsstring :=
  detectSourceIn sourcePatterns content.

(** The accumulators of the line loops: [messages], [currentRole] and
    [currentContent]. *)
Record LineState :=
  { acc : list ParsedMessage; currentRole : Role; currentContent : jsstring }.

Definition newline : char := 10%N.

Definition initial : LineState :=
  {| acc := []; currentRole := user; currentContent := [] |}.

Definition truthy (s : jsstring) : bool :=
  match s with
  | [] => false
  | _ :: _ => true
  end.

(** [if (currentContent.trim()) messages.push({ role: currentRole, content:
    currentContent.trim() })] *)
Definition pushCurrent (st : LineState) : list ParsedMessage :=
  if truthy (trim (currentContent st))
  then acc st ++ [ {| role := currentRole st; content := trim (currentContent st) |} ]
  else acc st.

(** The branch of a line that opens a turn. *)
Definition openTurn (st : LineState) (r : Role) (rest : jsstring) : LineState :=
  {| acc := pushCurrent st; currentRole := r; currentContent := trim rest |}.

(** The branch of any other line. *)
Definition continueTurn (st : LineState) (line : jsstring) : LineState :=
  {| acc := acc st;
     currentRole := currentRole st;
     currentContent :=
       if truthy (currentContent st)
       then currentContent st ++ [newline] ++ line
       else line |}.

Definition lines (content : jsstring) : list jsstring := split newline content.

(** [/^(A|B):/], without the [i] flag in the dialect parsers. *)
Definition prefixOf (names : list String.string) : regex :=
  Seq Bol (Seq (Group (alts (map (fun n => lit (js n)) names))) (Char 58%N)).

(** The title taken from the first message when a user wrote it. *)
Definition titleOf (default : jsstring) (msgs : list ParsedMessage) : jsstring :=
  match msgs with
  | m :: _ =>
      if Role_eqb (role m) user
      then
        let firstLine := fst (split1 newline (content m)) in
        if length firstLine <? 100 then firstLine else default
      else default
  | [] => default
  end.

Section Runtime.
(** [String.prototype.toLowerCase] of the runtime. *)
Variable toLowerCase : jsstring -> jsstring.

Definition extractTags (content : jsstring) : list jsstring :=
  (if includes (toLowerCase content) (js "code") || includes content (js "```")
   then [js "code"] else []) ++
  (if includes (toLowerCase content) (js "api")
      || includes (toLowerCase content) (js "endpoint")
   then [js "api"] else []) ++
  (if includes (toLowerCase content) (js "database")
      || includes (toLowerCase content) (js "sql")
   then [js "database"] else []) ++
  (if includes (toLowerCase content) (js "frontend")
      || includes (toLowerCase content) (js "react")
   then [js "frontend"] else []) ++
  (if includes (toLowerCase content) (js "backend")
      || includes (toLowerCase content) (js "server")
   then [js "backend"] else []) ++
  (if includes (toLowerCase content) (js "deployment")
      || includes (toLowerCase content) (js "docker")
   then [js "deployment"] else []).

Definition categorizeConversation (msgs : list ParsedMessage) : jsstring :=
  let content := toLowerCase (join (js " ") (map content msgs)) in
  if includes content (js "code") || includes content (js "```")
  then js "technical"
  else if includes content (js "design") || includes content (js "ui")
          || includes content (js "ux")
  then js "design"
  else if includes content (js "business") || includes content (js "strategy")
  then js "business"
  else if includes content (js "learning") || includes content (js "tutorial")
  then js "learning"
  else js "general".

(** What every parser does once its line loop is over. *)
Definition finish (name default : String.string) (content : jsstring)
  (st : LineState) : ParsedConversation :=
  let msgs := pushCurrent st in
  {| title := titleOf (js default) msgs;
     source := js name;
     messages := msgs;
     metadata := js name;
     tags := extractTags content;
     category := categorizeConversation msgs |}.

Definition stepChatGPT (st : LineState) (line : jsstring) : LineState :=
  if startsWith line (js "User:")
  then openTurn st user (replace line (js "User:") [])
  else if startsWith line (js "Assistant:") || startsWith line (js "ChatGPT:")
  then openTurn st assistant
         (replaceRe false line (prefixOf ["Assistant"; "ChatGPT"]%string) [])
  else if startsWith line (js "System:")
  then openTurn st system (replace line (js "System:") [])
  else continueTurn st line.

Definition parseChatGPT (content : jsstring) : ParsedConversation :=
  finish "chatgpt" "ChatGPT Conversation" content
    (fold_left stepChatGPT (lines content) initial).

Definition stepClaude (st : LineState) (line : jsstring) : LineState :=
  if startsWith line (js "Human:")
  then openTurn st user (replace line (js "Human:") [])
  else if startsWith line (js "Assistant:") || startsWith line (js "Claude:")
  then openTurn st assistant
         (replaceRe false line (prefixOf ["Assistant"; "Claude"]%string) [])
  else if startsWith line (js "System:")
  then openTurn st system (replace line (js "System:") [])
  else continueTurn st line.

Definition parseClaude (content : jsstring) : ParsedConversation :=
  finish "claude" "Claude Conversation" content
    (fold_left stepClaude (lines content) initial).

Definition stepGemini (st : LineState) (line : jsstring) : LineState :=
  if startsWith line (js "User:")
  then openTurn st user (replace line (js "User:") [])
  else if startsWith line (js "Gemini:") || startsWith line (js "Assistant:")
  then openTurn st assistant
         (replaceRe false line (prefixOf ["Gemini"; "Assistant"]%string) [])
  else continueTurn st line.

Definition parseGemini (content : jsstring) : ParsedConversation :=
  finish "gemini" "Gemini Conversation" content
    (fold_left stepGemini (lines content) initial).

Definition stepPerplexity (st : LineState) (line : jsstring) : LineState :=
  if startsWith line (js "User:")
  then openTurn st user (replace line (js "User:") [])
  else if startsWith line (js "Perplexity:") || startsWith line (js "Assistant:")
  then openTurn st assistant
         (replaceRe false line (prefixOf ["Perplexity"; "Assistant"]%string) [])
  else continueTurn st line.

Definition parsePerplexity (content : jsstring) : ParsedConversation :=
  finish "perplexity" "Perplexity Conversation" content
    (fold_left stepPerplexity (lines content) initial).

(** The role patterns of [parseCustom], all with the [i] flag, in the order
    they are tried on a line. *)
Definition patterns : list (Role * regex) :=
  [ (user, prefixOf ["User"; "Human"; "Me"; "I"]%string);
    (assistant,
     prefixOf ["Assistant"; "AI"; "Bot"; "ChatGPT"; "Claude"; "Gemini";
               "Perplexity"]%string);
    (system, prefixOf ["System"; "Context"; "Instructions"]%string) ].

Fixpoint stepCustomIn (ps : list (Role * regex)) (st : LineState)
  (line : jsstring) : LineState :=
  match ps with
  | [] => continueTurn st line
  | (r, pattern) :: rest =>
      if test true line pattern
      then openTurn st r (replaceRe true line pattern [])
      else stepCustomIn rest st line
  end.

Definition stepCustom : LineState -> jsstring -> LineState :=
  stepCustomIn patterns.

Definition parseCustom (content : jsstring) : ParsedConversation :=
  finish "custom" "Custom Conversation" content
    (fold_left stepCustom (lines content) initial).

Definition parse (content : jsstring) : ParsedConversation :=
  let source := detectSource content in
  if str_eqb source (js "chatgpt") then parseChatGPT content
  else if str_eqb source (js "claude") then parseClaude content
  else if str_eqb source (js "gemini") then parseGemini content
  else if str_eqb source (js "perplexity") then parsePerplexity content
  else parseCustom content.

End Runtime.

End ConversationParser.

(* ===================================================================== *)
(** ** SmartHighlighter *)
(* ===================================================================== *)

Module SmartHighlighter.
Import JS RegExp.
Export ConversationParser.

Inductive Category := code | insight | action_item | resource | question | other.

Definition Category_eqb (a b : Category) : bool :=
  match a, b with
  | code, code | insight, insight | action_item, action_item
  | resource, resource | question, question | other, other => true
  | _, _ => false
  end.

(** [position]: an index into the message list and two character offsets.
    The extractors fill all three with integers, and so they are typed
    here; [Untyped] below has the same functions on highlights whose
    position holds any number. *)
Record Position := { messageIndex : Z; startChar : Z; endChar : Z }.

Record Highlight :=
  { content : jsstring;
    category : Category;
    confidence_score : number;
    tags : list jsstring;
    notes : option jsstring;
    position : Position }.

Record CategorizationResult :=
  { highlights : list Highlight;
    summary : jsstring;
    key_topics : list jsstring;
    action_items : list jsstring;
    resources : list jsstring;
    questions : list jsstring }.

(** What [JSON.parse(content) as CategorizationResult] can hold: the cast
    checks nothing, so any field may be missing.  The highlights of this
    record are complete and have integer positions; [Untyped.ParsedReply]
    drops that. *)
Record ParsedReply :=
  { reply_highlights : option (list Highlight);
    reply_summary : option jsstring;
    reply_key_topics : option (list jsstring);
    reply_action_items : option (list jsstring);
    reply_resources : option (list jsstring);
    reply_questions : option (list jsstring) }.

(** The outcome of [openai.chat.completions.create]: the call fails, or it
    answers with [choices[0]?.message?.content], which may be absent. *)
Inductive Completion :=
| ApiError
| ApiReply (content : option jsstring).

Definition one : number := Finite 1.

(** [validateHighlight]; reading [content] of a message that is not there
    would throw. *)
Definition validateHighlight (highlight : Highlight)
  (conversation : ParsedConversation) : completion bool :=
  let messageIndex := messageIndex (position highlight) in
  if (messageIndex <? 0)%Z
     || (messageIndex >=? Z.of_nat (length (messages conversation)))%Z
  then Returned false
  else
    match nth_error (messages conversation) (Z.to_nat messageIndex) with
    | None => Thrown
    | Some message =>
        let content := ConversationParser.content message in
        let startChar := startChar (position highlight) in
        let endChar := endChar (position highlight) in
        if (startChar <? 0)%Z || (endChar >? Z.of_nat (length content))%Z
           || (startChar >=? endChar)%Z
        then Returned false
        else
          let extractedContent := substring content startChar endChar in
          Returned (str_eqb (trim extractedContent)
                            (trim (SmartHighlighter.content highlight)))
    end.

(** [generateFallbackSummary] *)
Definition generateFallbackSummary (conversation : ParsedConversation) : jsstring :=
  let userMessages :=
    filter (fun m => Role_eqb (role m) user) (messages conversation) in
  let assistantMessages :=
    filter (fun m => Role_eqb (role m) assistant) (messages conversation) in
  js "Conversation about " ++ title conversation ++ js " with "
  ++ Number_toString (length userMessages) ++ js " user questions and "
  ++ Number_toString (length assistantMessages) ++ js " AI responses.".

(** The three patterns of the extractors. *)
Definition fence : jsstring := js "```".

(** The pattern, with the flag [g], is "/```[\s\S]*?```/". *)
Definition codeBlockRegex : regex :=
  Seq (lit fence) (Seq (Star false anything) (lit fence)).

Definition bullet : char := 8226%N.

(** The pattern of [extractActionItems], with the flags [gi], read piece by
    piece (the pieces follow one another without any space):
    - [(?:^|\n)]: the start of the text or a newline;
    - an optional bullet: [-] or [*] or U+2022, each followed by [\s*];
    - [(?:TODO|TASK|ACTION|NEXT STEP|FUTURE|PLAN)];
    - [:?] and [\s*];
    - group 1, [.+?];
    - [(?:\n|$)]: a newline or the end of the text. *)
Definition actionItemRegex : regex :=
  Seq (Alt Bol (Char newline))
 (Seq (Opt (Alt (Seq (oneOf (js "-*")) (Star true space))
                (Seq (Char bullet) (Star true space))))
 (Seq (alts [ lit (js "TODO"); lit (js "TASK"); lit (js "ACTION");
              lit (js "NEXT STEP"); lit (js "FUTURE"); lit (js "PLAN") ])
 (Seq (Opt (Char 58%N))
 (Seq (Star true space)
 (Seq (Group (Plus false dot))
      (Alt (Char newline) Eol)))))).

(** The pattern, with the flag [g], is "/[^.!?]*\?/". *)
Definition questionRegex : regex :=
  Seq (Star true (noneOf (js ".!?"))) (Char 63%N).

(** The position every extractor records: [match.index] and [match.index +
    match[0].length]. *)
Definition span (messageIndex : nat) (content : jsstring) (m : MatchResult)
  : Position :=
  {| messageIndex := Z.of_nat messageIndex;
     startChar := Z.of_nat (index m);
     endChar := Z.of_nat (index m + length (match0 content m)) |}.

(** [extractCodeBlocks] *)
Definition extractCodeBlocks (content : jsstring) (messageIndex : nat)
  : list Highlight :=
  map (fun m =>
         {| content := match0 content m;
            category := code;
            confidence_score := Finite (9 # 10);
            tags := [js "code"];
            notes := None;
            position := span messageIndex content m |})
      (execAll false content codeBlockRegex).

(** [extractActionItems]; group 1 takes part in every match of the
    pattern. *)
Definition extractActionItems (content : jsstring) (messageIndex : nat)
  : list Highlight :=
  flat_map (fun m =>
         match match1 content m with
         | Some captured =>
             [ {| content := trim captured;
                  category := action_item;
                  confidence_score := Finite (8 # 10);
                  tags := [js "action"; js "todo"];
                  notes := None;
                  position := span messageIndex content m |} ]
         | None => []
         end)
      (execAll true content actionItemRegex).

(** [extractQuestions] *)
Definition extractQuestions (content : jsstring) (messageIndex : nat)
  : list Highlight :=
  flat_map (fun m =>
         let question := trim (match0 content m) in
         if (10 <? length question) && (length question <? 200)
         then [ {| content := question;
                   category := SmartHighlighter.question;
                   confidence_score := Finite (7 # 10);
                   tags := [js "question"];
                   notes := None;
                   position := span messageIndex content m |} ]
         else [])
      (execAll false content questionRegex).

(** The body of the loop of [fallbackCategorization] for one message. *)
Definition extractMessage (message : ParsedMessage) (messageIndex : nat)
  : list Highlight :=
  if Role_eqb (role message) assistant
  then extractCodeBlocks (ConversationParser.content message) messageIndex
       ++ extractActionItems (ConversationParser.content message) messageIndex
       ++ extractQuestions (ConversationParser.content message) messageIndex
  else [].

(** The loop itself, [messageIndex] counting the messages gone by. *)
Fixpoint extractFrom (msgs : list ParsedMessage) (messageIndex : nat)
  : list Highlight :=
  match msgs with
  | [] => []
  | message :: rest =>
      extractMessage message messageIndex ++ extractFrom rest (S messageIndex)
  end.

Definition contentsOf (c : Category) (hs : list Highlight) : list jsstring :=
  map content (filter (fun h => Category_eqb (category h) c) hs).

Section Runtime.
(** [String.prototype.toLowerCase] of the runtime. *)
Variable toLowerCase : jsstring -> jsstring.

(** [enhanceHighlight] *)
Definition enhanceHighlight (highlight : Highlight) : Highlight :=
  let enhancedTags :=
    tags highlight
    ++ (if includes (content highlight) (js "```") then [js "code"] else [])
    ++ (if includes (content highlight) (js "http") then [js "link"] else [])
    ++ (if includes (content highlight) (js "?") then [js "question"] else [])
    ++ (if includes (toLowerCase (content highlight)) (js "todo")
           || includes (toLowerCase (content highlight)) (js "task")
        then [js "todo"] else []) in
  let uniqueTags := Set_of enhancedTags in
  {| content := content highlight;
     category := category highlight;
     confidence_score := Math_min (confidence_score highlight) one;
     tags := uniqueTags;
     notes := notes highlight;
     position := position highlight |}.

(** [extractKeyTopics] *)
Definition extractKeyTopics (conversation : ParsedConversation) : list jsstring :=
  let content :=
    toLowerCase
      (join (js " ") (map ConversationParser.content (messages conversation))) in
  let topics :=
    (if includes content (js "react") || includes content (js "frontend")
     then [js "Frontend Development"] else [])
    ++ (if includes content (js "api") || includes content (js "backend")
        then [js "Backend Development"] else [])
    ++ (if includes content (js "database") || includes content (js "sql")
        then [js "Database"] else [])
    ++ (if includes content (js "deployment") || includes content (js "docker")
        then [js "Deployment"] else [])
    ++ (if includes content (js "testing") || includes content (js "test")
        then [js "Testing"] else [])
    ++ (if includes content (js "security") || includes content (js "auth")
        then [js "Security"] else []) in
  if 0 <? length topics then topics else [js "General Discussion"].

(** [fallbackCategorization] *)
Definition fallbackCategorization (conversation : ParsedConversation)
  : CategorizationResult :=
  let highlights := extractFrom (messages conversation) 0 in
  {| highlights := highlights;
     summary := generateFallbackSummary conversation;
     key_topics := extractKeyTopics conversation;
     action_items := contentsOf action_item highlights;
     resources := contentsOf resource highlights;
     questions := contentsOf question highlights |}.

(** The [.filter(validateHighlight)] of [validateAndEnhanceResult]; a throw
    of the callback leaves the filter. *)
Fixpoint filterValid (hs : list Highlight) (conversation : ParsedConversation)
  : completion (list Highlight) :=
  match hs with
  | [] => Returned []
  | h :: rest =>
      match validateHighlight h conversation with
      | Thrown => Thrown
      | Returned keep =>
          match filterValid rest conversation with
          | Thrown => Thrown
          | Returned kept => Returned (if keep then h :: kept else kept)
          end
      end
  end.

Definition orEmpty (l : option (list jsstring)) : list jsstring :=
  match l with
  | Some l => l
  | None => []
  end.

(** [validateAndEnhanceResult]; [result.highlights.filter] throws when the
    reply has no [highlights]. *)
Definition validateAndEnhanceResult (result : ParsedReply)
  (conversation : ParsedConversation) : completion CategorizationResult :=
  match reply_highlights result with
  | None => Thrown
  | Some hs =>
      match filterValid hs conversation with
      | Thrown => Thrown
      | Returned valid =>
          Returned
            {| highlights := map enhanceHighlight valid;
               summary :=
                 match reply_summary result with
                 | Some (c :: s) => c :: s
                 | _ => generateFallbackSummary conversation
                 end;
               key_topics := orEmpty (reply_key_topics result);
               action_items := orEmpty (reply_action_items result);
               resources := orEmpty (reply_resources result);
               questions := orEmpty (reply_questions result) |}
      end
  end.

(** [JSON.parse] followed by the cast to the expected shape: [None] when
    the text is not JSON. *)
Variable JSON_parse : jsstring -> option ParsedReply.

(** [categorizeConversation].  [openai] is [None] when no API key is set;
    otherwise it is the outcome of the completion request.  A throw inside
    either [try] block ends in its [catch], which returns the fallback. *)
Definition categorizeConversation (openai : option Completion)
  (conversation : ParsedConversation) : completion CategorizationResult :=
  match openai with
  | None => Returned (fallbackCategorization conversation)
  | Some ApiError => Returned (fallbackCategorization conversation)
  | Some (ApiReply None) | Some (ApiReply (Some [])) =>
      Returned (fallbackCategorization conversation)
  | Some (ApiReply (Some content)) =>
      match JSON_parse content with
      | None => Returned (fallbackCategorization conversation)
      | Some result =>
          match validateAndEnhanceResult result conversation with
          | Returned r => Returned r
          | Thrown => Returned (fallbackCategorization conversation)
          end
      end
  end.

(** [JSON.parse(content) as Highlight[]] of [enhanceHighlightsWithAI]. *)
Variable JSON_parse_highlights : jsstring -> option (list Highlight).

(** [enhanceHighlightsWithAI] *)
Definition enhanceHighlightsWithAI (openai : option Completion)
  (highlights : list Highlight) : list Highlight :=
  match openai with
  | Some (ApiReply (Some (c :: s))) =>
      match JSON_parse_highlights (c :: s) with
      | Some enhanced =>
          map (fun h =>
                 {| content := content h;
                    category := category h;
                    confidence_score := Math_min (confidence_score h) one;
                    tags := tags h;
                    notes := notes h;
                    position := position h |})
              enhanced
      | None => highlights
      end
  | _ => highlights
  end.

End Runtime.

End SmartHighlighter.

(* ===================================================================== *)
(** ** SmartHighlighter on values whose types are erased *)
(* ===================================================================== *)

(** The interface [Highlight] is erased at run time: what [JSON.parse]
    returns is cast, not checked.  This module has [validateHighlight],
    [enhanceHighlight] and [validateAndEnhanceResult] once more, on
    highlights whose [content], [tags] and [position] may be missing and
    whose position fields are any number.  A field that is present has the
    type the interface declares. *)
Module Untyped.
Import JS RegExp ConversationParser.

(** [a < b] and [a <= b] as the runtime evaluates them. *)
Definition num_ltb (a b : number) : bool :=
  match a, b with
  | NaN, _ | _, NaN => false
  | NegInfinity, NegInfinity => false
  | NegInfinity, _ => true
  | _, NegInfinity => false
  | PosInfinity, _ => false
  | _, PosInfinity => true
  | Finite p, Finite q => negb (Qle_bool q p)
  end.

Definition num_leb (a b : number) : bool :=
  match a, b with
  | NaN, _ | _, NaN => false
  | NegInfinity, _ => true
  | _, PosInfinity => true
  | Finite p, Finite q => Qle_bool p q
  | _, _ => false
  end.

(** An integer, and a length, as a number. *)
Definition ofZ (z : Z) : number := Finite (inject_Z z).
Definition ofNat (n : nat) : number := ofZ (Z.of_nat n).

(** The array index a number is, when it is one: a finite number without a
    fractional part that is not negative. *)
Definition asIndex (n : number) : option nat :=
  match n with
  | Finite q =>
      if Qeq_bool q (inject_Z (Qfloor q)) && (0 <=? Qfloor q)%Z
      then Some (Z.to_nat (Qfloor q))
      else None
  | _ => None
  end.

(** [l[n]]: the element at [n] when [n] is an index below the length,
    [undefined] for every other number. *)
Definition element (A : Type) (l : list A) (n : number) : option A :=
  match asIndex n with
  | Some i => nth_error l i
  | None => None
  end.

(** ToIntegerOrInfinity: NaN becomes 0 and a finite number loses its
    fractional part.  [substring] clamps the result to [0, len], so minus
    infinity may stand as -1 and plus infinity as [len]. *)
Definition truncate (q : Q) : Z :=
  if Qle_bool 0 q then Qfloor q else Qceiling q.

Definition ToIntegerOrInfinity (len : nat) (n : number) : Z :=
  match n with
  | NaN => 0
  | NegInfinity => -1
  | PosInfinity => Z.of_nat len
  | Finite q => truncate q
  end.

(** [s.substring(a, b)] for two numbers. *)
Definition substringOf (s : jsstring) (a b : number) : jsstring :=
  substring s (ToIntegerOrInfinity (length s) a)
              (ToIntegerOrInfinity (length s) b).

Record Position :=
  { messageIndex : number; startChar : number; endChar : number }.

(** A score that is missing is read as [undefined], of which [Math.min]
    makes NaN; nothing else reads the score, so a missing score is NaN
    here. *)
Record Highlight :=
  { content : option jsstring;
    category : SmartHighlighter.Category;
    confidence_score : number;
    tags : option (list jsstring);
    notes : option jsstring;
    position : option Position }.

Record ParsedReply :=
  { reply_highlights : option (list Highlight);
    reply_summary : option jsstring;
    reply_key_topics : option (list jsstring);
    reply_action_items : option (list jsstring);
    reply_resources : option (list jsstring);
    reply_questions : option (list jsstring) }.

Record CategorizationResult :=
  { highlights : list Highlight;
    summary : jsstring;
    key_topics : list jsstring;
    action_items : list jsstring;
    resources : list jsstring;
    questions : list jsstring }.

(** [validateHighlight].  It throws where it reads a property of
    [undefined]: [highlight.position.messageIndex] without a position,
    [message.content] when [messages[messageIndex]] is no element, and
    [highlight.content.trim()] without a content. *)
Definition validateHighlight (highlight : Highlight)
  (conversation : ParsedConversation) : completion bool :=
  match position highlight with
  | None => Thrown
  | Some position =>
      let messageIndex := messageIndex position in
      if num_ltb messageIndex (ofNat 0)
         || num_leb (ofNat (length (messages conversation))) messageIndex
      then Returned false
      else
        match element (messages conversation) messageIndex with
        | None => Thrown
        | Some message =>
            let content := ConversationParser.content message in
            let startChar := startChar position in
            let endChar := endChar position in
            if num_ltb startChar (ofNat 0)
               || num_ltb (ofNat (length content)) endChar
               || num_leb endChar startChar
            then Returned false
            else
              let extractedContent := substringOf content startChar endChar in
              match Untyped.content highlight with
              | None => Thrown
              | Some own =>
                  Returned (str_eqb (trim extractedContent) (trim own))
              end
        end
  end.

(** The [.filter(validateHighlight)] of [validateAndEnhanceResult]. *)
Fixpoint filterValid (hs : list Highlight) (conversation : ParsedConversation)
  : completion (list Highlight) :=
  match hs with
  | [] => Returned []
  | h :: rest =>
      match validateHighlight h conversation with
      | Thrown => Thrown
      | Returned keep =>
          match filterValid rest conversation with
          | Thrown => Thrown
          | Returned kept => Returned (if keep then h :: kept else kept)
          end
      end
  end.

Section Runtime.
Variable toLowerCase : jsstring -> jsstring.

(** [enhanceHighlight].  The spread of [highlight.tags] throws without
    tags, [highlight.content.includes] without a content. *)
Definition enhanceHighlight (highlight : Highlight) : completion Highlight :=
  match tags highlight with
  | None => Thrown
  | Some own =>
      match content highlight with
      | None => Thrown
      | Some text =>
          let enhancedTags :=
            own
            ++ (if includes text (js "```") then [js "code"] else [])
            ++ (if includes text (js "http") then [js "link"] else [])
            ++ (if includes text (js "?") then [js "question"] else [])
            ++ (if includes (toLowerCase text) (js "todo")
                   || includes (toLowerCase text) (js "task")
                then [js "todo"] else []) in
          let uniqueTags := Set_of enhancedTags in
          Returned
            {| content := Some text;
               category := category highlight;
               confidence_score :=
                 Math_min (confidence_score highlight) SmartHighlighter.one;
               tags := Some uniqueTags;
               notes := notes highlight;
               position := position highlight |}
      end
  end.

(** The [.map(enhanceHighlight)] that follows the filter. *)
Fixpoint enhanceAll (hs : list Highlight) : completion (list Highlight) :=
  match hs with
  | [] => Returned []
  | h :: rest =>
      match enhanceHighlight h with
      | Thrown => Thrown
      | Returned e =>
          match enhanceAll rest with
          | Thrown => Thrown
          | Returned es => Returned (e :: es)
          end
      end
  end.

(** [validateAndEnhanceResult]: the filter runs over all the highlights
    before the map starts. *)
Definition validateAndEnhanceResult (result : ParsedReply)
  (conversation : ParsedConversation) : completion CategorizationResult :=
  match reply_highlights result with
  | None => Thrown
  | Some hs =>
      match filterValid hs conversation with
      | Thrown => Thrown
      | Returned valid =>
          match enhanceAll valid with
          | Thrown => Thrown
          | Returned validatedHighlights =>
              Returned
                {| highlights := validatedHighlights;
                   summary :=
                     match reply_summary result with
                     | Some (c :: s) => c :: s
                     | _ => SmartHighlighter.generateFallbackSummary conversation
                     end;
                   key_topics :=
                     SmartHighlighter.orEmpty (reply_key_topics result);
                   action_items :=
                     SmartHighlighter.orEmpty (reply_action_items result);
                   resources :=
                     SmartHighlighter.orEmpty (reply_resources result);
                   questions :=
                     SmartHighlighter.orEmpty (reply_questions result) |}
          end
      end
  end.

End Runtime.

(** The typed values among the untyped ones. *)
Definition ofPosition (p : SmartHighlighter.Position) : Position :=
  {| messageIndex := ofZ (SmartHighlighter.messageIndex p);
     startChar := ofZ (SmartHighlighter.startChar p);
     endChar := ofZ (SmartHighlighter.endChar p) |}.

Definition ofHighlight (h : SmartHighlighter.Highlight) : Highlight :=
  {| content := Some (SmartHighlighter.content h);
     category := SmartHighlighter.category h;
     confidence_score := SmartHighlighter.confidence_score h;
     tags := Some (SmartHighlighter.tags h);
     notes := SmartHighlighter.notes h;
     position := Some (ofPosition (SmartHighlighter.position h)) |}.

Definition ofReply (r : SmartHighlighter.ParsedReply) : ParsedReply :=
  {| reply_highlights :=
       option_map (map ofHighlight) (SmartHighlighter.reply_highlights r);
     reply_summary := SmartHighlighter.reply_summary r;
     reply_key_topics := SmartHighlighter.reply_key_topics r;
     reply_action_items := SmartHighlighter.reply_action_items r;
     reply_resources := SmartHighlighter.reply_resources r;
     reply_questions := SmartHighlighter.reply_questions r |}.

Definition ofResult (r : SmartHighlighter.CategorizationResult)
  : CategorizationResult :=
  {| highlights := map ofHighlight (SmartHighlighter.highlights r);
     summary := SmartHighlighter.summary r;
     key_topics := SmartHighlighter.key_topics r;
     action_items := SmartHighlighter.action_items r;
     resources := SmartHighlighter.resources r;
     questions := SmartHighlighter.questions r |}.

Definition ofCompletion (c : completion SmartHighlighter.CategorizationResult)
  : completion CategorizationResult :=
  match c with
  | Returned r => Returned (ofResult r)
  | Thrown => Thrown
  end.

(** The verdict of the validator as a boolean; a throw counts as no. *)
Definition accepts (conversation : ParsedConversation) (h : Highlight) : bool :=
  match validateHighlight h conversation with
  | Returned b => b
  | Thrown => false
  end.

(** A highlight that has its content, its tags and a position whose message
    index is an integer. *)
Definition isInteger (n : number) : bool :=
  match n with
  | Finite q => Qeq_bool q (inject_Z (Qfloor q))
  | _ => false
  end.

Definition complete (h : Highlight) : bool :=
  match content h, tags h, position h with
  | Some _, Some _, Some p => isInteger (messageIndex p)
  | _, _, _ => false
  end.

(** A highlight as an oracle may write it: its text is in the first
    message, and its message index is 0.5. *)
Definition halfIndex : Highlight :=
  {| content := Some (js "Remind me what is left.");
     category := SmartHighlighter.insight;
     confidence_score := Finite (9 # 10);
     tags := Some [js "status"];
     notes := None;
     position :=
       Some {| messageIndex := Finite (1 # 2);
               startChar := ofZ 0;
               endChar := ofZ 23 |} |}.

(** The same highlight with the message index 0. *)
Definition wholeIndex : Highlight :=
  {| content := Some (js "Remind me what is left.");
     category := SmartHighlighter.insight;
     confidence_score := Finite (9 # 10);
     tags := Some [js "status"];
     notes := None;
     position :=
       Some {| messageIndex := ofZ 0;
               startChar := ofZ 0;
               endChar := ofZ 23 |} |}.

(** A reply that holds the given highlights and nothing else. *)
Definition replyOf (hs : list Highlight) : ParsedReply :=
  {| reply_highlights := Some hs;
     reply_summary := None;
     reply_key_topics := None;
     reply_action_items := None;
     reply_resources := None;
     reply_questions := None |}.

End Untyped.

(* ===================================================================== *)
(** ** The vocabulary of the properties *)
(* ===================================================================== *)

Module Claims.
Import JS RegExp SmartHighlighter.

(** Round-trip position integrity of one highlight: its position names a
    message of the conversation, and the text between its offsets, trimmed,
    is its content, trimmed. *)
Definition roundTrip (conversation : ParsedConversation) (h : Highlight) : Prop :=
  exists message,
    (0 <= messageIndex (position h))%Z /\
    nth_error (messages conversation) (Z.to_nat (messageIndex (position h)))
      = Some message /\
    trim (substring (ConversationParser.content message)
            (startChar (position h)) (endChar (position h)))
      = trim (content h).

(** The three grounds on which the validator is said to reject. *)
Definition outOfRange (conversation : ParsedConversation) (h : Highlight) : Prop :=
  (messageIndex (position h) < 0
   \/ Z.of_nat (length (messages conversation)) <= messageIndex (position h))%Z.

Definition badOffsets (message : ParsedMessage) (h : Highlight) : Prop :=
  ~ (0 <= startChar (position h)
     /\ startChar (position h) < endChar (position h)
     /\ endChar (position h)
        <= Z.of_nat (length (ConversationParser.content message)))%Z.

Definition textDiffers (message : ParsedMessage) (h : Highlight) : Prop :=
  trim (substring (ConversationParser.content message)
          (startChar (position h)) (endChar (position h)))
    <> trim (content h).

Definition rejected (conversation : ParsedConversation) (h : Highlight) : Prop :=
  outOfRange conversation h \/
  exists message,
    nth_error (messages conversation) (Z.to_nat (messageIndex (position h)))
      = Some message /\
    (badOffsets message h \/ textDiffers message h).

(** The categories the fallback extractors give. *)
Definition fallbackCategory (h : Highlight) : Prop :=
  category h = code \/ category h = action_item \/ category h = question.

(** A highlight taken from message [i], whose text is [text], spans its own
    content there. *)
Definition spansText (text : jsstring) (i : nat) (h : Highlight) : Prop :=
  messageIndex (position h) = Z.of_nat i /\
  trim (substring text (startChar (position h)) (endChar (position h)))
    = trim (content h).

(** The number of messages of a role. *)
Fixpoint countRole (r : Role) (msgs : list ParsedMessage) : nat :=
  match msgs with
  | [] => 0
  | m :: rest => (if Role_eqb (role m) r then 1 else 0) + countRole r rest
  end.

(** The summary in the words of the specification: "conversation about
    <title> with <N> user turns and <M> assistant turns". *)
Definition specSummary (conversation : ParsedConversation) : jsstring :=
  js "conversation about " ++ title conversation ++ js " with "
  ++ Number_toString (countRole user (messages conversation))
  ++ js " user turns and "
  ++ Number_toString (countRole assistant (messages conversation))
  ++ js " assistant turns".

(** The five source identifiers. *)
Definition sourceIds : list jsstring :=
  [js "chatgpt"; js "claude"; js "gemini"; js "perplexity"; js "custom"].

(** A runtime [toLowerCase] does on ASCII text what the Basic Latin case
    conversion does. *)
Definition lowersASCII (toLowerCase : jsstring -> jsstring) : Prop :=
  forall s, forallb isASCII s = true -> toLowerCase s = toLowerCaseASCII s.

(** The ways the oracle fails: the request fails, the reply has no text, or
    its text is not JSON. *)
Definition oracleFails (JSON_parse : jsstring -> option ParsedReply)
  (outcome : Completion) : Prop :=
  outcome = ApiError \/ outcome = ApiReply None \/
  exists text, outcome = ApiReply (Some text) /\ JSON_parse text = None.

(** The scenario of the specification. *)
Definition closureInput : jsstring :=
  js "User: What is a closure?" ++ [newline]
  ++ js "Assistant: A closure is a function bundled with its lexical scope. TODO: read more.".

(** What the specification expects of it. *)
Definition closureScenario (conversation : ParsedConversation)
  (result : CategorizationResult) : Prop :=
  map role (messages conversation) = [user; assistant] /\
  contentsOf question (highlights result) = [js "What is a closure?"] /\
  contentsOf action_item (highlights result) = [js "read more."] /\
  key_topics result = [js "General Discussion"].

(** A transcript whose assistant turn carries an action item on a line of
    its own. *)
Definition todoInput : jsstring :=
  js "User: Remind me what is left." ++ [newline]
  ++ js "Assistant: Two things remain." ++ [newline]
  ++ js "TODO: read more.".

(** A highlight an oracle may return, with a negative score. *)
Definition lowScore : Highlight :=
  {| content := js "Two things remain.";
     category := insight;
     confidence_score := Finite (- (1 # 2));
     tags := [js "status"];
     notes := None;
     position := {| messageIndex := 1; startChar := 0; endChar := 18 |} |}.

(** The reply of an oracle to that transcript: one highlight with its exact
    position, one whose offsets miss its text. *)
Definition todoReply : ParsedReply :=
  {| reply_highlights :=
       Some [ {| content := js "TODO: read more.";
                 category := action_item;
                 confidence_score := Finite (95 # 100);
                 tags := [js "reading"];
                 notes := None;
                 position := {| messageIndex := 1; startChar := 19; endChar := 35 |} |};
              {| content := js "Two things";
                 category := insight;
                 confidence_score := Finite (3 # 2);
                 tags := [];
                 notes := Some (js "status");
                 position := {| messageIndex := 1; startChar := 4; endChar := 14 |} |} ];
     reply_summary := Some (js "What is left to do.");
     reply_key_topics := Some [js "planning"];
     reply_action_items := None;
     reply_resources := None;
     reply_questions := None |}.

(** What [validateAndEnhanceResult] makes of that reply: the first
    highlight, with one more tag. *)
Definition todoResult : CategorizationResult :=
  {| highlights :=
       [ {| content := js "TODO: read more.";
            category := action_item;
            confidence_score := Finite (95 # 100);
            tags := [js "reading"; js "todo"];
            notes := None;
            position := {| messageIndex := 1; startChar := 19; endChar := 35 |} |} ];
     summary := js "What is left to do.";
     key_topics := [js "planning"];
     action_items := [];
     resources := [];
     questions := [] |}.

(** A highlight whose text is there but whose end offset lies beyond the 35
    code units of the message. *)
Definition overrun : Highlight :=
  {| content := js "Two things remain." ++ [newline] ++ js "TODO: read more.";
     category := other;
     confidence_score := Finite 1;
     tags := [];
     notes := None;
     position := {| messageIndex := 1; startChar := 0; endChar := 36 |} |}.

End Claims.

(* ===================================================================== *)
(** ** The PDF route: the name of the download *)
(* ===================================================================== *)

Module Route.
Import JS RegExp.

(** [input.replace(pattern, rep)] for a pattern with the [g] flag none of
    whose matches is empty: the text between the matches, with [rep] in the
    place of each match. *)
Fixpoint stitch (input : jsstring) (from : nat) (ms : list MatchResult)
  (rep : jsstring) : jsstring :=
  match ms with
  | [] => skipn from input
  | m :: rest =>
      slice input from (index m) ++ rep ++ stitch input (matchEnd m) rest rep
  end.

Definition replaceAllRe (ignoreCase : bool) (input : jsstring)
  (pattern : regex) (rep : jsstring) : jsstring :=
  stitch input 0 (execAll ignoreCase input pattern) rep.

Definition inRange (lo hi c : char) : bool := N.leb lo c && N.leb c hi.

(** The class of the pattern "/[^a-z0-9]/gi".  With the [i] flag a code unit
    is outside an inverted class when its canonical form is the canonical
    form of a member, here one of A-Z or 0-9. *)
Definition unsafe (c : char) : bool :=
  negb (inRange 65%N 90%N (canonicalize true c)
        || inRange 48%N 57%N (canonicalize true c)).

Definition unsafeRegex : regex := Class unsafe.

Section Runtime.
Variable toLowerCase : jsstring -> jsstring.

(** The file name in the Content-Disposition header of the route:
    [parsed.title.replace(/[^a-z0-9]/gi, '_').toLowerCase()] and ".pdf". *)
Definition filename (title : jsstring) : jsstring :=
  toLowerCase (replaceAllRe true title unsafeRegex (js "_")) ++ js ".pdf".

End Runtime.

End Route.

(* ===================================================================== *)
(** ** Further vocabulary: what a match is, and the rest of the pipeline *)
(* ===================================================================== *)

Module Further.
Import JS RegExp SmartHighlighter Route.

(** What it is for a pattern to match between two states of the matcher,
    said without any search order: the declarative reading of the pattern
    syntax.  A group leaves its own bounds as the capture. *)
Inductive Matches (ignoreCase : bool) (input : jsstring)
  : regex -> mstate -> mstate -> Prop :=
| Matches_Empty x : Matches ignoreCase input Empty x x
| Matches_Char c d x :
    nth_error input (endIndex x) = Some d ->
    canonicalize ignoreCase c = canonicalize ignoreCase d ->
    Matches ignoreCase input (Char c) x
      {| endIndex := S (endIndex x); capture := capture x |}
| Matches_Class p d x :
    nth_error input (endIndex x) = Some d ->
    p d = true ->
    Matches ignoreCase input (Class p) x
      {| endIndex := S (endIndex x); capture := capture x |}
| Matches_Seq a b x y z :
    Matches ignoreCase input a x y ->
    Matches ignoreCase input b y z ->
    Matches ignoreCase input (Seq a b) x z
| Matches_Alt_left a b x y :
    Matches ignoreCase input a x y ->
    Matches ignoreCase input (Alt a b) x y
| Matches_Alt_right a b x y :
    Matches ignoreCase input b x y ->
    Matches ignoreCase input (Alt a b) x y
| Matches_Star_done g a x : Matches ignoreCase input (Star g a) x x
| Matches_Star_more g a x y z :
    Matches ignoreCase input a x y ->
    Matches ignoreCase input (Star g a) y z ->
    Matches ignoreCase input (Star g a) x z
| Matches_Group a x y :
    Matches ignoreCase input a x y ->
    Matches ignoreCase input (Group a) x
      {| endIndex := endIndex y;
         capture := Some (endIndex x, endIndex y) |}
| Matches_Bol x :
    endIndex x = 0 -> Matches ignoreCase input Bol x x
| Matches_Eol x :
    length input <= endIndex x -> Matches ignoreCase input Eol x x.

(** A text has ink when some code unit of it is not white space. *)
Definition hasInk (s : jsstring) : bool :=
  existsb (fun c => negb (isWhiteSpace c)) s.

(** The code units that may stand inside one line. *)
Definition oneLine (s : jsstring) : bool :=
  forallb (fun c => negb (isLineTerminator c)) s.


(** A highlight taken from message [i], whose text is [text], is placed
    there: its offsets bound a non-empty stretch of the text, and the
    comparison the validator makes comes out true unless the highlight is
    an action item. *)
Definition placed (text : jsstring) (i : nat) (h : Highlight) : Prop :=
  messageIndex (position h) = Z.of_nat i
  /\ (0 <= startChar (position h) < endChar (position h))%Z
  /\ (endChar (position h) <= Z.of_nat (length text))%Z
  /\ str_eqb
       (trim (substring text (startChar (position h)) (endChar (position h))))
       (trim (content h))
     = negb (Category_eqb (category h) action_item).


(** The verdict of the validator as a boolean; a throw counts as no. *)
Definition accepts (conversation : ParsedConversation) (h : Highlight) : bool :=
  match validateHighlight h conversation with
  | Returned b => b
  | Thrown => false
  end.


(** No string twice, and every string among [names]. *)
Fixpoint distinct (l : list jsstring) : bool :=
  match l with
  | [] => true
  | x :: r => negb (existsb (str_eqb x) r) && distinct r
  end.

Definition amongst (names l : list jsstring) : bool :=
  forallb (fun x => existsb (str_eqb x) names) l.

(** The topics [extractKeyTopics] can name, and the tags [extractTags] can
    give. *)
Definition topicNames : list jsstring :=
  [ js "Frontend Development"; js "Backend Development"; js "Database";
    js "Deployment"; js "Testing"; js "Security"; js "General Discussion" ].

Definition tagNames : list jsstring :=
  [ js "code"; js "api"; js "database"; js "frontend"; js "backend";
    js "deployment" ].

Definition colon : char := 58%N.

(** What the loop body of every parser does with a line: it continues the
    current turn, or, on a line that holds a colon, it opens a turn. *)
Definition lineStep (step : LineState -> jsstring -> LineState) : Prop :=
  forall st line,
    step st line = continueTurn st line
    \/ (In colon line /\ exists r rest, step st line = openTurn st r rest).

(** What a conversation holds when nothing opened a turn: the text as one
    user message, unless it is blank. *)
Definition oneUserMessage (content : jsstring) : list ParsedMessage :=
  if truthy (trim content)
  then [ {| role := user; ConversationParser.content := trim content |} ]
  else [].


(** How [continueTurn] grows the text of the current turn. *)
Definition glue (current line : jsstring) : jsstring :=
  if truthy current then current ++ [newline] ++ line else line.

(** A message as the parsers push it: its content is not empty and is
    trimmed. *)
Definition pushed (m : ParsedMessage) : Prop :=
  ConversationParser.content m <> []
  /\ trim (ConversationParser.content m) = ConversationParser.content m.


(** The categories [ConversationParser.categorizeConversation] can give. *)
Definition categoryNames : list jsstring :=
  [ js "technical"; js "design"; js "business"; js "learning"; js "general" ].


(** [content] holds [word] when the case of the ASCII letters is ignored. *)
Definition includesAnyCase (content word : jsstring) : bool :=
  includes (map (canonicalize true) content) (map (canonicalize true) word).

(** The words that give a dialect away, dialect by dialect. *)
Definition sourceWords : list (jsstring * list jsstring) :=
  [ (js "chatgpt",
     [ js "ChatGPT"; js "OpenAI"; js "GPT-4"; js "GPT-3.5"; js "Chat History" ]);
    (js "claude", [ js "Claude"; js "Anthropic"; js "Claude-3"; js "Claude-2" ]);
    (js "gemini", [ js "Gemini"; js "Google AI"; js "Bard" ]);
    (js "perplexity", [ js "Perplexity"; js "Perplexity AI" ]) ].

(** The first dialect one of whose words the content holds. *)
Fixpoint firstMentioned (entries : list (jsstring * list jsstring))
  (content : jsstring) : jsstring :=
  match entries with
  | [] => js "custom"
  | (source, words) :: rest =>
      if existsb (includesAnyCase content) words then source
      else firstMentioned rest content
  end.


(** What the route makes of one code unit of a title. *)
Definition safeUnit (c : char) : char :=
  if unsafe c then 95%N else lowerASCII c.

(** The code units a file name of the route is made of: a-z, 0-9 and the
    underscore. *)
Definition isSafeUnit (c : char) : bool :=
  inRange 97%N 122%N c || inRange 48%N 57%N c || N.eqb c 95%N.


(** The words that decide: [sourceWords] without "Claude-3", "Claude-2" and
    "Perplexity AI". *)
Definition decidingWords : list (jsstring * list jsstring) :=
  [ (js "chatgpt",
     [ js "ChatGPT"; js "OpenAI"; js "GPT-4"; js "GPT-3.5"; js "Chat History" ]);
    (js "claude", [ js "Claude"; js "Anthropic" ]);
    (js "gemini", [ js "Gemini"; js "Google AI"; js "Bard" ]);
    (js "perplexity", [ js "Perplexity" ]) ].

(** The reply [categorizeConversation] hands to [validateAndEnhanceResult]:
    there is one when an oracle is configured, its request succeeds with a
    text that is not empty, and the text parses. *)
Definition oracleReply (JSON_parse : jsstring -> option ParsedReply)
  (openai : option Completion) : option ParsedReply :=
  match openai with
  | Some (ApiReply (Some (c :: t))) => JSON_parse (c :: t)
  | _ => None
  end.

(** A reply that holds the given highlights and nothing else. *)
Definition replyOf (hs : list Highlight) : ParsedReply :=
  {| reply_highlights := Some hs;
     reply_summary := None;
     reply_key_topics := None;
     reply_action_items := None;
     reply_resources := None;
     reply_questions := None |}.

End Further.

(* ===================================================================== *)
(** ** Properties *)
(* ===================================================================== *)

Import JS RegExp SmartHighlighter Claims Route Further.
Unset Implicit Arguments.

(** *** The model at work *)

(** A fenced block alone in an assistant message is one code highlight. *)
Example fenced_block_alone :
  extractMessage
    {| role := assistant; ConversationParser.content := js "```print(1)```" |} 0
  = [ {| content := js "```print(1)```";
         category := code;
         confidence_score := Finite (9 # 10);
         tags := [js "code"];
         notes := None;
         position := {| messageIndex := 0; startChar := 0; endChar := 14 |} |} ].
Proof. vm_compute. reflexivity. Qed.

(** An action item takes the newline that ends its line with it, so the
    marker of the next line is not at the start of a line any more. *)
Example action_items_line_by_line :
  map (fun h => (content h, startChar (position h), endChar (position h)))
    (extractActionItems
       (js "Intro" ++ [newline] ++ js "- todo write tests" ++ [newline]
        ++ js "* Task: b" ++ [newline] ++ js "PLAN:c") 0)
  = [ (js "write tests", 5%Z, 25%Z); (js "c", 34%Z, 41%Z) ].
Proof. vm_compute. reflexivity. Qed.

(** Questions shorter than eleven characters are dropped; a sentence that
    ends in a full stop is skipped. *)
Example questions_between_terminators :
  map (fun h => (content h, startChar (position h), endChar (position h)))
    (extractQuestions
       (js "Is it? Yes. Are closures really useful in practice?") 0)
  = [ (js "Are closures really useful in practice?", 11%Z, 51%Z) ].
Proof. vm_compute. reflexivity. Qed.

(** The dialects are tried in the order of [sourcePatterns]. *)
Example detectSource_order :
  detectSource (js "Claude and GPT-3.5 compared") = js "chatgpt"
  /\ detectSource (js "I asked bard and claude") = js "claude"
  /\ detectSource (js "GPT-3x5") = js "custom".
Proof. vm_compute. repeat split; reflexivity. Qed.

(** A ChatGPT transcript: the prefixes are case sensitive there, and the
    text before the first prefix is a user message of its own. *)
Example parseChatGPT_turns :
  map (fun m => (role m, ConversationParser.content m))
    (messages
       (parse toLowerCaseASCII
          (js "Chat with ChatGPT" ++ [newline] ++ js "User: hi  " ++ [newline]
           ++ js "more" ++ [newline] ++ js "ChatGPT: hello" ++ [newline]
           ++ js "assistant: no")))
  = [ (user, js "Chat with ChatGPT");
      (user, js "hi" ++ [newline] ++ js "more");
      (assistant, js "hello" ++ [newline] ++ js "assistant: no") ].
Proof. vm_compute. reflexivity. Qed.

(** Enhancement adds the tags of the content once and caps the score. *)
Example enhanceHighlight_tags_and_cap :
  enhanceHighlight toLowerCaseASCII
    {| content := js "TODO: why http?";
       category := other;
       confidence_score := Finite (3 # 2);
       tags := [js "todo"; js "x"; js "x"];
       notes := None;
       position := {| messageIndex := 0; startChar := 0; endChar := 15 |} |}
  = {| content := js "TODO: why http?";
       category := other;
       confidence_score := Finite 1;
       tags := [js "todo"; js "x"; js "link"; js "question"];
       notes := None;
       position := {| messageIndex := 0; startChar := 0; endChar := 15 |} |}.
Proof. vm_compute. reflexivity. Qed.

(** *** Strings *)

Lemma str_eqb_eq (a b : jsstring) : str_eqb a b = true <-> a = b.
Proof.
  revert b; induction a as [|c a IH]; intros [|d b]; simpl;
    try (split; [discriminate | discriminate]); try tauto.
  rewrite andb_true_iff, N.eqb_eq, IH.
  split; [intros [-> ->]; reflexivity | intros E; injection E; auto].
Qed.

Lemma str_eqb_refl (a : jsstring) : str_eqb a a = true.
Proof. apply str_eqb_eq; reflexivity. Qed.

Lemma str_eqb_neq (a b : jsstring) : str_eqb a b = false <-> a <> b.
Proof.
  rewrite <- str_eqb_eq. destruct (str_eqb a b); split; congruence.
Qed.

Lemma seen_In (x : jsstring) (seen : list jsstring) :
  existsb (str_eqb x) seen = true <-> In x seen.
Proof.
  rewrite existsb_exists; split.
  - intros (y & Hy & E). apply str_eqb_eq in E. subst; assumption.
  - intros H. exists x. split; [assumption | apply str_eqb_refl].
Qed.

Lemma trimEnd_idem (s : jsstring) : trimEnd (trimEnd s) = trimEnd s.
Proof.
  induction s as [|c t IH]; simpl; [reflexivity|].
  destruct (trimEnd t) as [|d r] eqn:E.
  - destruct (isWhiteSpace c) eqn:W; simpl; [reflexivity | now rewrite W].
  - simpl in *. rewrite IH. reflexivity.
Qed.

(** Trimming the end keeps a first character that is not white space. *)
Lemma trimEnd_head (c : char) (t : jsstring) :
  isWhiteSpace c = false -> exists r, trimEnd (c :: t) = c :: r.
Proof.
  intros W; simpl. destruct (trimEnd t) as [|d r].
  - rewrite W. now exists [].
  - now exists (d :: r).
Qed.

Lemma trimStart_head (s : jsstring) :
  trimStart s = [] \/ exists c t, trimStart s = c :: t /\ isWhiteSpace c = false.
Proof.
  induction s as [|c t IH]; simpl; [now left|].
  destruct (isWhiteSpace c) eqn:W; [assumption|].
  right. now exists c, t.
Qed.

Lemma trim_idem (s : jsstring) : trim (trim s) = trim s.
Proof.
  unfold trim. destruct (trimStart_head s) as [E | (c & t & E & W)]; rewrite E.
  - reflexivity.
  - destruct (trimEnd_head c t W) as (r & Er). rewrite Er. simpl trimStart.
    rewrite W, <- Er. apply trimEnd_idem.
Qed.

(** The text between [i] and [i + match[0].length] is [match[0]] again. *)
Lemma substring_slice (s : jsstring) (i e : nat) :
  substring s (Z.of_nat i) (Z.of_nat (i + length (slice s i e))) = slice s i e.
Proof.
  unfold substring, slice.
  set (n := length (firstn (e - i) (skipn i s))).
  assert (Hn : n = Nat.min (e - i) (length s - i))
    by (unfold n; now rewrite length_firstn, length_skipn).
  destruct (Nat.le_gt_cases i (length s)) as [Hi | Hi].
  - match goal with
    | |- firstn ?a (skipn ?b s) = _ =>
        replace b with i by lia; replace a with n by lia
    end.
    rewrite Hn, <- (length_skipn i s).
    generalize (skipn i s) as l; intros l.
    destruct (Nat.le_gt_cases (e - i) (length l)) as [H | H].
    + now rewrite Nat.min_l by assumption.
    + rewrite Nat.min_r by lia. rewrite firstn_all.
      symmetry. apply firstn_all2. lia.
  - rewrite !skipn_all2 by lia. rewrite !firstn_nil.
    reflexivity.
Qed.

(** *** Sets of tags *)

Lemma Set_add_ext (l s1 s2 : list jsstring) :
  (forall x, In x s1 <-> In x s2) -> Set_add s1 l = Set_add s2 l.
Proof.
  revert s1 s2; induction l as [|x r IH]; intros s1 s2 H; simpl; [reflexivity|].
  assert (E : existsb (str_eqb x) s1 = existsb (str_eqb x) s2).
  { apply eq_true_iff_eq. rewrite !seen_In. apply H. }
  rewrite E. destruct (existsb (str_eqb x) s2).
  - now apply IH.
  - f_equal. apply IH. intros y; simpl. rewrite H. tauto.
Qed.

Lemma Set_add_In (l seen : list jsstring) (x : jsstring) :
  In x (Set_add seen l) <-> In x l /\ ~ In x seen.
Proof.
  revert seen; induction l as [|y r IH]; intros seen; simpl; [tauto|].
  destruct (existsb (str_eqb y) seen) eqn:E.
  - apply seen_In in E. rewrite IH. split; [tauto|].
    intros [[-> | H] N]; [contradiction | tauto].
  - assert (N : ~ In y seen) by (rewrite <- seen_In; congruence).
    simpl. rewrite IH. simpl. split.
    + intros [-> | (H & M)]; [tauto|]. split; [tauto|]. intros K; apply M; tauto.
    + intros [[-> | H] M]; [tauto|].
      destruct (list_eq_dec N.eq_dec y x) as [-> | D]; [tauto|].
      right. split; [assumption|]. intros [K | K]; [congruence | contradiction].
Qed.

Lemma Set_add_idem (l seen : list jsstring) :
  Set_add seen (Set_add seen l) = Set_add seen l.
Proof.
  revert seen; induction l as [|x r IH]; intros seen; simpl; [reflexivity|].
  destruct (existsb (str_eqb x) seen) eqn:E; [apply IH|].
  simpl. rewrite E. f_equal.
  rewrite <- (IH (x :: seen)) at 2. reflexivity.
Qed.

(** Elements that were already inserted add nothing. *)
Lemma Set_add_app_seen (l extra seen : list jsstring) :
  (forall x, In x extra -> In x l \/ In x seen) ->
  Set_add seen (l ++ extra) = Set_add seen l.
Proof.
  revert seen; induction l as [|y r IH]; intros seen H; simpl.
  - induction extra as [|x e IHe]; simpl; [reflexivity|].
    assert (Hx : In x seen) by (destruct (H x (or_introl eq_refl)) as [[] | K]; exact K).
    apply seen_In in Hx. rewrite Hx. apply IHe. intros z Hz. apply H. now right.
  - destruct (existsb (str_eqb y) seen) eqn:E.
    + apply IH. intros x Hx. destruct (H x Hx) as [[<- | K] | K]; auto.
      right. now apply seen_In.
    + f_equal. apply IH. intros x Hx.
      destruct (H x Hx) as [[<- | K] | K]; simpl; auto.
Qed.

Lemma Set_of_again (l extra : list jsstring) :
  (forall x, In x extra -> In x l) ->
  Set_of (Set_of l ++ extra) = Set_of l.
Proof.
  intros H. unfold Set_of. rewrite Set_add_app_seen.
  - apply Set_add_idem.
  - intros x Hx. left. apply Set_add_In. split; [now apply H | tauto].
Qed.

(** *** Numbers *)

Lemma Math_min_one_idem (a : number) :
  Math_min (Math_min a one) one = Math_min a one.
Proof.
  destruct a as [| |q|]; simpl; try reflexivity.
  destruct (Qle_bool q 1) eqn:E; simpl; [now rewrite E | reflexivity].
Qed.

Lemma Math_min_not_above (a b : number) : ~ num_lt a (Math_min a b).
Proof.
  destruct a as [| |p|], b as [| |q|]; simpl; try tauto.
  - destruct (Qle_bool p q) eqn:E; simpl.
    + apply Qlt_irrefl.
    + intros H. apply Qlt_le_weak, Qle_bool_iff in H. congruence.
  - apply Qlt_irrefl.
Qed.

Lemma Math_min_one_le (a : number) : a = NaN \/ num_le (Math_min a one) one.
Proof.
  destruct a as [| |q|]; simpl; auto; right.
  - destruct (Qle_bool q 1) eqn:E; simpl.
    + now apply Qle_bool_iff.
    + apply Qle_refl.
  - apply Qle_refl.
Qed.

Lemma Math_min_one_nonneg (a : number) :
  num_le (Finite 0) (Math_min a one) <-> num_le (Finite 0) a.
Proof.
  destruct a as [| |q|]; simpl; try tauto.
  - destruct (Qle_bool q 1) eqn:E; simpl; [tauto|].
    split; intros _; [|discriminate].
    destruct (Qlt_le_dec 1 q) as [H | H].
    + apply Qlt_le_weak. eapply Qlt_trans; [|exact H]. reflexivity.
    + apply Qle_bool_iff in H. congruence.
  - split; intros _; [exact I | discriminate].
Qed.

(** *** The matcher *)

Section MatcherFacts.
Variable ignoreCase : bool.
Variable input : jsstring.

Lemma reaches_trans (n m : nat) (x y z : mstate) :
  reaches (length input) n x y -> reaches (length input) m y z ->
  reaches (length input) (n + m) x z.
Proof. unfold reaches. intros [A B] [C D]. split; [lia | auto]. Qed.

Lemma reaches_weaken (n m : nat) (x y : mstate) :
  m <= n -> reaches (length input) n x y -> reaches (length input) m x y.
Proof. unfold reaches. intros L [A B]. split; [lia | auto]. Qed.

Lemma reaches_step (x : mstate) (d : char) (c : option (nat * nat)) :
  nth_error input (endIndex x) = Some d ->
  reaches (length input) 1 x {| endIndex := S (endIndex x); capture := c |}.
Proof.
  intros H. assert (endIndex x < length input)
    by (apply nth_error_Some; congruence).
  unfold reaches; simpl. lia.
Qed.

(** A star passes to its continuation only states related to its own by any
    reflexive and transitive relation that its body respects. *)
Lemma starLoop_closed (R : mstate -> mstate -> Prop)
  (body : (mstate -> option mstate) -> mstate -> option mstate)
  (g : bool) (k : mstate -> option mstate) :
  (forall x, R x x) ->
  (forall x y z, R x y -> R y z -> R x z) ->
  (forall k' x z, body k' x = Some z -> exists y, k' y = Some z /\ R x y) ->
  forall n x z, starLoop body g k n x = Some z ->
    exists y, k y = Some z /\ R x y.
Proof.
  intros Refl Trans Body. induction n as [|n IHn]; intros x z H; simpl in H.
  - unfold orElse in H. destruct g.
    + exists x. auto.
    + destruct (k x) eqn:E; [|discriminate]. injection H as <-.
      exists x. auto.
  - assert (More : forall z',
        body (fun y => if endIndex x <? endIndex y
                       then starLoop body g k n y else None) x = Some z' ->
        exists y, k y = Some z' /\ R x y).
    { intros z' M. apply Body in M. destruct M as (y & M & Rxy).
      destruct (endIndex x <? endIndex y); [|discriminate].
      apply IHn in M. destruct M as (y' & M & Ryy').
      exists y'. eauto. }
    unfold orElse in H. destruct g.
    + match type of H with
      | match ?t with _ => _ end = _ => destruct t eqn:E
      end.
      * injection H as <-. apply More. reflexivity.
      * exists x. auto.
    + destruct (k x) eqn:E.
      * injection H as <-. exists x. auto.
      * apply More. exact H.
Qed.

(** Whatever the continuation accepted was reached by consuming at least
    [minLength r] code units, without leaving the input. *)
Lemma rmatch_sound (r : regex) :
  forall k x z,
    rmatch ignoreCase input r k x = Some z ->
    exists y, k y = Some z /\ reaches (length input) (minLength r) x y.
Proof.
  induction r as [|c|p|a IHa b IHb|a IHa b IHb|g a IHa|a IHa| |];
    intros k x z H.
  - exists x. split; [exact H | unfold reaches; simpl; lia].
  - simpl in H. destruct (nth_error input (endIndex x)) as [d|] eqn:E;
      [|discriminate].
    destruct (N.eqb _ _); [|discriminate].
    eexists. split; [exact H | eapply reaches_step; eassumption].
  - simpl in H. destruct (nth_error input (endIndex x)) as [d|] eqn:E;
      [|discriminate].
    destruct (p d); [|discriminate].
    eexists. split; [exact H | eapply reaches_step; eassumption].
  - simpl in H. apply IHa in H. destruct H as (y & H & R1).
    apply IHb in H. destruct H as (y' & H & R2).
    exists y'. split; [exact H | eapply reaches_trans; eassumption].
  - simpl in H. unfold orElse in H.
    destruct (rmatch ignoreCase input a k x) eqn:E.
    + injection H as <-. apply IHa in E. destruct E as (y & E & R).
      exists y. split; [exact E|]. eapply reaches_weaken; [|exact R].
      simpl. lia.
    + apply IHb in H. destruct H as (y & H & R).
      exists y. split; [exact H|]. eapply reaches_weaken; [|exact R].
      simpl. lia.
  - simpl in H.
    eapply (starLoop_closed (reaches (length input) 0)); [| | |exact H].
    + intros x'. unfold reaches. lia.
    + intros x' y' z'. apply (reaches_trans 0 0).
    + intros k' x' z' M. apply IHa in M. destruct M as (y & M & R).
      exists y. split; [exact M|]. eapply reaches_weaken; [|exact R]. lia.
  - simpl in H. apply IHa in H. destruct H as (y & H & R).
    eexists. split; [exact H|]. exact R.
  - simpl in H. destruct (endIndex x =? 0); [|discriminate].
    exists x. split; [exact H | unfold reaches; simpl; lia].
  - simpl in H. destruct (length input <=? endIndex x); [|discriminate].
    exists x. split; [exact H | unfold reaches; simpl; lia].
Qed.

(** The matcher looks at its continuation only on states further on in the
    input. *)
Lemma starLoop_ext
  (body : (mstate -> option mstate) -> mstate -> option mstate) (g : bool) :
  (forall k1 k2 x, endIndex x <= length input ->
     agree (length input) x k1 k2 -> body k1 x = body k2 x) ->
  forall n k1 k2 x, endIndex x <= length input ->
    agree (length input) x k1 k2 ->
    starLoop body g k1 n x = starLoop body g k2 n x.
Proof.
  intros Body. induction n as [|n IHn]; intros k1 k2 x L A; simpl.
  - now rewrite (A x (Nat.le_refl _) L).
  - rewrite (A x (Nat.le_refl _) L). f_equal.
    assert (E : body (fun y => if endIndex x <? endIndex y
                               then starLoop body g k1 n y else None) x
                = body (fun y => if endIndex x <? endIndex y
                               then starLoop body g k2 n y else None) x).
    { apply Body; [exact L|]. intros y Lxy Ly.
      destruct (endIndex x <? endIndex y); [|reflexivity].
      apply IHn; [exact Ly|]. intros y' Lyy' Ly'. apply A; lia. }
    destruct g; now rewrite E.
Qed.

Lemma rmatch_ext (r : regex) :
  forall k1 k2 x, endIndex x <= length input ->
    agree (length input) x k1 k2 ->
    rmatch ignoreCase input r k1 x = rmatch ignoreCase input r k2 x.
Proof.
  induction r as [|c|p|a IHa b IHb|a IHa b IHb|g a IHa|a IHa| |];
    intros k1 k2 x L A; simpl.
  - apply A; [lia | exact L].
  - destruct (nth_error input (endIndex x)) as [d|] eqn:E; [|reflexivity].
    assert (endIndex x < length input) by (apply nth_error_Some; congruence).
    destruct (N.eqb _ _); [|reflexivity]. apply A; simpl; lia.
  - destruct (nth_error input (endIndex x)) as [d|] eqn:E; [|reflexivity].
    assert (endIndex x < length input) by (apply nth_error_Some; congruence).
    destruct (p d); [|reflexivity]. apply A; simpl; lia.
  - apply IHa; [exact L|]. intros y Lxy Ly.
    apply IHb; [exact Ly|]. intros y' Lyy' Ly'. apply A; lia.
  - now rewrite (IHa k1 k2 x L A), (IHb k1 k2 x L A).
  - apply starLoop_ext; assumption.
  - apply IHa; [exact L|]. intros y Lxy Ly. apply A; simpl; lia.
  - destruct (endIndex x =? 0); [|reflexivity]. apply A; [lia | exact L].
  - destruct (length input <=? endIndex x); [|reflexivity].
    apply A; [lia | exact L].
Qed.

(** The fuel of a star is no restriction: with the code units left as fuel,
    one more unit changes nothing, since every iteration consumes one. *)
Lemma starLoop_fuel (a : regex) (g : bool) (k : mstate -> option mstate) :
  forall n x,
    endIndex x <= length input -> length input - endIndex x <= n ->
    starLoop (rmatch ignoreCase input a) g k (S n) x
    = starLoop (rmatch ignoreCase input a) g k n x.
Proof.
  induction n as [|n IHn]; intros x L F.
  - simpl.
    assert (E : rmatch ignoreCase input a
                  (fun y => if endIndex x <? endIndex y
                            then starLoop (rmatch ignoreCase input a) g k 0 y
                            else None) x = None).
    { destruct (rmatch ignoreCase input a _ x) as [z|] eqn:E; [|reflexivity].
      apply rmatch_sound in E. destruct E as (y & E & R1 & R2).
      destruct (Nat.ltb_spec (endIndex x) (endIndex y)) as [K | K];
        [specialize (R2 L); lia | discriminate]. }
    simpl in E. rewrite E. reflexivity.
  - change (starLoop (rmatch ignoreCase input a) g k (S (S n)) x)
      with (let again (_ : unit) :=
              rmatch ignoreCase input a
                (fun y => if endIndex x <? endIndex y
                          then starLoop (rmatch ignoreCase input a) g k (S n) y
                          else None) x in
            if g then orElse (again tt) (fun _ => k x)
            else orElse (k x) again).
    change (starLoop (rmatch ignoreCase input a) g k (S n) x)
      with (let again (_ : unit) :=
              rmatch ignoreCase input a
                (fun y => if endIndex x <? endIndex y
                          then starLoop (rmatch ignoreCase input a) g k n y
                          else None) x in
            if g then orElse (again tt) (fun _ => k x)
            else orElse (k x) again).
    cbv zeta.
    assert (E : rmatch ignoreCase input a
                  (fun y => if endIndex x <? endIndex y
                            then starLoop (rmatch ignoreCase input a) g k (S n) y
                            else None) x
                = rmatch ignoreCase input a
                  (fun y => if endIndex x <? endIndex y
                            then starLoop (rmatch ignoreCase input a) g k n y
                            else None) x).
    { apply rmatch_ext; [exact L|]. intros y Lxy Ly.
      destruct (Nat.ltb_spec (endIndex x) (endIndex y)) as [K | K];
        [|reflexivity].
      apply IHn; lia. }
    unfold orElse. rewrite E. reflexivity.
Qed.

(** Group 1 is set in what the continuation accepted, when every match of
    the pattern goes through it. *)
Lemma rmatch_captures (r : regex) :
  forall k x z,
    rmatch ignoreCase input r k x = Some z ->
    exists y, k y = Some z /\ keeps (captures r) x y.
Proof.
  unfold keeps.
  induction r as [|c|p|a IHa b IHb|a IHa b IHb|g a IHa|a IHa| |];
    intros k x z H; simpl in H.
  - exists x. split; [exact H|]. simpl. intros [K | K]; [discriminate | exact K].
  - destruct (nth_error input (endIndex x)) as [d|]; [|discriminate].
    destruct (N.eqb _ _); [|discriminate].
    eexists. split; [exact H|]. simpl. intros [K | K]; [discriminate | exact K].
  - destruct (nth_error input (endIndex x)) as [d|]; [|discriminate].
    destruct (p d); [|discriminate].
    eexists. split; [exact H|]. simpl. intros [K | K]; [discriminate | exact K].
  - apply IHa in H. destruct H as (y & H & Ka).
    apply IHb in H. destruct H as (y' & H & Kb).
    exists y'. split; [exact H|]. simpl. rewrite orb_true_iff.
    intros [[K | K] | K]; auto.
  - unfold orElse in H. destruct (rmatch ignoreCase input a k x) eqn:E.
    + injection H as <-. apply IHa in E. destruct E as (y & E & K).
      exists y. split; [exact E|]. simpl. rewrite andb_true_iff.
      intros [[Ka _] | Kx]; auto.
    + apply IHb in H. destruct H as (y & H & K).
      exists y. split; [exact H|]. simpl. rewrite andb_true_iff.
      intros [[_ Kb] | Kx]; auto.
  - eapply (starLoop_closed (fun x y => false = true \/ capture x <> None
                                         -> capture y <> None));
      [| | |exact H].
    + intros x' [K | K]; [discriminate | exact K].
    + intros x' y' z' A B [K | K]; [discriminate|]. apply B. right. apply A.
      now right.
    + intros k' x' z' M. apply IHa in M. destruct M as (y & M & K).
      exists y. split; [exact M|]. intros [D | D]; [discriminate|]. apply K.
      now right.
  - apply IHa in H. destruct H as (y & H & K).
    eexists. split; [exact H|]. simpl. discriminate.
  - destruct (endIndex x =? 0); [|discriminate].
    exists x. split; [exact H|]. simpl. intros [K | K]; [discriminate | exact K].
  - destruct (length input <=? endIndex x); [|discriminate].
    exists x. split; [exact H|]. simpl. intros [K | K]; [discriminate | exact K].
Qed.

End MatcherFacts.

Section ExecFacts.
Variable ignoreCase : bool.
Variable input : jsstring.
Variable pattern : regex.

Lemma search_bounds (n i : nat) (m : MatchResult) :
  i + n <= length input ->
  search ignoreCase input pattern n i = Some m ->
  i <= index m /\ index m + minLength pattern <= matchEnd m
  /\ matchEnd m <= length input.
Proof.
  revert i; induction n as [|n IHn]; intros i L H; simpl in H.
  - destruct (rmatch ignoreCase input pattern Some _) as [y|] eqn:E;
      [|discriminate].
    injection H as <-. apply rmatch_sound in E.
    destruct E as (y' & E & R1 & R2). injection E as ->. simpl in *. lia.
  - destruct (rmatch ignoreCase input pattern Some _) as [y|] eqn:E.
    + injection H as <-. apply rmatch_sound in E.
      destruct E as (y' & E & R1 & R2). injection E as ->. simpl in *. lia.
    + apply IHn in H; lia.
Qed.

Lemma exec_bounds (lastIndex : nat) (m : MatchResult) :
  exec ignoreCase input pattern lastIndex = Some m ->
  lastIndex <= index m /\ index m + minLength pattern <= matchEnd m
  /\ matchEnd m <= length input.
Proof.
  unfold exec. destruct (length input <? lastIndex) eqn:E; [discriminate|].
  apply Nat.ltb_ge in E. apply search_bounds. lia.
Qed.

Lemma exec_captures (lastIndex : nat) (m : MatchResult) :
  captures pattern = true ->
  exec ignoreCase input pattern lastIndex = Some m ->
  group1 m <> None.
Proof.
  intros C. unfold exec. destruct (length input <? lastIndex); [discriminate|].
  generalize (length input - lastIndex) as n. intros n. revert lastIndex.
  induction n as [|n IHn]; intros i H; simpl in H;
    destruct (rmatch ignoreCase input pattern Some _) as [y|] eqn:E;
    try discriminate; try (now apply IHn in H);
    injection H as <-; apply rmatch_captures in E;
    destruct E as (y' & E & K); injection E as ->; simpl; apply K; now left.
Qed.

Lemma execLoop_Forall (P : MatchResult -> Prop) :
  (forall lastIndex m,
     exec ignoreCase input pattern lastIndex = Some m -> P m) ->
  forall fuel lastIndex,
    Forall P (execLoop ignoreCase input pattern fuel lastIndex).
Proof.
  intros H. induction fuel as [|fuel IH]; intros lastIndex; simpl;
    [constructor|].
  destruct (exec ignoreCase input pattern lastIndex) as [m|] eqn:E;
    [|constructor].
  constructor; [eapply H; exact E | apply IH].
Qed.

(** The loop over the matches of a pattern that cannot match the empty
    string ends by itself: once there is more fuel than input left, more
    fuel changes nothing. *)
Lemma execLoop_fuel :
  0 < minLength pattern ->
  forall fuel lastIndex fuel',
    length input - lastIndex < fuel -> fuel <= fuel' ->
    execLoop ignoreCase input pattern fuel' lastIndex
    = execLoop ignoreCase input pattern fuel lastIndex.
Proof.
  intros Pos. induction fuel as [|fuel IH]; intros lastIndex fuel' L1 L2;
    [lia|].
  destruct fuel' as [|fuel']; [lia|]. simpl.
  destruct (exec ignoreCase input pattern lastIndex) as [m|] eqn:E;
    [|reflexivity].
  f_equal. apply exec_bounds in E. apply IH; lia.
Qed.

Lemma execAll_fuel :
  0 < minLength pattern ->
  forall fuel, length input < fuel ->
    execLoop ignoreCase input pattern fuel 0 = execAll ignoreCase input pattern.
Proof.
  intros Pos fuel L. unfold execAll. apply execLoop_fuel; [assumption| |]; lia.
Qed.

End ExecFacts.

(** Group 1 of the action-item pattern is set in every match, so that
    [extractActionItems] never reads an undefined [match[1]]. *)
Lemma actionItemRegex_captures (text : jsstring) :
  Forall (fun m => match1 text m <> None) (execAll true text actionItemRegex).
Proof.
  apply execLoop_Forall. intros lastIndex m H.
  apply exec_captures in H; [|reflexivity].
  unfold match1. destruct (group1 m) as [[i e]|]; [discriminate | contradiction].
Qed.

(** None of the three patterns of the extractors matches the empty string. *)
Lemma extractor_patterns_consume :
  minLength codeBlockRegex = 6 /\ minLength actionItemRegex = 5
  /\ minLength questionRegex = 1.
Proof. repeat split; reflexivity. Qed.

(** So the three [while] loops of the extractors end, and more rounds than
    [execAll] allows would visit the same matches. *)
Lemma extractor_loops_end (text : jsstring) (fuel : nat) :
  length text < fuel ->
  execLoop false text codeBlockRegex fuel 0 = execAll false text codeBlockRegex
  /\ execLoop true text actionItemRegex fuel 0
     = execAll true text actionItemRegex
  /\ execLoop false text questionRegex fuel 0
     = execAll false text questionRegex.
Proof.
  intros L. repeat split; apply execAll_fuel; try exact L; simpl; lia.
Qed.

(** *** The validator *)

(** On a highlight whose position holds three integers [validateHighlight]
    is a total boolean predicate.  It returns false exactly when the message
    index is out of range, or the offsets violate 0 <= startChar < endChar
    <= length of the message text, or the trimmed text between the offsets
    differs from the trimmed content; in particular it rejects every
    highlight whose endChar exceeds the length of the message text, whatever
    its content. *)
Theorem validateHighlight_total_predicate
  (h : Highlight) (conversation : ParsedConversation) :
  (exists b, validateHighlight h conversation = Returned b)
  /\ (validateHighlight h conversation = Returned false
      <-> rejected conversation h)
  /\ (forall message,
        nth_error (messages conversation)
          (Z.to_nat (messageIndex (position h))) = Some message ->
        (Z.of_nat (length (ConversationParser.content message))
         < endChar (position h))%Z ->
        validateHighlight h conversation = Returned false).
Proof.
  unfold validateHighlight, rejected, outOfRange, badOffsets, textDiffers.
  destruct h as [c cat score tgs nts [i s e]]; simpl.
  rewrite Z.geb_leb.
  destruct (Z.ltb_spec i 0) as [Hi | Hi]; simpl.
  { repeat split; eauto; intros _; left; lia. }
  destruct (Z.leb_spec (Z.of_nat (length (messages conversation))) i)
    as [Hl | Hl]; simpl.
  { repeat split; eauto; intros _; left; lia. }
  destruct (nth_error (messages conversation) (Z.to_nat i)) as [message|] eqn:E.
  2:{ apply nth_error_None in E. lia. }
  rewrite Z.gtb_ltb, Z.geb_leb.
  destruct (Z.ltb_spec s 0) as [Hs | Hs]; simpl.
  { repeat split; eauto; intros _; right; exists message;
      (split; [reflexivity|]); left; lia. }
  destruct (Z.ltb_spec (Z.of_nat (length (ConversationParser.content message))) e)
    as [He | He]; simpl.
  { repeat split; eauto; intros _; right; exists message;
      (split; [reflexivity|]); left; lia. }
  destruct (Z.leb_spec e s) as [Hse | Hse]; simpl.
  { repeat split; eauto; intros _; right; exists message;
      (split; [reflexivity|]); left; lia. }
  split; [eauto|]. split.
  - split.
    + intros H. injection H as H. apply str_eqb_neq in H.
      right. exists message. split; [reflexivity|]. now right.
    + intros [H | (m & Hm & [H | H])]; [lia | |];
        injection Hm as <-; [lia|].
      f_equal. now apply str_eqb_neq.
  - intros m Hm Hlen. injection Hm as <-. lia.
Qed.

Lemma validateHighlight_total_predicate_witness :
  validateHighlight overrun (parse toLowerCaseASCII todoInput) = Returned false.
Proof.
  refine (proj2 (proj2 (validateHighlight_total_predicate overrun
                          (parse toLowerCaseASCII todoInput)))
            {| role := assistant;
               ConversationParser.content :=
                 js "Two things remain." ++ [newline] ++ js "TODO: read more." |}
            _ _).
  - vm_compute. reflexivity.
  - vm_compute. reflexivity.
Defined.

(** *** The validator on untyped highlights *)

Lemma Qle_bool_inject_Z (a b : Z) :
  Qle_bool (inject_Z a) (inject_Z b) = (a <=? b)%Z.
Proof. unfold Qle_bool; simpl. now rewrite !Z.mul_1_r. Qed.

Lemma num_ltb_ofZ (a b : Z) :
  Untyped.num_ltb (Untyped.ofZ a) (Untyped.ofZ b) = (a <? b)%Z.
Proof.
  unfold Untyped.num_ltb, Untyped.ofZ. rewrite Qle_bool_inject_Z.
  symmetry. apply Z.ltb_antisym.
Qed.

Lemma num_leb_ofZ (a b : Z) :
  Untyped.num_leb (Untyped.ofZ a) (Untyped.ofZ b) = (a <=? b)%Z.
Proof. apply Qle_bool_inject_Z. Qed.

Lemma Qeq_bool_refl (q : Q) : Qeq_bool q q = true.
Proof. apply Qeq_bool_iff. reflexivity. Qed.

Lemma asIndex_ofZ (z : Z) :
  (0 <= z)%Z -> Untyped.asIndex (Untyped.ofZ z) = Some (Z.to_nat z).
Proof.
  intros H. unfold Untyped.asIndex, Untyped.ofZ.
  rewrite Qfloor_Z, Qeq_bool_refl.
  destruct (Z.leb_spec 0 z); [reflexivity | lia].
Qed.

Lemma truncate_inject_Z (z : Z) : Untyped.truncate (inject_Z z) = z.
Proof.
  unfold Untyped.truncate.
  destruct (Qle_bool 0 (inject_Z z)); [apply Qfloor_Z | apply Qceiling_Z].
Qed.

Lemma substringOf_ofZ (s : jsstring) (a b : Z) :
  Untyped.substringOf s (Untyped.ofZ a) (Untyped.ofZ b) = substring s a b.
Proof.
  unfold Untyped.substringOf, Untyped.ofZ; simpl.
  now rewrite !truncate_inject_Z.
Qed.

(** On a highlight that is complete and has an integer position, the untyped
    validator is the typed one. *)
Lemma validateHighlight_of_typed (h : Highlight)
  (conversation : ParsedConversation) :
  Untyped.validateHighlight (Untyped.ofHighlight h) conversation
  = validateHighlight h conversation.
Proof.
  unfold Untyped.validateHighlight, validateHighlight, Untyped.ofNat.
  destruct h as [c cat score tgs nts [i s e]].
  cbn [Untyped.ofHighlight Untyped.ofPosition Untyped.position
       Untyped.messageIndex Untyped.startChar Untyped.endChar Untyped.content
       position messageIndex startChar endChar content].
  rewrite num_ltb_ofZ, num_leb_ofZ, Z.geb_leb. simpl Z.of_nat.
  destruct (Z.ltb_spec i 0) as [Hi | Hi]; [reflexivity|].
  destruct (Z.leb_spec (Z.of_nat (length (messages conversation))) i)
    as [Hl | Hl]; [reflexivity|].
  cbn [orb]. unfold Untyped.element. rewrite asIndex_ofZ by exact Hi.
  destruct (nth_error (messages conversation) (Z.to_nat i)) as [message|];
    [|reflexivity].
  now rewrite !num_ltb_ofZ, num_leb_ofZ, substringOf_ofZ, Z.gtb_ltb, Z.geb_leb.
Qed.

(** A message index that lies within the range and is not an integer names
    no message, and reading the content of no message throws. *)
Lemma validateHighlight_between_indices (h : Untyped.Highlight)
  (p : Untyped.Position) (conversation : ParsedConversation) :
  Untyped.position h = Some p ->
  Untyped.num_ltb (Untyped.messageIndex p) (Untyped.ofNat 0) = false ->
  Untyped.num_leb (Untyped.ofNat (length (messages conversation)))
    (Untyped.messageIndex p) = false ->
  Untyped.isInteger (Untyped.messageIndex p) = false ->
  Untyped.validateHighlight h conversation = Thrown.
Proof.
  intros Hp H1 H2 H3. unfold Untyped.validateHighlight.
  rewrite Hp, H1, H2. cbn [orb]. unfold Untyped.element, Untyped.asIndex.
  destruct (Untyped.messageIndex p) as [| |q|]; try reflexivity.
  simpl in H3. now rewrite H3.
Qed.

Lemma asIndex_in_range (n : number) (len : nat) :
  Untyped.isInteger n = true ->
  Untyped.num_ltb n (Untyped.ofNat 0) = false ->
  Untyped.num_leb (Untyped.ofNat len) n = false ->
  exists i, Untyped.asIndex n = Some i /\ i < len.
Proof.
  destruct n as [| |q|]; simpl; try discriminate.
  intros Hq H0 Hl. rewrite Hq.
  apply negb_false_iff, Qle_bool_iff in H0.
  assert (Hf : (0 <= Qfloor q)%Z).
  { rewrite <- (Qfloor_Z 0). now apply Qfloor_resp_le. }
  destruct (Z.leb_spec 0 (Qfloor q)) as [_|]; [|lia].
  eexists. split; [reflexivity|].
  assert (Hlt : (Qfloor q < Z.of_nat len)%Z).
  { destruct (Z.lt_ge_cases (Qfloor q) (Z.of_nat len)) as [|Hge]; [assumption|].
    exfalso. apply not_true_iff_false in Hl. apply Hl.
    apply Qle_bool_iff.
    apply Qle_trans with (inject_Z (Qfloor q)).
    - rewrite <- Zle_Qle. exact Hge.
    - apply Qfloor_le. }
  lia.
Qed.

(** A complete highlight never makes the validator throw. *)
Lemma validateHighlight_complete (h : Untyped.Highlight)
  (conversation : ParsedConversation) :
  Untyped.complete h = true ->
  Untyped.validateHighlight h conversation
  = Returned (Untyped.accepts conversation h).
Proof.
  intros C. unfold Untyped.accepts.
  destruct (Untyped.validateHighlight h conversation) as [b|] eqn:E;
    [reflexivity|].
  exfalso. revert E. unfold Untyped.complete in C.
  unfold Untyped.validateHighlight.
  destruct (Untyped.content h) as [own|]; [|discriminate].
  destruct (Untyped.tags h); [|discriminate].
  destruct (Untyped.position h) as [p|]; [|discriminate].
  destruct (Untyped.num_ltb (Untyped.messageIndex p) (Untyped.ofNat 0)) eqn:H0;
    [discriminate|].
  destruct (Untyped.num_leb _ (Untyped.messageIndex p)) eqn:Hl;
    [discriminate|].
  cbn [orb]. unfold Untyped.element.
  destruct (asIndex_in_range _ _ C H0 Hl) as (i & -> & Hi).
  destruct (nth_error (messages conversation) i) as [message|] eqn:N.
  - now destruct (_ || _).
  - apply nth_error_None in N. lia.
Qed.

Lemma Untyped_filterValid_inv (conversation : ParsedConversation)
  (hs kept : list Untyped.Highlight) :
  Untyped.filterValid hs conversation = Returned kept ->
  kept = filter (Untyped.accepts conversation) hs.
Proof.
  revert kept; induction hs as [|h rest IH]; intros kept; simpl.
  - now intros [= <-].
  - unfold Untyped.accepts at 1.
    destruct (Untyped.validateHighlight h conversation) as [keep|];
      [|discriminate].
    destruct (Untyped.filterValid rest conversation) as [k|]; [|discriminate].
    intros [= <-]. rewrite (IH k eq_refl). reflexivity.
Qed.

Lemma Untyped_filterValid_Thrown (conversation : ParsedConversation)
  (hs : list Untyped.Highlight) (h : Untyped.Highlight) :
  In h hs -> Untyped.validateHighlight h conversation = Thrown ->
  Untyped.filterValid hs conversation = Thrown.
Proof.
  intros Hin Ht. induction hs as [|x rest IH]; [contradiction|].
  simpl. destruct Hin as [-> | Hin].
  - now rewrite Ht.
  - destruct (Untyped.validateHighlight x conversation); [|reflexivity].
    now rewrite (IH Hin).
Qed.

Lemma Untyped_filterValid_complete (conversation : ParsedConversation)
  (hs : list Untyped.Highlight) :
  forallb Untyped.complete hs = true ->
  Untyped.filterValid hs conversation
  = Returned (filter (Untyped.accepts conversation) hs).
Proof.
  induction hs as [|h rest IH]; simpl; [reflexivity|].
  intros H. apply andb_true_iff in H. destruct H as [Hh Hr].
  now rewrite (validateHighlight_complete _ conversation Hh), (IH Hr).
Qed.

Lemma Untyped_enhanceHighlight_score (toLowerCase : jsstring -> jsstring)
  (h e : Untyped.Highlight) :
  Untyped.enhanceHighlight toLowerCase h = Returned e ->
  Untyped.confidence_score e = Math_min (Untyped.confidence_score h) one.
Proof.
  unfold Untyped.enhanceHighlight.
  destruct (Untyped.tags h); [|discriminate].
  destruct (Untyped.content h); [|discriminate].
  now intros [= <-].
Qed.

Lemma Untyped_enhanceAll_each (toLowerCase : jsstring -> jsstring)
  (hs es : list Untyped.Highlight) :
  Untyped.enhanceAll toLowerCase hs = Returned es ->
  Forall2 (fun h e => Untyped.enhanceHighlight toLowerCase h = Returned e) hs es.
Proof.
  revert es; induction hs as [|h rest IH]; intros es; simpl.
  - intros [= <-]. constructor.
  - destruct (Untyped.enhanceHighlight toLowerCase h) as [e|] eqn:E;
      [|discriminate].
    destruct (Untyped.enhanceAll toLowerCase rest) as [r|]; [|discriminate].
    intros [= <-]. constructor; [exact E | now apply IH].
Qed.

Lemma Untyped_enhanceAll_complete (toLowerCase : jsstring -> jsstring)
  (hs : list Untyped.Highlight) :
  forallb Untyped.complete hs = true ->
  exists es, Untyped.enhanceAll toLowerCase hs = Returned es.
Proof.
  induction hs as [|h rest IH]; simpl; [now eexists|].
  intros H. apply andb_true_iff in H. destruct H as [Hh Hr].
  destruct (IH Hr) as (es & ->).
  unfold Untyped.complete in Hh. unfold Untyped.enhanceHighlight.
  destruct (Untyped.content h); [|discriminate].
  destruct (Untyped.tags h); [|discriminate].
  now eexists.
Qed.

Lemma forallb_filter (A : Type) (p q : A -> bool) (l : list A) :
  forallb p l = true -> forallb p (filter q l) = true.
Proof.
  induction l as [|x r IH]; simpl; [reflexivity|].
  intros H. apply andb_true_iff in H. destruct H as [Hx Hr].
  destruct (q x); simpl; [rewrite Hx|]; auto.
Qed.

(** The typed enhancer and the typed [validateAndEnhanceResult] are the
    untyped ones on typed values. *)
Lemma enhanceHighlight_of_typed (toLowerCase : jsstring -> jsstring)
  (h : Highlight) :
  Untyped.enhanceHighlight toLowerCase (Untyped.ofHighlight h)
  = Returned (Untyped.ofHighlight (enhanceHighlight toLowerCase h)).
Proof. reflexivity. Qed.

Lemma filterValid_of_typed (conversation : ParsedConversation)
  (hs : list Highlight) :
  Untyped.filterValid (map Untyped.ofHighlight hs) conversation
  = match filterValid hs conversation with
    | Returned kept => Returned (map Untyped.ofHighlight kept)
    | Thrown => Thrown
    end.
Proof.
  induction hs as [|h rest IH]; simpl; [reflexivity|].
  rewrite validateHighlight_of_typed, IH.
  destruct (validateHighlight h conversation) as [[|]|]; [| |reflexivity];
    now destruct (filterValid rest conversation).
Qed.

Lemma enhanceAll_of_typed (toLowerCase : jsstring -> jsstring)
  (hs : list Highlight) :
  Untyped.enhanceAll toLowerCase (map Untyped.ofHighlight hs)
  = Returned (map Untyped.ofHighlight (map (enhanceHighlight toLowerCase) hs)).
Proof.
  induction hs as [|h rest IH]; [reflexivity|].
  cbn [map Untyped.enhanceAll]. rewrite enhanceHighlight_of_typed, IH.
  reflexivity.
Qed.

Lemma validateAndEnhanceResult_of_typed (toLowerCase : jsstring -> jsstring)
  (reply : ParsedReply) (conversation : ParsedConversation) :
  Untyped.validateAndEnhanceResult toLowerCase (Untyped.ofReply reply)
    conversation
  = Untyped.ofCompletion
      (validateAndEnhanceResult toLowerCase reply conversation).
Proof.
  unfold Untyped.validateAndEnhanceResult, validateAndEnhanceResult.
  destruct reply as [[hs|] sm kt ai rs qs]; [|reflexivity].
  cbn [Untyped.ofReply Untyped.reply_highlights reply_highlights option_map].
  rewrite filterValid_of_typed.
  destruct (filterValid hs conversation) as [valid|]; [|reflexivity].
  rewrite enhanceAll_of_typed. reflexivity.
Qed.

(** C6: [validateHighlight] throws on a highlight whose message index is
    0.5.  The index passes both range tests, [messages[0.5]] is no element,
    and the validator reads the content of it.  With the index 0 the same
    highlight is accepted. *)
Theorem validateHighlight_throws_on_half_index :
  Untyped.validateHighlight Untyped.halfIndex
    (parse toLowerCaseASCII todoInput) = Thrown
  /\ Untyped.validateHighlight Untyped.wholeIndex
       (parse toLowerCaseASCII todoInput) = Returned true.
Proof. split; vm_compute; reflexivity. Qed.

(** *** The enhancer *)

Section Enhancer.
Variable toLowerCase : jsstring -> jsstring.

(** The tags [enhanceHighlight] appends; they depend on the content only. *)
Lemma enhanceHighlight_tags (h : Highlight) :
  exists extra,
    tags (enhanceHighlight toLowerCase h) = Set_of (tags h ++ extra)
    /\ forall h', content h' = content h ->
         tags (enhanceHighlight toLowerCase h') = Set_of (tags h' ++ extra).
Proof.
  eexists. split; [reflexivity|].
  intros h' E. unfold enhanceHighlight; simpl. rewrite E. reflexivity.
Qed.

(** C7: enhancement is idempotent: enhancing an enhanced highlight yields the
    same tags and the same confidence score as enhancing it once. *)
Theorem enhanceHighlight_idempotent (h : Highlight) :
  tags (enhanceHighlight toLowerCase (enhanceHighlight toLowerCase h))
  = tags (enhanceHighlight toLowerCase h)
  /\ confidence_score
       (enhanceHighlight toLowerCase (enhanceHighlight toLowerCase h))
     = confidence_score (enhanceHighlight toLowerCase h).
Proof.
  split.
  - destruct (enhanceHighlight_tags h) as (extra & E1 & E2).
    rewrite (E2 (enhanceHighlight toLowerCase h) eq_refl), E1.
    apply Set_of_again. intros x Hx. apply in_or_app. now right.
  - apply Math_min_one_idem.
Qed.

(** C10: [enhanceHighlight] changes the tags and the score only: content,
    category, notes and position come back as they were; every tag of the
    highlight is among the tags of the result; and the score is never
    raised. *)
Theorem enhanceHighlight_frame (h : Highlight) :
  content (enhanceHighlight toLowerCase h) = content h
  /\ category (enhanceHighlight toLowerCase h) = category h
  /\ notes (enhanceHighlight toLowerCase h) = notes h
  /\ position (enhanceHighlight toLowerCase h) = position h
  /\ incl (tags h) (tags (enhanceHighlight toLowerCase h))
  /\ ~ num_lt (confidence_score h) (confidence_score (enhanceHighlight toLowerCase h)).
Proof.
  repeat split.
  - intros t Ht. destruct (enhanceHighlight_tags h) as (extra & E & _).
    rewrite E. apply Set_add_In. split; [|tauto].
    apply in_or_app. now left.
  - apply Math_min_not_above.
Qed.

Lemma enhanceHighlight_score (h : Highlight) :
  confidence_score (enhanceHighlight toLowerCase h)
  = Math_min (confidence_score h) one.
Proof. reflexivity. Qed.

End Enhancer.

(** [enhanceHighlightsWithAI] on a reply it could parse: the highlights of
    the reply, each with its score through [Math.min] with 1.0 and nothing
    else changed. *)
Lemma enhanceHighlightsWithAI_parsed
  (parseHighlights : jsstring -> option (list Highlight))
  (text : jsstring) (enhanced hs : list Highlight) :
  text <> [] -> parseHighlights text = Some enhanced ->
  Forall2 (fun h0 h =>
             confidence_score h = Math_min (confidence_score h0) one
             /\ content h = content h0 /\ category h = category h0
             /\ tags h = tags h0 /\ notes h = notes h0
             /\ position h = position h0)
    enhanced
    (enhanceHighlightsWithAI parseHighlights (Some (ApiReply (Some text))) hs).
Proof.
  intros Ht Hp. unfold enhanceHighlightsWithAI.
  destruct text as [|c t]; [congruence|]. rewrite Hp.
  clear. induction enhanced as [|h r IH]; simpl; constructor; auto.
  repeat split.
Qed.

(** In every other case [enhanceHighlightsWithAI] returns its input. *)
Lemma enhanceHighlightsWithAI_unchanged
  (parseHighlights : jsstring -> option (list Highlight))
  (hs : list Highlight) :
  enhanceHighlightsWithAI parseHighlights None hs = hs
  /\ enhanceHighlightsWithAI parseHighlights (Some ApiError) hs = hs
  /\ enhanceHighlightsWithAI parseHighlights (Some (ApiReply None)) hs = hs
  /\ enhanceHighlightsWithAI parseHighlights (Some (ApiReply (Some []))) hs = hs
  /\ forall text, parseHighlights text = None ->
       enhanceHighlightsWithAI parseHighlights (Some (ApiReply (Some text))) hs
       = hs.
Proof.
  repeat split. intros [|c t] H; [reflexivity|].
  unfold enhanceHighlightsWithAI. now rewrite H.
Qed.

(** The highlights of a result of [validateAndEnhanceResult] are the
    highlights of the reply that the validator accepts, in their order, each
    one enhanced. *)
Lemma Untyped_validateAndEnhanceResult_inv
  (toLowerCase : jsstring -> jsstring) (reply : Untyped.ParsedReply)
  (conversation : ParsedConversation) (result : Untyped.CategorizationResult) :
  Untyped.validateAndEnhanceResult toLowerCase reply conversation
  = Returned result ->
  exists hs,
    Untyped.reply_highlights reply = Some hs
    /\ Forall2 (fun h0 h =>
                  Untyped.enhanceHighlight toLowerCase h0 = Returned h
                  /\ Untyped.confidence_score h
                     = Math_min (Untyped.confidence_score h0) one)
         (filter (Untyped.accepts conversation) hs)
         (Untyped.highlights result).
Proof.
  unfold Untyped.validateAndEnhanceResult.
  destruct (Untyped.reply_highlights reply) as [hs|]; [|discriminate].
  destruct (Untyped.filterValid hs conversation) as [valid|] eqn:V;
    [|discriminate].
  destruct (Untyped.enhanceAll toLowerCase valid) as [es|] eqn:E;
    [|discriminate].
  intros [= <-]. exists hs. split; [reflexivity|].
  cbn [Untyped.highlights].
  apply Untyped_filterValid_inv in V. subst valid.
  apply Untyped_enhanceAll_each in E. revert E.
  generalize (filter (Untyped.accepts conversation) hs) as l.
  intros l E. induction E as [|h e l es He _ IH]; constructor; [|exact IH].
  split; [exact He|]. now apply Untyped_enhanceHighlight_score in He.
Qed.

(** C3, as the code has it.  Every enhancement step takes the minimum of the
    score and 1.0 and does nothing else to it: the result is at most 1.0
    unless the score was NaN, it is never above the score, and it is at
    least 0.0 exactly when the score was, for nothing clamps from below.
    [enhanceHighlight] does so to its highlight.  The highlights of a result
    of [validateAndEnhanceResult] are the highlights of the oracle reply
    that the validator accepts, each one enhanced, so the score of each is
    the minimum of its own former score and 1.0.
    [enhanceHighlightsWithAI] does so to each highlight of a reply it could
    parse, and changes nothing else of it; it returns its input when there
    is no oracle, when the request fails, when the answer has no text or an
    empty one, and when the text does not parse. *)
Theorem score_after_enhancement
  (toLowerCase : jsstring -> jsstring)
  (parseHighlights : jsstring -> option (list Highlight)) :
  (forall score,
     (score = NaN \/ num_le (Math_min score one) one)
     /\ ~ num_lt score (Math_min score one)
     /\ (num_le (Finite 0) (Math_min score one) <-> num_le (Finite 0) score))
  /\ (forall h,
        confidence_score (enhanceHighlight toLowerCase h)
        = Math_min (confidence_score h) one)
  /\ (forall reply conversation result,
        Untyped.validateAndEnhanceResult toLowerCase reply conversation
        = Returned result ->
        exists hs,
          Untyped.reply_highlights reply = Some hs
          /\ Forall2 (fun h0 h =>
                        Untyped.enhanceHighlight toLowerCase h0 = Returned h
                        /\ Untyped.confidence_score h
                           = Math_min (Untyped.confidence_score h0) one)
               (filter (Untyped.accepts conversation) hs)
               (Untyped.highlights result))
  /\ (forall text enhanced hs,
        text <> [] -> parseHighlights text = Some enhanced ->
        Forall2 (fun h0 h =>
                   confidence_score h = Math_min (confidence_score h0) one
                   /\ content h = content h0 /\ category h = category h0
                   /\ tags h = tags h0 /\ notes h = notes h0
                   /\ position h = position h0)
          enhanced
          (enhanceHighlightsWithAI parseHighlights
             (Some (ApiReply (Some text))) hs))
  /\ (forall hs,
        enhanceHighlightsWithAI parseHighlights None hs = hs
        /\ enhanceHighlightsWithAI parseHighlights (Some ApiError) hs = hs
        /\ enhanceHighlightsWithAI parseHighlights (Some (ApiReply None)) hs
           = hs
        /\ enhanceHighlightsWithAI parseHighlights (Some (ApiReply (Some [])))
             hs = hs
        /\ forall text, parseHighlights text = None ->
             enhanceHighlightsWithAI parseHighlights
               (Some (ApiReply (Some text))) hs = hs).
Proof.
  split; [|split; [|split; [|split]]].
  - intros score. split; [apply Math_min_one_le|].
    split; [apply Math_min_not_above | apply Math_min_one_nonneg].
  - intros h. apply enhanceHighlight_score.
  - apply Untyped_validateAndEnhanceResult_inv.
  - apply enhanceHighlightsWithAI_parsed.
  - apply enhanceHighlightsWithAI_unchanged.
Qed.

Lemma score_after_enhancement_witness :
  (exists hs,
     Untyped.reply_highlights (Untyped.replyOf [Untyped.wholeIndex]) = Some hs
     /\ Forall2 (fun h0 h =>
                   Untyped.enhanceHighlight toLowerCaseASCII h0 = Returned h
                   /\ Untyped.confidence_score h
                      = Math_min (Untyped.confidence_score h0) one)
          (filter (Untyped.accepts (parse toLowerCaseASCII todoInput)) hs)
          [ {| Untyped.content := Some (js "Remind me what is left.");
               Untyped.category := insight;
               Untyped.confidence_score := Finite (9 # 10);
               Untyped.tags := Some [js "status"];
               Untyped.notes := None;
               Untyped.position :=
                 Some {| Untyped.messageIndex := Untyped.ofZ 0;
                         Untyped.startChar := Untyped.ofZ 0;
                         Untyped.endChar := Untyped.ofZ 23 |} |} ])
  /\ Forall2 (fun h0 h =>
                confidence_score h = Math_min (confidence_score h0) one
                /\ content h = content h0 /\ category h = category h0
                /\ tags h = tags h0 /\ notes h = notes h0
                /\ position h = position h0)
       [lowScore]
       (enhanceHighlightsWithAI (fun _ => Some [lowScore])
          (Some (ApiReply (Some (js "[ ]")))) [])
  /\ enhanceHighlightsWithAI (fun _ => None)
       (Some (ApiReply (Some (js "no JSON")))) [lowScore] = [lowScore].
Proof.
  split; [|split].
  - refine (proj1 (proj2 (proj2
              (score_after_enhancement toLowerCaseASCII (fun _ => None))))
              (Untyped.replyOf [Untyped.wholeIndex])
              (parse toLowerCaseASCII todoInput)
              {| Untyped.highlights := _; Untyped.summary := _;
                 Untyped.key_topics := _; Untyped.action_items := _;
                 Untyped.resources := _; Untyped.questions := _ |} _).
    vm_compute. reflexivity.
  - apply (proj1 (proj2 (proj2 (proj2
             (score_after_enhancement toLowerCaseASCII
                (fun _ => Some [lowScore])))))).
    + vm_compute. discriminate.
    + reflexivity.
  - apply (proj2 (proj2 (proj2 (proj2
             (proj2 (proj2 (proj2 (proj2
                (score_after_enhancement toLowerCaseASCII (fun _ => None)))))
                [lowScore]))))).
    reflexivity.
Defined.

(** C3, as stated, fails: a highlight that comes with the score -0.5 keeps
    it through the enhancement. *)
Lemma enhanceHighlight_score_below_zero :
  ~ (num_le (Finite 0)
       (confidence_score (enhanceHighlight toLowerCaseASCII lowScore))
     /\ num_le (confidence_score (enhanceHighlight toLowerCaseASCII lowScore))
          one).
Proof.
  intros [H _]. vm_compute in H. apply H. reflexivity.
Qed.

(** *** The fallback summary *)

Lemma filter_role_length (r : Role) (msgs : list ParsedMessage) :
  length (filter (fun m => Role_eqb (role m) r) msgs) = countRole r msgs.
Proof.
  induction msgs as [|m rest IH]; simpl; [reflexivity|].
  destruct (Role_eqb (role m) r); simpl; now rewrite IH.
Qed.

(** C5, as the code has it: the fallback summary is "Conversation about
    <title> with <N> user questions and <M> AI responses.", N and M being
    the numbers of user and of assistant messages. *)
Theorem generateFallbackSummary_format (conversation : ParsedConversation) :
  generateFallbackSummary conversation
  = js "Conversation about " ++ title conversation ++ js " with "
    ++ Number_toString (countRole user (messages conversation))
    ++ js " user questions and "
    ++ Number_toString (countRole assistant (messages conversation))
    ++ js " AI responses.".
Proof.
  unfold generateFallbackSummary. now rewrite !filter_role_length.
Qed.

(** C5, as stated, fails: the summary of the closure transcript is not the
    sentence the specification gives. *)
Lemma generateFallbackSummary_not_spec :
  generateFallbackSummary (parse toLowerCaseASCII closureInput)
  <> specSummary (parse toLowerCaseASCII closureInput).
Proof. vm_compute. discriminate. Qed.

(** *** The format detector *)

Lemma detectSourceIn_cases (entries : list (jsstring * list regex))
  (content : jsstring) :
  detectSourceIn entries content = js "custom"
  \/ In (detectSourceIn entries content) (map fst entries).
Proof.
  induction entries as [|[source patterns] rest IH]; simpl; [now left|].
  destruct (existsb _ patterns); [right; now left|].
  destruct IH as [IH | IH]; [now left | right; now right].
Qed.

Lemma sourceIds_keys : sourceIds = map fst sourcePatterns ++ [js "custom"].
Proof. reflexivity. Qed.

(** C8: [detectSource] is total: on every string it returns one of the five
    identifiers chatgpt, claude, gemini, perplexity and custom, and on the
    empty string it returns custom. *)
Theorem detectSource_total :
  (forall content, In (detectSource content) sourceIds)
  /\ detectSource [] = js "custom".
Proof.
  split; [|vm_compute; reflexivity].
  intros content. unfold detectSource.
  rewrite sourceIds_keys. apply in_or_app.
  destruct (detectSourceIn_cases sourcePatterns content) as [H | H].
  - right. rewrite H. now left.
  - now left.
Qed.

(** *** The fallback extractors *)

Lemma extractCodeBlocks_category (content : jsstring) (i : nat) :
  Forall (fun h => category h = code) (extractCodeBlocks content i).
Proof.
  unfold extractCodeBlocks.
  generalize (execAll false content codeBlockRegex) as ms.
  induction ms as [|m ms IH]; simpl; constructor; [reflexivity | exact IH].
Qed.

Lemma extractActionItems_category (content : jsstring) (i : nat) :
  Forall (fun h => category h = action_item) (extractActionItems content i).
Proof.
  unfold extractActionItems.
  generalize (execAll true content actionItemRegex) as ms.
  induction ms as [|m ms IH]; simpl; [constructor|].
  destruct (match1 content m); simpl; [constructor|]; auto.
Qed.

Lemma extractQuestions_category (content : jsstring) (i : nat) :
  Forall (fun h => category h = question) (extractQuestions content i).
Proof.
  unfold extractQuestions.
  generalize (execAll false content questionRegex) as ms.
  induction ms as [|m ms IH]; simpl; [constructor|].
  destruct (_ && _); simpl; [constructor|]; auto.
Qed.

Lemma extractMessage_categories (message : ParsedMessage) (i : nat) :
  Forall fallbackCategory (extractMessage message i).
Proof.
  unfold extractMessage.
  destruct (Role_eqb (role message) assistant); [|constructor].
  pose proof (extractCodeBlocks_category
                (ConversationParser.content message) i) as C.
  pose proof (extractActionItems_category
                (ConversationParser.content message) i) as A.
  pose proof (extractQuestions_category
                (ConversationParser.content message) i) as Q.
  revert C A Q.
  generalize (extractCodeBlocks (ConversationParser.content message) i) as cs.
  generalize (extractActionItems (ConversationParser.content message) i) as az.
  generalize (extractQuestions (ConversationParser.content message) i) as qs.
  intros qs az cs C A Q. unfold fallbackCategory.
  apply Forall_app; split; [|apply Forall_app; split];
    (eapply Forall_impl; [|eassumption]); simpl; tauto.
Qed.

Lemma extractFrom_categories (msgs : list ParsedMessage) (i : nat) :
  Forall fallbackCategory (extractFrom msgs i).
Proof.
  revert i; induction msgs as [|m rest IH]; intros i; simpl; [constructor|].
  apply Forall_app. split; [apply extractMessage_categories | apply IH].
Qed.

Lemma contentsOf_none (c : Category) (hs : list Highlight) :
  Forall (fun h => category h <> c) hs -> contentsOf c hs = [].
Proof.
  unfold contentsOf. induction 1 as [|h rest H _ IH]; simpl; [reflexivity|].
  destruct (Category_eqb (category h) c) eqn:E; [|exact IH].
  exfalso. apply H. destruct (category h), c; simpl in E; congruence.
Qed.

(** C9: without an oracle every highlight has the category code,
    action_item or question; so the resources of a fallback result are
    empty, and it holds no insight, resource or other highlight. *)
Theorem fallback_categories (toLowerCase : jsstring -> jsstring)
  (conversation : ParsedConversation) :
  Forall (fun h => category h = code \/ category h = action_item
                   \/ category h = question)
    (highlights (fallbackCategorization toLowerCase conversation))
  /\ resources (fallbackCategorization toLowerCase conversation) = []
  /\ Forall (fun h => category h <> insight /\ category h <> resource
                      /\ category h <> other)
       (highlights (fallbackCategorization toLowerCase conversation)).
Proof.
  simpl. pose proof (extractFrom_categories (messages conversation) 0) as H.
  split; [exact H|]. split.
  - apply contentsOf_none. eapply Forall_impl; [|exact H].
    intros h [E | [E | E]]; rewrite E; discriminate.
  - eapply Forall_impl; [|exact H].
    intros h [E | [E | E]]; rewrite E; repeat split; discriminate.
Qed.

(** *** Oracle failures *)

(** C4: when the request to the oracle fails, or its reply carries no text
    or text that is not JSON, [categorizeConversation] returns what
    [fallbackCategorization] returns for the conversation; and whatever the
    oracle does, the call returns and throws nothing. *)
Theorem oracle_failure_falls_back
  (toLowerCase : jsstring -> jsstring)
  (JSON_parse : jsstring -> option ParsedReply)
  (conversation : ParsedConversation) :
  (forall outcome,
     oracleFails JSON_parse outcome ->
     categorizeConversation toLowerCase JSON_parse (Some outcome) conversation
     = Returned (fallbackCategorization toLowerCase conversation))
  /\ (forall openai, exists result,
        categorizeConversation toLowerCase JSON_parse openai conversation
        = Returned result).
Proof.
  split.
  - intros outcome [-> | [-> | (text & -> & E)]]; simpl; try reflexivity.
    destruct text as [|c t]; [reflexivity|]. now rewrite E.
  - intros [[|[[|c t]|]]|]; simpl; eauto.
    destruct (JSON_parse (c :: t)) as [result|]; eauto.
    destruct (validateAndEnhanceResult toLowerCase result conversation); eauto.
Qed.

Lemma oracle_failure_falls_back_witness :
  categorizeConversation toLowerCaseASCII (fun _ => None)
    (Some (ApiReply (Some (js "Sorry, I cannot help with that."))))
    (parse toLowerCaseASCII closureInput)
  = Returned (fallbackCategorization toLowerCaseASCII
                (parse toLowerCaseASCII closureInput)).
Proof.
  apply (proj1 (oracle_failure_falls_back toLowerCaseASCII (fun _ => None)
                  (parse toLowerCaseASCII closureInput))).
  right. right. eexists. split; reflexivity.
Defined.

(** *** Round-trip position integrity *)

Lemma validateHighlight_accepts (h : Highlight) (conversation : ParsedConversation) :
  validateHighlight h conversation = Returned true -> roundTrip conversation h.
Proof.
  unfold validateHighlight, roundTrip.
  destruct (Z.ltb_spec (messageIndex (position h)) 0) as [Hi | Hi]; simpl;
    [discriminate|].
  destruct (_ >=? _)%Z; [discriminate|].
  destruct (nth_error _ _) as [message|]; [|discriminate].
  destruct (_ || _); [discriminate|].
  intros H. injection H as H. apply str_eqb_eq in H.
  exists message. auto.
Qed.

Lemma filterValid_sound (conversation : ParsedConversation)
  (hs kept : list Highlight) :
  filterValid hs conversation = Returned kept ->
  Forall (roundTrip conversation) kept.
Proof.
  revert kept; induction hs as [|h rest IH]; intros kept H; simpl in H.
  - injection H as <-. constructor.
  - destruct (validateHighlight h conversation) as [keep|] eqn:V; [|discriminate].
    destruct (filterValid rest conversation) as [kept'|]; [|discriminate].
    injection H as <-. specialize (IH kept' eq_refl).
    destruct keep; [|exact IH].
    constructor; [now apply validateHighlight_accepts | exact IH].
Qed.

Lemma roundTrip_enhance (toLowerCase : jsstring -> jsstring)
  (conversation : ParsedConversation) (h : Highlight) :
  roundTrip conversation h ->
  roundTrip conversation (enhanceHighlight toLowerCase h).
Proof. intros H. exact H. Qed.

Lemma extractCodeBlocks_spans (text : jsstring) (i : nat) :
  Forall (spansText text i) (extractCodeBlocks text i).
Proof.
  unfold extractCodeBlocks.
  generalize (execAll false text codeBlockRegex) as ms.
  induction ms as [|m ms IH]; simpl; constructor; [|exact IH].
  split; [reflexivity|]. simpl. unfold match0. now rewrite substring_slice.
Qed.

Lemma extractQuestions_spans (text : jsstring) (i : nat) :
  Forall (spansText text i) (extractQuestions text i).
Proof.
  unfold extractQuestions.
  generalize (execAll false text questionRegex) as ms.
  induction ms as [|m ms IH]; simpl; [constructor|].
  destruct (_ && _); simpl; [|exact IH].
  constructor; [|exact IH].
  split; [reflexivity|]. simpl. unfold match0.
  now rewrite substring_slice, trim_idem.
Qed.

Lemma extractMessage_spans (message : ParsedMessage) (i : nat) :
  Forall (fun h => category h = code \/ category h = question ->
                   spansText (ConversationParser.content message) i h)
    (extractMessage message i).
Proof.
  unfold extractMessage.
  destruct (Role_eqb (role message) assistant); [|constructor].
  pose proof (extractCodeBlocks_spans (ConversationParser.content message) i) as C.
  pose proof (extractActionItems_category
                (ConversationParser.content message) i) as A.
  pose proof (extractQuestions_spans (ConversationParser.content message) i) as Q.
  revert C A Q.
  generalize (extractCodeBlocks (ConversationParser.content message) i) as cs.
  generalize (extractActionItems (ConversationParser.content message) i) as az.
  generalize (extractQuestions (ConversationParser.content message) i) as qs.
  intros qs az cs C A Q.
  apply Forall_app; split; [|apply Forall_app; split];
    (eapply Forall_impl; [|eassumption]); simpl; auto.
  intros h E [K | K]; congruence.
Qed.

Lemma extractFrom_spans (msgs : list ParsedMessage) (k : nat) :
  Forall (fun h => category h = code \/ category h = question ->
                   exists j message,
                     nth_error msgs j = Some message
                     /\ spansText (ConversationParser.content message) (k + j) h)
    (extractFrom msgs k).
Proof.
  revert k; induction msgs as [|m rest IH]; intros k; simpl; [constructor|].
  apply Forall_app; split.
  - eapply Forall_impl; [|apply extractMessage_spans].
    intros h H K. exists 0, m. rewrite Nat.add_0_r. auto.
  - eapply Forall_impl; [|apply (IH (S k))].
    intros h H K. destruct (H K) as (j & message & Hj & Hs).
    exists (S j), message. rewrite Nat.add_succ_r. auto.
Qed.

Lemma validateAndEnhanceResult_roundTrip
  (toLowerCase : jsstring -> jsstring) (conversation : ParsedConversation)
  (reply : ParsedReply) (result : CategorizationResult) :
  validateAndEnhanceResult toLowerCase reply conversation = Returned result ->
  Forall (roundTrip conversation) (highlights result).
Proof.
  intros H. unfold validateAndEnhanceResult in H.
  destruct (reply_highlights reply) as [hs|]; [|discriminate].
  destruct (filterValid hs conversation) as [valid|] eqn:V; [|discriminate].
  injection H as <-. simpl. apply filterValid_sound in V.
  apply Forall_forall. intros h Hh. apply in_map_iff in Hh.
  destruct Hh as (h0 & <- & Hh0). apply roundTrip_enhance.
  revert h0 Hh0. now apply Forall_forall.
Qed.

(** Where round-trip position integrity holds: a result of
    [categorizeConversation] is the fallback result, or it was built from an
    oracle reply and each of its highlights satisfies round-trip position
    integrity; and in a fallback result every code and every question
    highlight satisfies it. *)
Theorem roundTrip_where_validated
  (toLowerCase : jsstring -> jsstring)
  (JSON_parse : jsstring -> option ParsedReply)
  (conversation : ParsedConversation) :
  (forall openai result,
     categorizeConversation toLowerCase JSON_parse openai conversation
     = Returned result ->
     result = fallbackCategorization toLowerCase conversation
     \/ Forall (roundTrip conversation) (highlights result))
  /\ Forall (fun h => category h = code \/ category h = question ->
                      roundTrip conversation h)
       (highlights (fallbackCategorization toLowerCase conversation)).
Proof.
  split.
  - intros openai result H. unfold categorizeConversation in H.
    destruct openai as [[|[[|c t]|]]|];
      try (injection H as <-; now left).
    destruct (JSON_parse (c :: t)) as [reply|];
      [|injection H as <-; now left].
    destruct (validateAndEnhanceResult toLowerCase reply conversation)
      as [r|] eqn:V; injection H as <-; [|now left].
    right. eapply validateAndEnhanceResult_roundTrip. exact V.
  - simpl. eapply Forall_impl; [|apply extractFrom_spans].
    intros h H K. destruct (H K) as (j & message & Hj & Hi & Ht).
    exists message. simpl in Hi. rewrite Hi, Nat2Z.id.
    repeat split; [lia | exact Hj | exact Ht].
Qed.

Lemma roundTrip_where_validated_witness :
  todoResult = fallbackCategorization toLowerCaseASCII
                 (parse toLowerCaseASCII todoInput)
  \/ Forall (roundTrip (parse toLowerCaseASCII todoInput))
       (highlights todoResult).
Proof.
  apply (proj1 (roundTrip_where_validated toLowerCaseASCII
                  (fun _ => Some todoReply)
                  (parse toLowerCaseASCII todoInput))
           (Some (ApiReply (Some (js "{ }"))))).
  vm_compute. reflexivity.
Defined.

(** C1: round-trip position integrity fails on the fallback path.  In the
    fallback result of the transcript [todoInput] the action item has the
    content "read more." and the offsets 18 and 35 of the whole match, line
    break and marker included, so that the text between its offsets,
    trimmed, is "TODO: read more."; [validateHighlight] itself rejects the
    highlight. *)
Theorem roundTrip_fails_for_action_items :
  exists h,
    In h (highlights (fallbackCategorization toLowerCaseASCII
                        (parse toLowerCaseASCII todoInput)))
    /\ content h = js "read more."
    /\ category h = action_item
    /\ position h = {| messageIndex := 1; startChar := 18; endChar := 35 |}
    /\ (exists message,
          nth_error (messages (parse toLowerCaseASCII todoInput)) 1
          = Some message
          /\ trim (substring (ConversationParser.content message) 18 35)
             = js "TODO: read more.")
    /\ ~ roundTrip (parse toLowerCaseASCII todoInput) h
    /\ validateHighlight h (parse toLowerCaseASCII todoInput)
       = Returned false.
Proof.
  eexists. split; [vm_compute; left; reflexivity|].
  split; [reflexivity|]. split; [reflexivity|]. split; [reflexivity|].
  split; [|split].
  - eexists. split; vm_compute; reflexivity.
  - intros (message & _ & Hm & Ht). vm_compute in Hm. injection Hm as <-.
    vm_compute in Ht. discriminate.
  - vm_compute. reflexivity.
Qed.

(** *** The closure scenario *)

(** C2, as the code has it: the closure transcript is read as two messages,
    a user's and an assistant's; without an oracle it yields no highlight at
    all, since the user's message is not scanned and the assistant's TODO
    does not start a line; the key topics are "General Discussion". *)
Theorem closure_scenario
  (toLowerCase : jsstring -> jsstring)
  (JSON_parse : jsstring -> option ParsedReply) :
  lowersASCII toLowerCase ->
  messages (parse toLowerCase closureInput)
  = [ {| role := user; ConversationParser.content := js "What is a closure?" |};
      {| role := assistant;
         ConversationParser.content :=
           js "A closure is a function bundled with its lexical scope. TODO: read more." |} ]
  /\ categorizeConversation toLowerCase JSON_parse None
       (parse toLowerCase closureInput)
     = Returned
         {| highlights := [];
            summary :=
              js "Conversation about What is a closure? with 1 user questions and 1 AI responses.";
            key_topics := [js "General Discussion"];
            action_items := [];
            resources := [];
            questions := [] |}.
Proof.
  intros L.
  assert (M : messages (parse toLowerCase closureInput)
    = [ {| role := user; ConversationParser.content := js "What is a closure?" |};
        {| role := assistant;
           ConversationParser.content :=
             js "A closure is a function bundled with its lexical scope. TODO: read more." |} ])
    by (vm_compute; reflexivity).
  split; [exact M|].
  unfold categorizeConversation, fallbackCategorization. f_equal.
  assert (T : extractKeyTopics toLowerCase (parse toLowerCase closureInput)
              = [js "General Discussion"]).
  { unfold extractKeyTopics. rewrite M. rewrite L by (vm_compute; reflexivity).
    vm_compute. reflexivity. }
  rewrite T, M. vm_compute. reflexivity.
Qed.

Lemma closure_scenario_witness :
  categorizeConversation toLowerCaseASCII (fun _ => None) None
    (parse toLowerCaseASCII closureInput)
  = Returned
      {| highlights := [];
         summary :=
           js "Conversation about What is a closure? with 1 user questions and 1 AI responses.";
         key_topics := [js "General Discussion"];
         action_items := [];
         resources := [];
         questions := [] |}.
Proof.
  apply (proj2 (closure_scenario toLowerCaseASCII (fun _ => None)
                  (fun s _ => eq_refl))).
Defined.

(** C2, as stated, fails: the fallback result of the closure transcript has
    neither the question nor the action item the scenario expects. *)
Lemma closure_scenario_not_spec :
  ~ closureScenario (parse toLowerCaseASCII closureInput)
      (fallbackCategorization toLowerCaseASCII
         (parse toLowerCaseASCII closureInput)).
Proof.
  intros (_ & Q & _). vm_compute in Q. discriminate.
Qed.

(* ===================================================================== *)
(** ** Further properties *)
(* ===================================================================== *)

(** *** What the matcher finds is a match *)

Section MatchesFacts.
Variable ignoreCase : bool.
Variable input : jsstring.

Lemma Matches_Star_trans (g : bool) (a : regex) (x y z : mstate) :
  Matches ignoreCase input (Star g a) x y ->
  Matches ignoreCase input (Star g a) y z ->
  Matches ignoreCase input (Star g a) x z.
Proof.
  intros H. remember (Star g a) as r eqn:E. revert E z.
  induction H; intros E w Hw; try discriminate.
  - exact Hw.
  - injection E as -> ->. eapply Matches_Star_more; [eassumption|].
    now apply IHMatches2.
Qed.

(** Whatever the continuation accepted was reached through a match of the
    pattern. *)
Lemma rmatch_Matches (r : regex) :
  forall k x z,
    rmatch ignoreCase input r k x = Some z ->
    exists y, k y = Some z /\ Matches ignoreCase input r x y.
Proof.
  induction r as [|c|p|a IHa b IHb|a IHa b IHb|g a IHa|a IHa| |];
    intros k x z H; simpl in H.
  - exists x. split; [exact H | constructor].
  - destruct (nth_error input (endIndex x)) as [d|] eqn:E; [|discriminate].
    destruct (N.eqb _ _) eqn:C; [|discriminate]. apply N.eqb_eq in C.
    eexists. split; [exact H|]. econstructor; eassumption.
  - destruct (nth_error input (endIndex x)) as [d|] eqn:E; [|discriminate].
    destruct (p d) eqn:C; [|discriminate].
    eexists. split; [exact H|]. econstructor; eassumption.
  - apply IHa in H. destruct H as (y & H & Ma).
    apply IHb in H. destruct H as (y' & H & Mb).
    exists y'. split; [exact H|]. econstructor; eassumption.
  - unfold orElse in H. destruct (rmatch ignoreCase input a k x) eqn:E.
    + injection H as <-. apply IHa in E. destruct E as (y & E & M).
      exists y. split; [exact E|]. now apply Matches_Alt_left.
    + apply IHb in H. destruct H as (y & H & M).
      exists y. split; [exact H|]. now apply Matches_Alt_right.
  - eapply (starLoop_closed
              (fun x y => Matches ignoreCase input (Star g a) x y));
      [| | |exact H].
    + intros x'. constructor.
    + intros x' y' z'. apply Matches_Star_trans.
    + intros k' x' z' M. apply IHa in M. destruct M as (y & M & Ma).
      exists y. split; [exact M|].
      eapply Matches_Star_more; [exact Ma | constructor].
  - apply IHa in H. destruct H as (y & H & M).
    eexists. split; [exact H|]. now constructor.
  - destruct (endIndex x =? 0) eqn:E; [|discriminate]. apply Nat.eqb_eq in E.
    exists x. split; [exact H | now constructor].
  - destruct (length input <=? endIndex x) eqn:E; [|discriminate].
    apply Nat.leb_le in E.
    exists x. split; [exact H | now constructor].
Qed.

End MatchesFacts.

(** *** Slices of the input *)

Lemma skipn_nth_error (s : jsstring) (i : nat) (d : char) :
  nth_error s i = Some d -> skipn i s = d :: skipn (S i) s.
Proof.
  revert i; induction s as [|c t IH]; intros [|i] H; simpl in *;
    try discriminate.
  - now injection H as ->.
  - now apply IH.
Qed.

Lemma slice_empty (s : jsstring) (i : nat) : slice s i i = [].
Proof. unfold slice. now rewrite Nat.sub_diag. Qed.

Lemma slice_cons (s : jsstring) (i k : nat) (d : char) :
  nth_error s i = Some d -> i < k -> slice s i k = d :: slice s (S i) k.
Proof.
  intros H L. unfold slice. rewrite (skipn_nth_error s i d H).
  replace (k - i) with (S (k - S i)) by lia. reflexivity.
Qed.

Lemma firstn_plus (a b : nat) (l : jsstring) :
  firstn (a + b) l = firstn a l ++ firstn b (skipn a l).
Proof.
  revert l; induction a as [|a IH]; intros [|c l]; simpl;
    try reflexivity.
  - now rewrite firstn_nil.
  - now rewrite IH.
Qed.

Lemma slice_app (s : jsstring) (i j k : nat) :
  i <= j -> j <= k -> slice s i k = slice s i j ++ slice s j k.
Proof.
  intros L1 L2. unfold slice.
  replace (k - i) with ((j - i) + (k - j)) by lia.
  rewrite firstn_plus. f_equal.
  rewrite skipn_skipn. now replace (j - i + i) with j by lia.
Qed.

Lemma slice_length (s : jsstring) (i k : nat) :
  i <= k -> k <= length s -> length (slice s i k) = k - i.
Proof.
  intros L1 L2. unfold slice. rewrite length_firstn, length_skipn. lia.
Qed.

Lemma canonicalize_false (s : jsstring) : map (canonicalize false) s = s.
Proof. induction s as [|c t IH]; simpl; [reflexivity | now rewrite IH]. Qed.

Section MatchesShape.
Variable ignoreCase : bool.
Variable input : jsstring.

(** A match goes forward and stays inside the input. *)
Lemma Matches_bounds (r : regex) (x y : mstate) :
  Matches ignoreCase input r x y ->
  endIndex x <= endIndex y
  /\ (endIndex x <= length input -> endIndex y <= length input).
Proof.
  induction 1; simpl; try lia;
    match goal with
    | H : nth_error _ _ = Some _ |- _ =>
        assert (endIndex x < length input)
          by (apply nth_error_Some; congruence); lia
    end.
Qed.

(** A match of a run of pattern characters reads them, up to case when the
    pattern ignores it, and leaves the capture alone. *)
Lemma Matches_lit (s : jsstring) :
  forall x y,
    Matches ignoreCase input (lit s) x y ->
    capture y = capture x
    /\ endIndex y = endIndex x + length s
    /\ map (canonicalize ignoreCase) (slice input (endIndex x) (endIndex y))
       = map (canonicalize ignoreCase) s.
Proof.
  induction s as [|c t IH]; intros x y H; simpl in H.
  - inversion H; subst. rewrite slice_empty. simpl. auto with arith.
  - inversion H as [| | |a b x0 y1 z0 Hc Ht| | | | | | |]; subst.
    inversion Hc as [|c0 d x0 Hn Hd| | | | | | | | |]; subst.
    apply IH in Ht. simpl in Ht. destruct Ht as (C & E & M).
    split; [exact C|]. split; [simpl; lia|].
    rewrite (slice_cons input (endIndex x) (endIndex y) d Hn) by lia.
    simpl. now rewrite M, Hd.
Qed.

(** A match of a starred class reads code units of the class only. *)
Lemma Matches_Star_Class (g : bool) (p : char -> bool) (x y : mstate) :
  Matches ignoreCase input (Star g (Class p)) x y ->
  capture y = capture x
  /\ endIndex x <= endIndex y
  /\ forallb p (slice input (endIndex x) (endIndex y)) = true.
Proof.
  intros H. remember (Star g (Class p)) as r eqn:E. revert E.
  induction H as [| | | | | |g0 a0 x0|g0 a0 x0 y0 z0 Ha _ Hs IH| | |];
    intros E; try discriminate.
  - rewrite slice_empty. auto.
  - injection E as -> ->. specialize (IH eq_refl).
    destruct IH as (C & L & F).
    inversion Ha as [| |p0 d x1 Hn Hp| | | | | | | |]; subst. simpl in *.
    split; [exact C|]. split; [lia|].
    rewrite (slice_cons input (endIndex x0) (endIndex z0) d Hn) by lia.
    simpl. now rewrite Hp, F.
Qed.

Variable pattern : regex.

(** What [exec] returns is a match of the pattern from [index] to the end it
    reports, with the capture it reports. *)
Lemma exec_Matches (lastIndex : nat) (m : MatchResult) :
  exec ignoreCase input pattern lastIndex = Some m ->
  Matches ignoreCase input pattern
    {| endIndex := index m; capture := None |}
    {| endIndex := matchEnd m; capture := group1 m |}.
Proof.
  unfold exec. destruct (length input <? lastIndex); [discriminate|].
  generalize (length input - lastIndex) as n. intros n. revert lastIndex.
  induction n as [|n IHn]; intros i H; simpl in H;
    destruct (rmatch ignoreCase input pattern Some _) as [y|] eqn:E;
    try discriminate; try (now apply IHn in H);
    injection H as <-; apply rmatch_Matches in E;
    destruct E as (y' & E & M); injection E as ->; simpl;
    now destruct y.
Qed.

End MatchesShape.

(** *** Substrings and trimming *)

Lemma startsWith_app (p r : jsstring) : startsWith (p ++ r) p = true.
Proof.
  induction p as [|c p IH]; simpl; [destruct r; reflexivity|].
  now rewrite N.eqb_refl, IH.
Qed.

Lemma startsWith_split (s p : jsstring) :
  startsWith s p = true -> exists r, s = p ++ r.
Proof.
  revert s; induction p as [|c p IH]; intros s H.
  - now exists s.
  - destruct s as [|d s]; [discriminate|]. simpl in H.
    apply andb_true_iff in H. destruct H as [E H]. apply N.eqb_eq in E.
    subst. destruct (IH s H) as (r & ->). now exists r.
Qed.

Lemma includes_unfold (s p : jsstring) :
  includes s p
  = startsWith s p || match s with [] => false | _ :: t => includes t p end.
Proof. destruct s; reflexivity. Qed.

Lemma includes_app (a p b : jsstring) : includes (a ++ p ++ b) p = true.
Proof.
  induction a as [|c a IH].
  - rewrite includes_unfold. simpl app. now rewrite startsWith_app.
  - change (includes ((c :: a) ++ p ++ b) p)
      with (startsWith (c :: a ++ p ++ b) p || includes (a ++ p ++ b) p).
    rewrite IH. apply orb_true_r.
Qed.

Lemma includes_split (s p : jsstring) :
  includes s p = true -> exists a b, s = a ++ p ++ b.
Proof.
  induction s as [|c s IH]; rewrite includes_unfold; intros H.
  - rewrite orb_false_r in H. apply startsWith_split in H.
    destruct H as (r & ->). now exists [], r.
  - apply orb_true_iff in H. destruct H as [H | H].
    + apply startsWith_split in H. destruct H as (r & ->). now exists [], r.
    + destruct (IH H) as (a & b & ->). now exists (c :: a), b.
Qed.

(** Text found in a slice is found in the whole. *)
Lemma includes_slice (s p rest : jsstring) (i k : nat) :
  slice s i k = p ++ rest -> includes s p = true.
Proof.
  intros H. rewrite <- (firstn_skipn i s).
  rewrite <- (firstn_skipn (k - i) (skipn i s)).
  unfold slice in H. rewrite H, <- app_assoc. apply includes_app.
Qed.

Lemma trimEnd_ink (s : jsstring) (q : char) :
  isWhiteSpace q = false -> trimEnd (s ++ [q]) = s ++ [q].
Proof.
  intros W. induction s as [|c t IH]; simpl; [now rewrite W|].
  rewrite IH. now destruct (t ++ [q]) eqn:E; [destruct t; discriminate|].
Qed.

Lemma trimStart_ink (s : jsstring) (q : char) :
  isWhiteSpace q = false -> trimStart (s ++ [q]) = trimStart s ++ [q].
Proof.
  intros W. induction s as [|c t IH]; simpl; [now rewrite W|].
  now destruct (isWhiteSpace c).
Qed.

Lemma trimStart_forallb (f : char -> bool) (s : jsstring) :
  forallb f s = true -> forallb f (trimStart s) = true.
Proof.
  induction s as [|c t IH]; simpl; [reflexivity|]. intros H.
  destruct (isWhiteSpace c); [|exact H].
  apply andb_true_iff in H. now apply IH.
Qed.

(** *** What the extractors pick *)

(** The offsets [span] records are those of the match, which is not empty
    and lies inside the text. *)
Lemma span_geometry (ignoreCase : bool) (text : jsstring) (pattern : regex)
  (lastIndex i : nat) (m : MatchResult) :
  0 < minLength pattern ->
  exec ignoreCase text pattern lastIndex = Some m ->
  span i text m
  = {| messageIndex := Z.of_nat i;
       startChar := Z.of_nat (index m);
       endChar := Z.of_nat (matchEnd m) |}
  /\ index m < matchEnd m <= length text.
Proof.
  intros Pos H. apply exec_bounds in H. destruct H as (_ & L1 & L2).
  split; [|lia]. unfold span, match0. rewrite slice_length by lia.
  do 2 f_equal. lia.
Qed.

Section MatchesInversion.
Variable ignoreCase : bool.
Variable input : jsstring.

Lemma Matches_Seq_inv (a b : regex) (x z : mstate) :
  Matches ignoreCase input (Seq a b) x z ->
  exists y, Matches ignoreCase input a x y /\ Matches ignoreCase input b y z.
Proof. intros H. inversion H; subst. eauto. Qed.

Lemma Matches_Alt_inv (a b : regex) (x y : mstate) :
  Matches ignoreCase input (Alt a b) x y ->
  Matches ignoreCase input a x y \/ Matches ignoreCase input b x y.
Proof. intros H. inversion H; subst; auto. Qed.

Lemma Matches_Empty_inv (x y : mstate) :
  Matches ignoreCase input Empty x y -> y = x.
Proof. intros H. now inversion H. Qed.

Lemma Matches_Char_inv (c : char) (x y : mstate) :
  Matches ignoreCase input (Char c) x y ->
  exists d,
    nth_error input (endIndex x) = Some d
    /\ canonicalize ignoreCase c = canonicalize ignoreCase d
    /\ y = {| endIndex := S (endIndex x); capture := capture x |}.
Proof. intros H. inversion H; subst. eauto. Qed.

Lemma Matches_Group_inv (a : regex) (x z : mstate) :
  Matches ignoreCase input (Group a) x z ->
  exists y,
    Matches ignoreCase input a x y
    /\ z = {| endIndex := endIndex y;
              capture := Some (endIndex x, endIndex y) |}.
Proof. intros H. inversion H; subst. eauto. Qed.

Lemma Matches_Bol_inv (x y : mstate) :
  Matches ignoreCase input Bol x y -> y = x /\ endIndex x = 0.
Proof. intros H. now inversion H. Qed.

Lemma Matches_Eol_inv (x y : mstate) :
  Matches ignoreCase input Eol x y -> y = x /\ length input <= endIndex x.
Proof. intros H. now inversion H. Qed.

End MatchesInversion.

Lemma includes_slice_mid (s a p rest : jsstring) (i k : nat) :
  slice s i k = a ++ p ++ rest -> includes s p = true.
Proof.
  intros H. rewrite <- (firstn_skipn i s).
  rewrite <- (firstn_skipn (k - i) (skipn i s)).
  unfold slice in H. rewrite H, <- !app_assoc.
  rewrite (app_assoc (firstn i s) a). apply includes_app.
Qed.

(** Every match of the code pattern is a fence, anything, and a fence. *)
Lemma codeBlockRegex_shape (text : jsstring) (lastIndex : nat) (m : MatchResult) :
  exec false text codeBlockRegex lastIndex = Some m ->
  exists middle, match0 text m = fence ++ middle ++ fence.
Proof.
  intros H. apply exec_Matches in H. unfold codeBlockRegex in H.
  apply Matches_Seq_inv in H. destruct H as (y1 & H1 & H).
  apply Matches_Seq_inv in H. destruct H as (y2 & H2 & H3).
  pose proof (Matches_bounds _ _ _ _ _ H2) as (B2 & _).
  apply Matches_lit in H1. destruct H1 as (_ & E1 & S1).
  apply Matches_lit in H3. destruct H3 as (_ & E3 & S3).
  rewrite !canonicalize_false in S1, S3. simpl endIndex in *.
  exists (slice text (endIndex y1) (endIndex y2)).
  unfold match0.
  rewrite (slice_app text (index m) (endIndex y1) (matchEnd m)) by lia.
  rewrite (slice_app text (endIndex y1) (endIndex y2) (matchEnd m)) by lia.
  now rewrite S1, S3.
Qed.

(** X1: every code highlight of [extractCodeBlocks] is a fenced block: its
    content opens and closes with three backticks; and a text without three
    backticks in a row has no code highlight. *)
Theorem extractCodeBlocks_fenced (text : jsstring) (i : nat) :
  Forall (fun h => exists middle, content h = fence ++ middle ++ fence)
    (extractCodeBlocks text i)
  /\ (extractCodeBlocks text i = [] \/ includes text fence = true).
Proof.
  assert (F : Forall (fun m => exists middle,
                        match0 text m = fence ++ middle ++ fence)
                (execAll false text codeBlockRegex)).
  { apply execLoop_Forall. intros lastIndex m. apply codeBlockRegex_shape. }
  unfold extractCodeBlocks. revert F.
  generalize (execAll false text codeBlockRegex) as ms. intros ms F. split.
  - induction F as [|m ms Hm _ IH]; simpl; constructor; [exact Hm | exact IH].
  - destruct F as [|m ms (middle & Hm) _]; [now left|]. right.
    unfold match0 in Hm. eapply includes_slice. exact Hm.
Qed.

(** Every match of the question pattern is a run free of sentence
    terminators and then a question mark. *)
Lemma questionRegex_shape (text : jsstring) (lastIndex : nat) (m : MatchResult) :
  exec false text questionRegex lastIndex = Some m ->
  exists body,
    match0 text m = body ++ js "?"
    /\ forallb (fun c => negb (existsb (N.eqb c) (js ".!?"))) body = true.
Proof.
  intros H. apply exec_Matches in H. unfold questionRegex in H.
  apply Matches_Seq_inv in H. destruct H as (y & H1 & H2).
  unfold noneOf in H1. apply Matches_Star_Class in H1.
  destruct H1 as (_ & B & F).
  apply Matches_Char_inv in H2. destruct H2 as (d & Hn & Hd & E).
  injection E as E _. simpl endIndex in *.
  unfold canonicalize in Hd. simpl in Hd. subst d.
  exists (slice text (index m) (endIndex y)). split; [|exact F].
  unfold match0.
  rewrite (slice_app text (index m) (endIndex y) (matchEnd m)) by lia.
  f_equal. rewrite E.
  rewrite (slice_cons text (endIndex y) (S (endIndex y)) _ Hn) by lia.
  now rewrite slice_empty.
Qed.

(** X2: every question highlight of [extractQuestions] has a content that
    ends in its only question mark, holds no full stop and no exclamation
    mark, is trimmed, and is more than 10 and less than 200 code units
    long; and a text without a question mark has no question highlight. *)
Theorem extractQuestions_sentences (text : jsstring) (i : nat) :
  Forall (fun h =>
            (exists t,
               content h = t ++ js "?"
               /\ forallb (fun c => negb (existsb (N.eqb c) (js ".!?"))) t
                  = true)
            /\ trim (content h) = content h
            /\ 10 < length (content h) < 200)
    (extractQuestions text i)
  /\ (extractQuestions text i = [] \/ includes text (js "?") = true).
Proof.
  assert (F : Forall (fun m => exists body,
                        match0 text m = body ++ js "?"
                        /\ forallb (fun c => negb (existsb (N.eqb c) (js ".!?")))
                             body = true)
                (execAll false text questionRegex)).
  { apply execLoop_Forall. intros lastIndex m. apply questionRegex_shape. }
  unfold extractQuestions. revert F.
  generalize (execAll false text questionRegex) as ms. intros ms F.
  split.
  2:{ destruct F as [|m ms (body & Hm & _) _]; [now left|]. right.
      unfold match0 in Hm. rewrite <- (app_nil_r (js "?")) in Hm.
      eapply includes_slice_mid. exact Hm. }
  induction F as [|m ms (body & Hm & Hb) _ IH]; simpl; [constructor|].
  destruct (10 <? length (trim (match0 text m))) eqn:L1; simpl; [|exact IH].
  destruct (length (trim (match0 text m)) <? 200) eqn:L2; simpl; [|exact IH].
  constructor; [|exact IH]. simpl.
  apply Nat.ltb_lt in L1, L2. split; [|split; [apply trim_idem | lia]].
  exists (trimStart body). split; [|now apply trimStart_forallb].
  rewrite Hm. unfold trim. change (js "?") with [63%N].
  rewrite trimStart_ink by reflexivity. now apply trimEnd_ink.
Qed.

Lemma Matches_Class_inv (ignoreCase : bool) (input : jsstring)
  (p : char -> bool) (x y : mstate) :
  Matches ignoreCase input (Class p) x y ->
  exists d,
    nth_error input (endIndex x) = Some d /\ p d = true
    /\ y = {| endIndex := S (endIndex x); capture := capture x |}.
Proof. intros H. inversion H; subst. eauto. Qed.

Lemma lowercase_not_space (d : char) :
  (97 <= d <= 122)%N -> isWhiteSpace d = false.
Proof.
  intros L. apply not_true_is_false. intros H. unfold isWhiteSpace in H.
  apply existsb_exists in H. destruct H as (w & Hin & E).
  apply N.eqb_eq in E. subst w. simpl in Hin.
  repeat (destruct Hin as [<- | Hin]; [lia|]). contradiction.
Qed.

(** A code unit that matches, case ignored, a pattern character which is
    not white space is not white space either. *)
Lemma canonicalize_ink (k d : char) :
  isWhiteSpace (canonicalize true k) = false ->
  canonicalize true k = canonicalize true d ->
  isWhiteSpace d = false.
Proof.
  intros W E. unfold canonicalize at 2 in E. simpl in E.
  destruct (N.leb 97 d && N.leb d 122) eqn:L.
  - apply andb_true_iff in L. destruct L as [L1 L2].
    apply N.leb_le in L1, L2. now apply lowercase_not_space.
  - now rewrite <- E.
Qed.

(** A match of a run of pattern characters that starts with a letter
    starts on ink. *)
Lemma Matches_lit_ink (input : jsstring) (k : char) (kw : jsstring)
  (x y : mstate) :
  isWhiteSpace (canonicalize true k) = false ->
  Matches true input (lit (k :: kw)) x y ->
  endIndex x < endIndex y
  /\ exists d, nth_error input (endIndex x) = Some d
               /\ isWhiteSpace d = false.
Proof.
  intros W H. simpl in H. apply Matches_Seq_inv in H.
  destruct H as (y1 & H1 & H2).
  apply Matches_bounds in H2. destruct H2 as (B & _).
  apply Matches_Char_inv in H1. destruct H1 as (d & Hn & Hd & ->).
  simpl in B. split; [lia|]. exists d. split; [exact Hn|].
  eapply canonicalize_ink; eassumption.
Qed.

Lemma hasInk_slice (s : jsstring) (i p k : nat) (d : char) :
  i <= p -> p < k -> nth_error s p = Some d -> isWhiteSpace d = false ->
  hasInk (slice s i k) = true.
Proof.
  intros L1 L2 Hn W. rewrite (slice_app s i p k) by lia.
  rewrite (slice_cons s p k d Hn L2). unfold hasInk.
  rewrite existsb_app. simpl. rewrite W. simpl. apply orb_true_r.
Qed.

(** Every match of the action-item pattern is a stretch with ink in it (the
    marker), the capture, which is a non-empty piece of one line, and then
    nothing or the newline. *)
Lemma actionItemRegex_shape (text : jsstring) (lastIndex : nat)
  (m : MatchResult) :
  exec true text actionItemRegex lastIndex = Some m ->
  exists pre captured post,
    match1 text m = Some captured
    /\ match0 text m = pre ++ captured ++ post
    /\ hasInk pre = true
    /\ captured <> []
    /\ oneLine captured = true
    /\ forallb isWhiteSpace post = true.
Proof.
  intros H. apply exec_Matches in H. unfold actionItemRegex in H.
  apply Matches_Seq_inv in H. destruct H as (y1 & H1 & H).
  apply Matches_Seq_inv in H. destruct H as (y2 & H2 & H).
  apply Matches_Seq_inv in H. destruct H as (y3 & H3 & H).
  apply Matches_Seq_inv in H. destruct H as (y4 & H4 & H).
  apply Matches_Seq_inv in H. destruct H as (y5 & H5 & H).
  apply Matches_Seq_inv in H. destruct H as (y6 & H6 & H7).
  apply Matches_bounds in H1, H2, H4, H5. simpl endIndex in *.
  destruct H1 as (B1 & _), H2 as (B2 & _), H4 as (B4 & _), H5 as (B5 & _).
  (* the marker *)
  assert (K : endIndex y2 < endIndex y3
              /\ exists d, nth_error text (endIndex y2) = Some d
                           /\ isWhiteSpace d = false).
  { unfold alts in H3.
    repeat (apply Matches_Alt_inv in H3; destruct H3 as [H3 | H3];
            [apply Matches_lit_ink in H3; [exact H3 | reflexivity]|]).
    apply Matches_lit_ink in H3; [exact H3 | reflexivity]. }
  destruct K as (B3 & d & Hd & Wd).
  (* the capture *)
  apply Matches_Group_inv in H6. destruct H6 as (y' & H6 & ->).
  unfold Plus in H6. apply Matches_Seq_inv in H6.
  destruct H6 as (yd & Hdot & Hrest).
  unfold dot in Hdot, Hrest.
  apply Matches_Class_inv in Hdot. destruct Hdot as (c & Hc & Pc & ->).
  apply Matches_Star_Class in Hrest. simpl endIndex in Hrest.
  destruct Hrest as (_ & B6 & F6).
  (* the end of the line *)
  assert (E : capture
                {| endIndex := matchEnd m; capture := group1 m |}
              = Some (endIndex y5, endIndex y')
              /\ endIndex y' <= matchEnd m
              /\ forallb isWhiteSpace (slice text (endIndex y') (matchEnd m))
                 = true).
  { apply Matches_Alt_inv in H7. destruct H7 as [H7 | H7].
    - apply Matches_Char_inv in H7. destruct H7 as (n & Hn & Cn & E).
      injection E as E1 E2. simpl in *. rewrite E1, E2.
      split; [reflexivity|]. split; [lia|].
      rewrite (slice_cons text (endIndex y') (S (endIndex y')) n Hn) by lia.
      rewrite slice_empty. simpl. rewrite andb_true_r.
      unfold canonicalize in Cn. simpl in Cn.
      destruct (N.leb 97 n && N.leb n 122) eqn:L.
      + apply andb_true_iff in L. destruct L as [L1 L2].
        apply N.leb_le in L1, L2. unfold newline in Cn. lia.
      + now rewrite <- Cn.
    - apply Matches_Eol_inv in H7. destruct H7 as (E & _).
      injection E as E1 E2. simpl in *. rewrite E1, E2.
      split; [reflexivity|]. split; [lia|]. now rewrite slice_empty. }
  simpl capture in E. destruct E as (G & B7 & F7).
  exists (slice text (index m) (endIndex y5)),
         (slice text (endIndex y5) (endIndex y')),
         (slice text (endIndex y') (matchEnd m)).
  split; [unfold match1; now rewrite G|].
  split.
  { unfold match0.
    rewrite (slice_app text (index m) (endIndex y5) (matchEnd m)) by lia.
    now rewrite (slice_app text (endIndex y5) (endIndex y') (matchEnd m))
      by lia. }
  split; [apply (hasInk_slice text _ (endIndex y2) _ d); auto; lia|].
  rewrite (slice_cons text (endIndex y5) (endIndex y') c Hc) by lia.
  split; [discriminate|]. split; [|exact F7].
  unfold oneLine. simpl. now rewrite Pc, F6.
Qed.

(** *** Trimming a line with its marker *)

Lemma trimEnd_length_app (a b : jsstring) :
  length (trimEnd b) <= length (trimEnd (a ++ b)).
Proof.
  induction a as [|c a IH]; simpl; [lia|].
  destruct (trimEnd (a ++ b)); simpl in *; lia.
Qed.

Lemma trimEnd_space (w : jsstring) :
  forallb isWhiteSpace w = true -> trimEnd w = [].
Proof.
  induction w as [|c w IH]; simpl; [reflexivity|]. intros H.
  apply andb_true_iff in H. destruct H as [Hc Hw].
  now rewrite (IH Hw), Hc.
Qed.

Lemma trimEnd_app_space (s w : jsstring) :
  forallb isWhiteSpace w = true -> trimEnd (s ++ w) = trimEnd s.
Proof.
  intros H. induction s as [|c s IH]; simpl.
  - now apply trimEnd_space.
  - now rewrite IH.
Qed.

Lemma trimStart_suffix (s : jsstring) : exists w, s = w ++ trimStart s.
Proof.
  induction s as [|c s (w & IH)]; simpl; [now exists []|].
  destruct (isWhiteSpace c); [|now exists []].
  exists (c :: w). simpl. now rewrite <- IH.
Qed.

Lemma trimStart_ink_app (pre rest : jsstring) :
  hasInk pre = true ->
  exists c t, isWhiteSpace c = false /\ trimStart (pre ++ rest) = c :: t ++ rest.
Proof.
  induction pre as [|c pre IH]; simpl; [discriminate|]. intros H.
  destruct (isWhiteSpace c) eqn:W; simpl in H.
  - now apply IH.
  - now exists c, pre.
Qed.

Lemma trimEnd_length_ink (c : char) (u : jsstring) :
  isWhiteSpace c = false -> length (trimEnd (c :: u)) = S (length (trimEnd u)).
Proof.
  intros W. simpl. destruct (trimEnd u); simpl; [now rewrite W | reflexivity].
Qed.

(** A line with its marker is longer, trimmed, than what follows the marker,
    trimmed. *)
Lemma trim_marker_longer (pre captured post : jsstring) :
  hasInk pre = true -> forallb isWhiteSpace post = true ->
  length (trim captured) < length (trim (pre ++ captured ++ post)).
Proof.
  intros I W. unfold trim at 2.
  destruct (trimStart_ink_app pre (captured ++ post) I) as (c & t & Wc & ->).
  rewrite trimEnd_length_ink by exact Wc.
  apply Nat.lt_succ_r.
  eapply Nat.le_trans; [|apply trimEnd_length_app].
  rewrite trimEnd_app_space by exact W.
  unfold trim. destruct (trimStart_suffix captured) as (w & E).
  rewrite E at 2. apply trimEnd_length_app.
Qed.

Lemma trimStart_oneLine (s : jsstring) :
  oneLine s = true -> oneLine (trimStart s) = true.
Proof. apply trimStart_forallb. Qed.

Lemma trimEnd_forallb (f : char -> bool) (s : jsstring) :
  forallb f s = true -> forallb f (trimEnd s) = true.
Proof.
  induction s as [|c t IH]; simpl; [reflexivity|]. intros H.
  apply andb_true_iff in H. destruct H as [Hc Ht]. specialize (IH Ht).
  destruct (trimEnd t) as [|d r].
  - destruct (isWhiteSpace c); simpl; [reflexivity | now rewrite Hc].
  - simpl in *. now rewrite Hc.
Qed.

(** *** Every highlight of the fallback is placed *)

Lemma execAll_exec (ignoreCase : bool) (text : jsstring) (pattern : regex) :
  Forall (fun m => exists lastIndex,
            exec ignoreCase text pattern lastIndex = Some m)
    (execAll ignoreCase text pattern).
Proof. apply execLoop_Forall. intros lastIndex m H. now exists lastIndex. Qed.

Lemma placed_span (ignoreCase : bool) (text : jsstring) (pattern : regex)
  (lastIndex i : nat) (m : MatchResult) (h : Highlight) :
  0 < minLength pattern ->
  exec ignoreCase text pattern lastIndex = Some m ->
  position h = span i text m ->
  str_eqb (trim (match0 text m)) (trim (content h))
  = negb (Category_eqb (category h) action_item) ->
  placed text i h.
Proof.
  intros Pos H Hp Hc. unfold placed.
  destruct (span_geometry ignoreCase text pattern lastIndex i m Pos H)
    as (_ & L).
  rewrite <- Hc, Hp. unfold span; simpl.
  unfold match0. rewrite substring_slice.
  apply exec_bounds in H. destruct H as (_ & L1 & L2).
  rewrite slice_length by lia. repeat split; try lia.
Qed.

Lemma extractCodeBlocks_placed (text : jsstring) (i : nat) :
  Forall (placed text i) (extractCodeBlocks text i).
Proof.
  unfold extractCodeBlocks.
  pose proof (execAll_exec false text codeBlockRegex) as F. revert F.
  generalize (execAll false text codeBlockRegex) as ms. intros ms F.
  induction F as [|m ms (li & Hm) _ IH]; simpl; constructor; [|exact IH].
  apply (placed_span false text codeBlockRegex li i m);
    [simpl; lia | exact Hm | reflexivity|].
  simpl. apply str_eqb_refl.
Qed.

Lemma extractQuestions_placed (text : jsstring) (i : nat) :
  Forall (placed text i) (extractQuestions text i).
Proof.
  unfold extractQuestions.
  pose proof (execAll_exec false text questionRegex) as F. revert F.
  generalize (execAll false text questionRegex) as ms. intros ms F.
  induction F as [|m ms (li & Hm) _ IH]; simpl; [constructor|].
  destruct (_ && _); simpl; [|exact IH]. constructor; [|exact IH].
  apply (placed_span false text questionRegex li i m);
    [simpl; lia | exact Hm | reflexivity|].
  simpl. rewrite trim_idem. apply str_eqb_refl.
Qed.

Lemma extractActionItems_placed (text : jsstring) (i : nat) :
  Forall (placed text i) (extractActionItems text i).
Proof.
  unfold extractActionItems.
  pose proof (execAll_exec true text actionItemRegex) as F. revert F.
  generalize (execAll true text actionItemRegex) as ms. intros ms F.
  induction F as [|m ms (li & Hm) _ IH]; simpl; [constructor|].
  destruct (actionItemRegex_shape text li m Hm)
    as (pre & captured & post & H1 & H0 & I & _ & _ & W).
  rewrite H1. simpl. constructor; [|exact IH].
  apply (placed_span true text actionItemRegex li i m);
    [simpl; lia | exact Hm | reflexivity|].
  simpl. rewrite trim_idem, H0. apply str_eqb_neq. intros E.
  pose proof (trim_marker_longer pre captured post I W) as L.
  rewrite E in L. lia.
Qed.

Lemma Role_eqb_eq (a b : Role) : Role_eqb a b = true <-> a = b.
Proof. destruct a, b; simpl; split; congruence. Qed.

(** What holds of the output of each extractor holds of the highlights of a
    message, which is then an assistant's. *)
Lemma extractMessage_Forall (Q : jsstring -> nat -> Highlight -> Prop)
  (message : ParsedMessage) (i : nat) :
  (forall text i, Forall (Q text i) (extractCodeBlocks text i)) ->
  (forall text i, Forall (Q text i) (extractActionItems text i)) ->
  (forall text i, Forall (Q text i) (extractQuestions text i)) ->
  Forall (fun h => role message = assistant
                   /\ Q (ConversationParser.content message) i h)
    (extractMessage message i).
Proof.
  intros C A Qs. unfold extractMessage.
  destruct (Role_eqb (role message) assistant) eqn:R; [|constructor].
  apply Role_eqb_eq in R.
  specialize (C (ConversationParser.content message) i).
  specialize (A (ConversationParser.content message) i).
  specialize (Qs (ConversationParser.content message) i).
  revert C A Qs.
  generalize (extractCodeBlocks (ConversationParser.content message) i) as cs.
  generalize (extractActionItems (ConversationParser.content message) i) as az.
  generalize (extractQuestions (ConversationParser.content message) i) as qs.
  intros qs az cs C A Qs.
  apply Forall_app; split; [|apply Forall_app; split];
    (eapply Forall_impl; [|eassumption]); simpl; auto.
Qed.

(** What holds of the highlights of each message holds of those of the
    conversation, at the index of their message. *)
Lemma extractFrom_Forall (P : nat -> ParsedMessage -> Highlight -> Prop)
  (msgs : list ParsedMessage) (k : nat) :
  (forall message i, Forall (P i message) (extractMessage message i)) ->
  Forall (fun h => exists j message,
            nth_error msgs j = Some message /\ P (k + j) message h)
    (extractFrom msgs k).
Proof.
  intros H. revert k; induction msgs as [|m rest IH]; intros k; simpl;
    [constructor|].
  apply Forall_app; split.
  - eapply Forall_impl; [|apply H].
    intros h Hh. exists 0, m. rewrite Nat.add_0_r. auto.
  - eapply Forall_impl; [|apply (IH (S k))].
    intros h (j & message & Hj & Hp).
    exists (S j), message. rewrite Nat.add_succ_r. auto.
Qed.

Lemma fallback_placed (toLowerCase : jsstring -> jsstring)
  (conversation : ParsedConversation) :
  Forall (fun h => exists j message,
            nth_error (messages conversation) j = Some message
            /\ role message = assistant
            /\ placed (ConversationParser.content message) j h)
    (highlights (fallbackCategorization toLowerCase conversation)).
Proof.
  simpl.
  eapply Forall_impl;
    [|apply (extractFrom_Forall
               (fun i message h =>
                  role message = assistant
                  /\ placed (ConversationParser.content message) i h)
               (messages conversation) 0)].
  { intros h (j & message & H). now exists j, message. }
  intros message i. apply (extractMessage_Forall placed).
  - apply extractCodeBlocks_placed.
  - apply extractActionItems_placed.
  - apply extractQuestions_placed.
Qed.

(** X3: every highlight of a fallback result points at an assistant message
    of the conversation, and its offsets bound a non-empty stretch of that
    message's text: 0 <= startChar < endChar <= length of the text. *)
Theorem fallback_highlights_in_assistant_text
  (toLowerCase : jsstring -> jsstring) (conversation : ParsedConversation) :
  Forall (fun h =>
            exists message,
              (0 <= messageIndex (position h))%Z
              /\ nth_error (messages conversation)
                   (Z.to_nat (messageIndex (position h))) = Some message
              /\ role message = assistant
              /\ (0 <= startChar (position h) < endChar (position h))%Z
              /\ (endChar (position h)
                  <= Z.of_nat (length (ConversationParser.content message)))%Z)
    (highlights (fallbackCategorization toLowerCase conversation)).
Proof.
  eapply Forall_impl; [|apply fallback_placed].
  intros h (j & message & Hj & R & I & G & L & _).
  exists message. rewrite I, Nat2Z.id. repeat split; try tauto; lia.
Qed.

(** X4: the validator returns true on every code and every question
    highlight of a fallback result, and false on every action item: the
    text between the offsets of an action item, trimmed, starts with the
    marker, which its content leaves out. *)
Theorem validateHighlight_on_fallback
  (toLowerCase : jsstring -> jsstring) (conversation : ParsedConversation) :
  Forall (fun h =>
            validateHighlight h conversation
            = Returned (negb (Category_eqb (category h) action_item)))
    (highlights (fallbackCategorization toLowerCase conversation)).
Proof.
  eapply Forall_impl; [|apply fallback_placed].
  intros h (j & message & Hj & R & I & G & L & E).
  unfold validateHighlight. rewrite I, Nat2Z.id, Hj.
  assert (Hlen : j < length (messages conversation))
    by (apply nth_error_Some; congruence).
  replace (Z.of_nat j <? 0)%Z with false by (symmetry; apply Z.ltb_ge; lia).
  replace (Z.of_nat j >=? Z.of_nat (length (messages conversation)))%Z
    with false by (symmetry; rewrite Z.geb_leb; apply Z.leb_gt; lia).
  simpl.
  replace (startChar (position h) <? 0)%Z with false
    by (symmetry; apply Z.ltb_ge; lia).
  replace (endChar (position h)
           >? Z.of_nat (length (ConversationParser.content message)))%Z
    with false by (symmetry; rewrite Z.gtb_ltb; apply Z.ltb_ge; lia).
  replace (startChar (position h) >=? endChar (position h))%Z with false
    by (symmetry; rewrite Z.geb_leb; apply Z.leb_gt; lia).
  simpl. now rewrite E.
Qed.

(** X5: a conversation without assistant messages has no highlight, no
    action item and no question in its fallback result. *)
Theorem fallback_without_assistant
  (toLowerCase : jsstring -> jsstring) (conversation : ParsedConversation) :
  forallb (fun m => negb (Role_eqb (role m) assistant))
    (messages conversation) = true ->
  highlights (fallbackCategorization toLowerCase conversation) = []
  /\ action_items (fallbackCategorization toLowerCase conversation) = []
  /\ questions (fallbackCategorization toLowerCase conversation) = [].
Proof.
  intros H.
  assert (E : forall msgs k,
             forallb (fun m => negb (Role_eqb (role m) assistant)) msgs = true ->
             extractFrom msgs k = []).
  { induction msgs as [|m rest IH]; intros k F; simpl; [reflexivity|].
    simpl in F. apply andb_true_iff in F. destruct F as [Fm Fr].
    rewrite (IH (S k) Fr). unfold extractMessage.
    apply negb_true_iff in Fm. now rewrite Fm. }
  simpl. rewrite (E _ 0 H). auto.
Qed.

Lemma fallback_without_assistant_witness :
  highlights (fallbackCategorization toLowerCaseASCII
                (parse toLowerCaseASCII (js "User: What is a closure?"))) = [].
Proof.
  apply (proj1 (fallback_without_assistant toLowerCaseASCII
                  (parse toLowerCaseASCII (js "User: What is a closure?"))
                  eq_refl)).
Defined.

(** A match of the action-item pattern starts where the text starts or on a
    newline. *)
Lemma actionItemRegex_start (text : jsstring) (lastIndex : nat)
  (m : MatchResult) :
  exec true text actionItemRegex lastIndex = Some m ->
  index m = 0 \/ nth_error text (index m) = Some newline.
Proof.
  intros H. apply exec_Matches in H. unfold actionItemRegex in H.
  apply Matches_Seq_inv in H. destruct H as (y1 & H1 & _).
  apply Matches_Alt_inv in H1. destruct H1 as [H1 | H1].
  - apply Matches_Bol_inv in H1. now left.
  - apply Matches_Char_inv in H1. destruct H1 as (d & Hn & Hd & _).
    right. simpl endIndex in Hn. rewrite Hn. f_equal.
    unfold canonicalize in Hd. simpl in Hd.
    destruct (N.leb 97 d && N.leb d 122) eqn:L; [|now symmetry].
    apply andb_true_iff in L. destruct L as [L1 L2].
    apply N.leb_le in L1, L2. unfold newline in *. lia.
Qed.

(** X6: every action item of [extractActionItems] comes from a line of its
    own: its span starts where the text starts or on the newline before the
    line, and its content is a trimmed piece of a single line (trimming it
    again changes nothing, and it holds no line terminator). *)
Theorem extractActionItems_single_line (text : jsstring) (i : nat) :
  Forall (fun h => (startChar (position h) = 0%Z
                    \/ nth_error text (Z.to_nat (startChar (position h)))
                       = Some newline)
                   /\ trim (content h) = content h
                   /\ oneLine (content h) = true)
    (extractActionItems text i).
Proof.
  unfold extractActionItems.
  pose proof (execAll_exec true text actionItemRegex) as F. revert F.
  generalize (execAll true text actionItemRegex) as ms. intros ms F.
  induction F as [|m ms (li & Hm) _ IH]; simpl; [constructor|].
  destruct (actionItemRegex_shape text li m Hm)
    as (pre & captured & post & H1 & _ & _ & _ & L & _).
  rewrite H1. simpl. constructor; [|exact IH]. simpl.
  split; [|split; [apply trim_idem|]].
  - rewrite Nat2Z.id.
    destruct (actionItemRegex_start text li m Hm) as [-> | S]; auto.
  - unfold trim, oneLine. apply trimEnd_forallb. now apply trimStart_forallb.
Qed.

(** *** The order of the highlights *)

Lemma StronglySorted_app {A : Type} (R : A -> A -> Prop) (l1 l2 : list A) :
  StronglySorted R l1 -> StronglySorted R l2 ->
  (forall a b, In a l1 -> In b l2 -> R a b) ->
  StronglySorted R (l1 ++ l2).
Proof.
  intros S1 S2 H. induction S1 as [|a l1 S1 IH F]; simpl; [exact S2|].
  constructor.
  - apply IH. intros x y Hx Hy. apply H; [now right | exact Hy].
  - apply Forall_app. split; [exact F|].
    apply Forall_forall. intros y Hy. apply H; [now left | exact Hy].
Qed.

Lemma StronglySorted_flat_map {A B : Type} (R : A -> A -> Prop)
  (R' : B -> B -> Prop) (f : A -> list B) (l : list A) :
  StronglySorted R l ->
  (forall a, In a l -> StronglySorted R' (f a)) ->
  (forall a b x y, In a l -> In b l -> R a b ->
                   In x (f a) -> In y (f b) -> R' x y) ->
  StronglySorted R' (flat_map f l).
Proof.
  intros S. induction S as [|a l S IH F]; intros H1 H2; simpl; [constructor|].
  apply StronglySorted_app.
  - apply H1. now left.
  - apply IH.
    + intros b Hb. apply H1. now right.
    + intros b c x y Hb Hc. apply H2; now right.
  - intros x y Hx Hy. apply in_flat_map in Hy. destruct Hy as (b & Hb & Hy).
    assert (Rab : R a b) by (rewrite Forall_forall in F; now apply F).
    apply (H2 a b x y); auto; [now left | now right].
Qed.

Lemma map_flat_map {A B : Type} (f : A -> B) (l : list A) :
  map f l = flat_map (fun a => [f a]) l.
Proof. induction l as [|a l IH]; simpl; [reflexivity | now rewrite IH]. Qed.

(** The matches the loop visits follow one another in the text. *)
Lemma execLoop_sorted (ignoreCase : bool) (text : jsstring) (pattern : regex)
  (fuel lastIndex : nat) :
  StronglySorted (fun a b => matchEnd a <= index b)
    (execLoop ignoreCase text pattern fuel lastIndex)
  /\ Forall (fun m => lastIndex <= index m)
       (execLoop ignoreCase text pattern fuel lastIndex).
Proof.
  revert lastIndex; induction fuel as [|fuel IH]; intros lastIndex; simpl;
    [split; constructor|].
  destruct (exec ignoreCase text pattern lastIndex) as [m|] eqn:E;
    [|split; constructor].
  destruct (IH (matchEnd m)) as (S & F).
  apply exec_bounds in E. destruct E as (L1 & L2 & _).
  split; constructor; auto.
  eapply Forall_impl; [|exact F]. simpl. intros m' Hm'. lia.
Qed.

(** The spans made of the matches of one loop do not overlap. *)
Lemma spans_sorted (ignoreCase : bool) (text : jsstring) (pattern : regex)
  (i : nat) (f : MatchResult -> list Highlight) :
  0 < minLength pattern ->
  (forall m h, In h (f m) -> position h = span i text m) ->
  (forall m, length (f m) <= 1) ->
  StronglySorted
    (fun a b => (endChar (position a) <= startChar (position b))%Z)
    (flat_map f (execAll ignoreCase text pattern)).
Proof.
  intros Pos Hp H1.
  pose proof (execAll_exec ignoreCase text pattern) as X.
  destruct (execLoop_sorted ignoreCase text pattern (S (length text)) 0)
    as (S & _).
  fold (execAll ignoreCase text pattern) in S. revert X S.
  generalize (execAll ignoreCase text pattern) as ms. intros ms X S.
  apply (StronglySorted_flat_map (fun a b => matchEnd a <= index b)).
  - exact S.
  - intros m _. specialize (H1 m). destruct (f m) as [|h [|h' t]];
      simpl in H1; [constructor | repeat constructor | lia].
  - intros a b x y Ha Hb R Hx Hy.
    rewrite (Hp a x Hx), (Hp b y Hy).
    rewrite Forall_forall in X.
    destruct (X a Ha) as (la & Ea). destruct (X b Hb) as (lb & Eb).
    destruct (span_geometry ignoreCase text pattern la i a Pos Ea) as (-> & _).
    destruct (span_geometry ignoreCase text pattern lb i b Pos Eb) as (-> & _).
    simpl. lia.
Qed.

(** X7: the highlights each extractor takes from a text come in the order of
    the text and do not overlap: each one ends before the next one
    starts. *)
Theorem extractor_spans_disjoint (text : jsstring) (i : nat) :
  StronglySorted
    (fun a b => (endChar (position a) <= startChar (position b))%Z)
    (extractCodeBlocks text i)
  /\ StronglySorted
       (fun a b => (endChar (position a) <= startChar (position b))%Z)
       (extractActionItems text i)
  /\ StronglySorted
       (fun a b => (endChar (position a) <= startChar (position b))%Z)
       (extractQuestions text i).
Proof.
  split; [|split].
  - unfold extractCodeBlocks. rewrite map_flat_map.
    apply (spans_sorted false text codeBlockRegex i);
      [simpl; lia | |intros m; simpl; lia].
    intros m h [<- | []]. reflexivity.
  - unfold extractActionItems.
    apply (spans_sorted true text actionItemRegex i); [simpl; lia | |].
    + intros m h Hh. destruct (match1 text m); [|contradiction].
      destruct Hh as [<- | []]. reflexivity.
    + intros m. destruct (match1 text m); simpl; lia.
  - unfold extractQuestions.
    apply (spans_sorted false text questionRegex i); [simpl; lia | |].
    + intros m h Hh. destruct (_ && _); [|contradiction].
      destruct Hh as [<- | []]. reflexivity.
    + intros m. destruct (_ && _); simpl; lia.
Qed.

Lemma StronglySorted_same {A : Type} (R : A -> A -> Prop) (l : list A) :
  (forall a b, In a l -> In b l -> R a b) -> StronglySorted R l.
Proof.
  induction l as [|a l IH]; intros H; constructor.
  - apply IH. intros x y Hx Hy. apply H; now right.
  - apply Forall_forall. intros y Hy. apply H; [now left | now right].
Qed.

Lemma extractFrom_sorted (msgs : list ParsedMessage) (k : nat) :
  StronglySorted
    (fun a b => (messageIndex (position a) <= messageIndex (position b))%Z)
    (extractFrom msgs k)
  /\ Forall (fun h => (Z.of_nat k <= messageIndex (position h))%Z)
       (extractFrom msgs k).
Proof.
  revert k; induction msgs as [|m rest IH]; intros k; simpl;
    [split; constructor|].
  destruct (IH (S k)) as (S & F).
  pose proof (extractMessage_Forall placed m k
                extractCodeBlocks_placed extractActionItems_placed
                extractQuestions_placed) as P.
  revert P. generalize (extractMessage m k) as hs. intros hs P.
  rewrite Forall_forall in P, F. split.
  - apply StronglySorted_app; [|exact S|].
    + apply StronglySorted_same. intros a b Ha Hb.
      destruct (P a Ha) as (_ & -> & _). destruct (P b Hb) as (_ & -> & _).
      lia.
    + intros a b Ha Hb. destruct (P a Ha) as (_ & -> & _).
      specialize (F b Hb). simpl in F. lia.
  - apply Forall_app. split; apply Forall_forall; intros h Hh.
    + destruct (P h Hh) as (_ & -> & _). lia.
    + specialize (F h Hh). simpl in F. lia.
Qed.

(** X8: the highlights of a fallback result come in the order of the
    messages: their message indices never decrease along the list. *)
Theorem fallback_highlights_in_message_order
  (toLowerCase : jsstring -> jsstring) (conversation : ParsedConversation) :
  StronglySorted
    (fun a b => (messageIndex (position a) <= messageIndex (position b))%Z)
    (highlights (fallbackCategorization toLowerCase conversation)).
Proof. simpl. apply extractFrom_sorted. Qed.

(** *** The tags of an enhanced highlight *)

Lemma Set_add_NoDup (l seen : list jsstring) : NoDup (Set_add seen l).
Proof.
  revert seen; induction l as [|x r IH]; intros seen; simpl; [constructor|].
  destruct (existsb (str_eqb x) seen); [apply IH|].
  constructor; [|apply IH].
  intros H. apply Set_add_In in H. destruct H as (_ & H). apply H. now left.
Qed.

(** X9: the tags of an enhanced highlight hold no tag twice, and they are
    the tags the highlight had together with "code" when its content holds
    three backticks, "link" when it holds "http", "question" when it holds a
    question mark, and "todo" when its lower-cased content holds "todo" or
    "task". *)
Theorem enhanceHighlight_tag_set (toLowerCase : jsstring -> jsstring)
  (h : Highlight) :
  NoDup (tags (enhanceHighlight toLowerCase h))
  /\ forall t,
       In t (tags (enhanceHighlight toLowerCase h))
       <-> In t (tags h)
           \/ (t = js "code" /\ includes (content h) (js "```") = true)
           \/ (t = js "link" /\ includes (content h) (js "http") = true)
           \/ (t = js "question" /\ includes (content h) (js "?") = true)
           \/ (t = js "todo"
               /\ (includes (toLowerCase (content h)) (js "todo")
                   || includes (toLowerCase (content h)) (js "task")) = true).
Proof.
  unfold enhanceHighlight; simpl. split; [apply Set_add_NoDup|].
  intros t. unfold Set_of. rewrite Set_add_In. rewrite !in_app_iff.
  generalize (includes (content h) (js "```")) as b1.
  generalize (includes (content h) (js "http")) as b2.
  generalize (includes (content h) (js "?")) as b3.
  generalize (includes (toLowerCase (content h)) (js "todo")
              || includes (toLowerCase (content h)) (js "task")) as b4.
  intros [|] [|] [|] [|]; simpl; intuition (try congruence; auto).
Qed.

(** *** The oracle path *)

Lemma validateHighlight_returns (h : Highlight)
  (conversation : ParsedConversation) :
  validateHighlight h conversation = Returned (accepts conversation h).
Proof.
  unfold accepts, validateHighlight.
  destruct (Z.ltb_spec (messageIndex (position h)) 0) as [Hi | Hi]; simpl;
    [reflexivity|].
  rewrite Z.geb_leb.
  destruct (Z.leb_spec (Z.of_nat (length (messages conversation)))
              (messageIndex (position h))) as [Hl | Hl]; [reflexivity|].
  destruct (nth_error _ _) as [message|] eqn:E.
  - now destruct (_ || _).
  - apply nth_error_None in E. lia.
Qed.

Lemma filterValid_filter (conversation : ParsedConversation)
  (hs : list Highlight) :
  filterValid hs conversation = Returned (filter (accepts conversation) hs).
Proof.
  induction hs as [|h rest IH]; simpl; [reflexivity|].
  now rewrite validateHighlight_returns, IH.
Qed.

(** X10: [validateAndEnhanceResult] throws when the reply has no
    highlights, and when [validateHighlight] throws on one of them.
    Whenever it returns, its highlights are the highlights of the reply that
    the validator accepts, in their order, each one enhanced: none is added,
    none is reordered.  It does return when every highlight of the reply has
    a content, tags and a position whose message index is an integer. *)
Theorem validateAndEnhanceResult_keeps_valid
  (toLowerCase : jsstring -> jsstring) (reply : Untyped.ParsedReply)
  (conversation : ParsedConversation) :
  (Untyped.reply_highlights reply = None ->
   Untyped.validateAndEnhanceResult toLowerCase reply conversation = Thrown)
  /\ (forall hs h,
        Untyped.reply_highlights reply = Some hs -> In h hs ->
        Untyped.validateHighlight h conversation = Thrown ->
        Untyped.validateAndEnhanceResult toLowerCase reply conversation
        = Thrown)
  /\ (forall hs result,
        Untyped.reply_highlights reply = Some hs ->
        Untyped.validateAndEnhanceResult toLowerCase reply conversation
        = Returned result ->
        Forall2 (fun h0 h =>
                   Untyped.enhanceHighlight toLowerCase h0 = Returned h)
          (filter (Untyped.accepts conversation) hs)
          (Untyped.highlights result))
  /\ (forall hs,
        Untyped.reply_highlights reply = Some hs ->
        forallb Untyped.complete hs = true ->
        exists result,
          Untyped.validateAndEnhanceResult toLowerCase reply conversation
          = Returned result).
Proof.
  split; [|split; [|split]].
  - intros H. unfold Untyped.validateAndEnhanceResult. now rewrite H.
  - intros hs h H Hin Ht. unfold Untyped.validateAndEnhanceResult.
    now rewrite H, (Untyped_filterValid_Thrown conversation hs h Hin Ht).
  - intros hs result H R.
    destruct (Untyped_validateAndEnhanceResult_inv _ _ _ _ R) as (hs' & H' & F).
    rewrite H in H'. injection H' as <-.
    revert F. generalize (filter (Untyped.accepts conversation) hs) as l.
    generalize (Untyped.highlights result) as es.
    intros es l F. induction F as [|h0 h l es [He _] _ IH]; constructor; auto.
  - intros hs H C. unfold Untyped.validateAndEnhanceResult.
    rewrite H, (Untyped_filterValid_complete conversation hs C).
    destruct (Untyped_enhanceAll_complete toLowerCase
                (filter (Untyped.accepts conversation) hs)) as (es & ->);
      [now apply forallb_filter|].
    now eexists.
Qed.

Lemma validateAndEnhanceResult_keeps_valid_witness :
  Untyped.validateAndEnhanceResult toLowerCaseASCII
    (Untyped.replyOf [Untyped.wholeIndex; Untyped.halfIndex])
    (parse toLowerCaseASCII todoInput) = Thrown
  /\ exists result,
       Untyped.validateAndEnhanceResult toLowerCaseASCII
         (Untyped.replyOf [Untyped.wholeIndex])
         (parse toLowerCaseASCII todoInput) = Returned result.
Proof.
  split.
  - apply (proj1 (proj2 (validateAndEnhanceResult_keeps_valid toLowerCaseASCII
             (Untyped.replyOf [Untyped.wholeIndex; Untyped.halfIndex])
             (parse toLowerCaseASCII todoInput)))
             [Untyped.wholeIndex; Untyped.halfIndex] Untyped.halfIndex).
    + reflexivity.
    + simpl. auto.
    + vm_compute. reflexivity.
  - apply (proj2 (proj2 (proj2 (validateAndEnhanceResult_keeps_valid
             toLowerCaseASCII (Untyped.replyOf [Untyped.wholeIndex])
             (parse toLowerCaseASCII todoInput))))
             [Untyped.wholeIndex]).
    + reflexivity.
    + vm_compute. reflexivity.
Defined.

Lemma generateFallbackSummary_not_empty (conversation : ParsedConversation) :
  generateFallbackSummary conversation <> [].
Proof.
  unfold generateFallbackSummary.
  change (js "Conversation about ")
    with (67%N :: js "onversation about ").
  discriminate.
Qed.

(** X11: whatever the oracle does, [categorizeConversation] returns a result
    whose summary is not the empty string.  The summary is the summary of
    the oracle reply when [validateAndEnhanceResult] returns on that reply
    and the reply has a summary that is not empty; it is the fallback
    summary in every other case: without a reply, when
    [validateAndEnhanceResult] throws, and when the summary of the reply is
    missing or empty. *)
Theorem categorizeConversation_summary
  (toLowerCase : jsstring -> jsstring)
  (JSON_parse : jsstring -> option ParsedReply)
  (openai : option Completion) (conversation : ParsedConversation) :
  exists result,
    categorizeConversation toLowerCase JSON_parse openai conversation
    = Returned result
    /\ summary result <> []
    /\ match oracleReply JSON_parse openai with
       | None => summary result = generateFallbackSummary conversation
       | Some reply =>
           (validateAndEnhanceResult toLowerCase reply conversation = Thrown
            \/ reply_summary reply = None \/ reply_summary reply = Some [] ->
            summary result = generateFallbackSummary conversation)
           /\ (forall r s,
                 validateAndEnhanceResult toLowerCase reply conversation
                 = Returned r ->
                 reply_summary reply = Some s -> s <> [] ->
                 summary result = s)
       end.
Proof.
  unfold categorizeConversation, oracleReply.
  destruct openai as [[|[[|c t]|]]|];
    try (eexists; split; [reflexivity|]; split;
         [apply generateFallbackSummary_not_empty | reflexivity]).
  destruct (JSON_parse (c :: t)) as [reply|];
    [|eexists; split; [reflexivity|]; split;
      [apply generateFallbackSummary_not_empty | reflexivity]].
  unfold validateAndEnhanceResult.
  destruct (reply_highlights reply) as [hs|].
  2:{ eexists; split; [reflexivity|]; split;
        [apply generateFallbackSummary_not_empty|].
      split; [reflexivity | discriminate]. }
  rewrite filterValid_filter. eexists. split; [reflexivity|].
  cbn [summary].
  destruct (reply_summary reply) as [[|d s]|].
  - split; [apply generateFallbackSummary_not_empty|].
    split; [reflexivity|]. intros r s _ [= <-] H. now contradiction H.
  - split; [discriminate|]. split.
    + intros [H | [H | H]]; discriminate.
    + now intros r s' _ [= <-] _.
  - split; [apply generateFallbackSummary_not_empty|].
    split; [reflexivity | discriminate].
Qed.

Lemma categorizeConversation_summary_witness :
  exists result,
    categorizeConversation toLowerCaseASCII (fun _ => Some todoReply)
      (Some (ApiReply (Some (js "{ }")))) (parse toLowerCaseASCII todoInput)
    = Returned result
    /\ summary result = js "What is left to do.".
Proof.
  destruct (categorizeConversation_summary toLowerCaseASCII
              (fun _ => Some todoReply) (Some (ApiReply (Some (js "{ }"))))
              (parse toLowerCaseASCII todoInput)) as (result & R & _ & S).
  exists result. split; [exact R|].
  apply (proj2 S todoResult).
  - vm_compute. reflexivity.
  - reflexivity.
  - vm_compute. discriminate.
Defined.

(** *** Topics and tags *)

Lemma distinct_NoDup (l : list jsstring) : distinct l = true -> NoDup l.
Proof.
  induction l as [|x r IH]; simpl; intros H; constructor;
    apply andb_true_iff in H; destruct H as [H1 H2].
  - intros K. apply seen_In in K. rewrite K in H1. discriminate.
  - now apply IH.
Qed.

Lemma amongst_incl (names l : list jsstring) :
  amongst names l = true -> incl l names.
Proof.
  unfold amongst. rewrite forallb_forall. intros H x Hx.
  apply seen_In. now apply H.
Qed.

Lemma names_checked (names l : list jsstring) :
  distinct l && amongst names l = true -> NoDup l /\ incl l names.
Proof.
  intros H. apply andb_true_iff in H. destruct H as [H1 H2].
  split; [now apply distinct_NoDup | now apply amongst_incl].
Qed.

(** X12: the key topics of a fallback result are never empty, name no topic
    twice, and are taken from the six topic names and "General
    Discussion". *)
Theorem extractKeyTopics_named (toLowerCase : jsstring -> jsstring)
  (conversation : ParsedConversation) :
  extractKeyTopics toLowerCase conversation <> []
  /\ NoDup (extractKeyTopics toLowerCase conversation)
  /\ incl (extractKeyTopics toLowerCase conversation) topicNames.
Proof.
  unfold extractKeyTopics.
  generalize (toLowerCase
                (join (js " ")
                   (map ConversationParser.content (messages conversation))))
    as c.
  intros c.
  destruct (includes c (js "react") || includes c (js "frontend"));
  destruct (includes c (js "api") || includes c (js "backend"));
  destruct (includes c (js "database") || includes c (js "sql"));
  destruct (includes c (js "deployment") || includes c (js "docker"));
  destruct (includes c (js "testing") || includes c (js "test"));
  destruct (includes c (js "security") || includes c (js "auth"));
  (split; [discriminate | apply names_checked; vm_compute; reflexivity]).
Qed.

Lemma extractTags_named (toLowerCase : jsstring -> jsstring)
  (content : jsstring) :
  NoDup (extractTags toLowerCase content)
  /\ incl (extractTags toLowerCase content) tagNames.
Proof.
  unfold extractTags.
  generalize (toLowerCase content) as c. intros c.
  destruct (includes c (js "code") || includes content (js "```"));
  destruct (includes c (js "api") || includes c (js "endpoint"));
  destruct (includes c (js "database") || includes c (js "sql"));
  destruct (includes c (js "frontend") || includes c (js "react"));
  destruct (includes c (js "backend") || includes c (js "server"));
  destruct (includes c (js "deployment") || includes c (js "docker"));
  apply names_checked; vm_compute; reflexivity.
Qed.

(** *** The line loops of the parsers *)

Lemma startsWith_In (line p : jsstring) (c : char) :
  existsb (N.eqb c) p = true -> startsWith line p = true -> In c line.
Proof.
  intros Hc H. apply startsWith_split in H. destruct H as (r & ->).
  apply in_or_app. left. apply existsb_exists in Hc.
  destruct Hc as (d & Hd & E). apply N.eqb_eq in E. now subst.
Qed.

(** A role prefix is found only on a line that holds a colon. *)
Lemma prefixOf_colon (ignoreCase : bool) (names : list String.string)
  (line : jsstring) :
  test ignoreCase line (prefixOf names) = true -> In colon line.
Proof.
  unfold test. destruct (exec ignoreCase line (prefixOf names) 0) as [m|] eqn:E;
    [|discriminate].
  intros _. apply exec_Matches in E. unfold prefixOf in E.
  apply Matches_Seq_inv in E. destruct E as (y1 & _ & E).
  apply Matches_Seq_inv in E. destruct E as (y2 & _ & E).
  apply Matches_Char_inv in E. destruct E as (d & Hn & Hd & _).
  apply nth_error_In in Hn. replace colon with d; [exact Hn|].
  unfold canonicalize in Hd. rewrite !andb_false_r in Hd. simpl in Hd.
  destruct (ignoreCase && N.leb 97 d && N.leb d 122) eqn:L.
  - apply andb_true_iff in L. destruct L as [L L2].
    apply andb_true_iff in L. destruct L as [_ L1].
    apply N.leb_le in L1, L2. unfold colon. lia.
  - now symmetry.
Qed.

Lemma lineStep_ChatGPT : lineStep stepChatGPT.
Proof.
  intros st line. unfold stepChatGPT.
  destruct (startsWith line (js "User:")) eqn:E1.
  { right. split; [eapply startsWith_In; [|exact E1]; reflexivity | eauto]. }
  destruct (startsWith line (js "Assistant:") || startsWith line (js "ChatGPT:"))
    eqn:E2.
  { right. split; [|eauto]. apply orb_true_iff in E2.
    destruct E2 as [E2 | E2]; (eapply startsWith_In; [|exact E2]; reflexivity). }
  destruct (startsWith line (js "System:")) eqn:E3.
  { right. split; [eapply startsWith_In; [|exact E3]; reflexivity | eauto]. }
  now left.
Qed.

Lemma lineStep_Claude : lineStep stepClaude.
Proof.
  intros st line. unfold stepClaude.
  destruct (startsWith line (js "Human:")) eqn:E1.
  { right. split; [eapply startsWith_In; [|exact E1]; reflexivity | eauto]. }
  destruct (startsWith line (js "Assistant:") || startsWith line (js "Claude:"))
    eqn:E2.
  { right. split; [|eauto]. apply orb_true_iff in E2.
    destruct E2 as [E2 | E2]; (eapply startsWith_In; [|exact E2]; reflexivity). }
  destruct (startsWith line (js "System:")) eqn:E3.
  { right. split; [eapply startsWith_In; [|exact E3]; reflexivity | eauto]. }
  now left.
Qed.

Lemma lineStep_Gemini : lineStep stepGemini.
Proof.
  intros st line. unfold stepGemini.
  destruct (startsWith line (js "User:")) eqn:E1.
  { right. split; [eapply startsWith_In; [|exact E1]; reflexivity | eauto]. }
  destruct (startsWith line (js "Gemini:") || startsWith line (js "Assistant:"))
    eqn:E2.
  { right. split; [|eauto]. apply orb_true_iff in E2.
    destruct E2 as [E2 | E2]; (eapply startsWith_In; [|exact E2]; reflexivity). }
  now left.
Qed.

Lemma lineStep_Perplexity : lineStep stepPerplexity.
Proof.
  intros st line. unfold stepPerplexity.
  destruct (startsWith line (js "User:")) eqn:E1.
  { right. split; [eapply startsWith_In; [|exact E1]; reflexivity | eauto]. }
  destruct (startsWith line (js "Perplexity:")
            || startsWith line (js "Assistant:")) eqn:E2.
  { right. split; [|eauto]. apply orb_true_iff in E2.
    destruct E2 as [E2 | E2]; (eapply startsWith_In; [|exact E2]; reflexivity). }
  now left.
Qed.

Lemma lineStep_CustomIn (ps : list (Role * regex)) :
  Forall (fun rp => exists names, snd rp = prefixOf names) ps ->
  lineStep (stepCustomIn ps).
Proof.
  intros F st line. induction F as [|[r pattern] ps (names & E) _ IH]; simpl;
    [now left|].
  simpl in E. subst pattern.
  destruct (test true line (prefixOf names)) eqn:T; [|exact IH].
  right. split; [eapply prefixOf_colon; exact T | eauto].
Qed.

Lemma lineStep_Custom : lineStep stepCustom.
Proof.
  apply lineStep_CustomIn. unfold patterns.
  repeat constructor; simpl; eauto.
Qed.

Lemma detectSource_cases (content : jsstring) :
  In (detectSource content) sourceIds.
Proof.
  unfold detectSource. rewrite sourceIds_keys. apply in_or_app.
  destruct (detectSourceIn_cases sourcePatterns content) as [H | H].
  - right. rewrite H. now left.
  - now left.
Qed.

(** [parse] runs the line loop of one of the five parsers, the one named by
    [detectSource], and finishes as all of them do. *)
Lemma parse_finish (toLowerCase : jsstring -> jsstring) (content : jsstring) :
  exists name default step,
    parse toLowerCase content
    = finish toLowerCase name default content
        (fold_left step (lines content) initial)
    /\ lineStep step
    /\ detectSource content = js name
    /\ (length (js default) <? 100) = true
    /\ existsb (N.eqb newline) (js default) = false.
Proof.
  unfold parse.
  destruct (str_eqb (detectSource content) (js "chatgpt")) eqn:E1.
  { apply str_eqb_eq in E1.
    exists "chatgpt"%string, "ChatGPT Conversation"%string, stepChatGPT.
    repeat split; auto using lineStep_ChatGPT. }
  destruct (str_eqb (detectSource content) (js "claude")) eqn:E2.
  { apply str_eqb_eq in E2.
    exists "claude"%string, "Claude Conversation"%string, stepClaude.
    repeat split; auto using lineStep_Claude. }
  destruct (str_eqb (detectSource content) (js "gemini")) eqn:E3.
  { apply str_eqb_eq in E3.
    exists "gemini"%string, "Gemini Conversation"%string, stepGemini.
    repeat split; auto using lineStep_Gemini. }
  destruct (str_eqb (detectSource content) (js "perplexity")) eqn:E4.
  { apply str_eqb_eq in E4.
    exists "perplexity"%string, "Perplexity Conversation"%string,
           stepPerplexity.
    repeat split; auto using lineStep_Perplexity. }
  exists "custom"%string, "Custom Conversation"%string, stepCustom.
  repeat split; auto using lineStep_Custom.
  apply str_eqb_neq in E1, E2, E3, E4.
  pose proof (detectSource_cases content) as H. unfold sourceIds in H.
  destruct H as [H | [H | [H | [H | [H | []]]]]]; congruence.
Qed.

(** What the two branches of a loop body keep, the whole loop keeps. *)
Lemma fold_lineStep (step : LineState -> jsstring -> LineState)
  (P : nat -> LineState -> Prop) :
  lineStep step ->
  (forall n st line, P n st -> P (S n) (continueTurn st line)) ->
  (forall n st r rest, P n st -> P (S n) (openTurn st r rest)) ->
  forall ls n st, P n st -> P (n + length ls) (fold_left step ls st).
Proof.
  intros L C O. induction ls as [|line ls IH]; intros n st H; simpl.
  - now rewrite Nat.add_0_r.
  - rewrite Nat.add_succ_r. apply (IH (S n)).
    destruct (L st line) as [-> | (_ & r & rest & ->)]; auto.
Qed.

Lemma truthy_not_empty (s : jsstring) : truthy s = true <-> s <> [].
Proof. destruct s; simpl; split; congruence. Qed.

Lemma pushCurrent_pushed (st : LineState) :
  Forall pushed (acc st) -> Forall pushed (pushCurrent st).
Proof.
  intros H. unfold pushCurrent.
  destruct (truthy (trim (currentContent st))) eqn:T; [|exact H].
  apply Forall_app. split; [exact H|]. constructor; [|constructor].
  split; simpl; [now apply truthy_not_empty | apply trim_idem].
Qed.

Lemma pushCurrent_length (st : LineState) :
  length (pushCurrent st)
  = length (acc st) + (if truthy (trim (currentContent st)) then 1 else 0).
Proof.
  unfold pushCurrent. destruct (truthy _); [|lia].
  rewrite length_app. reflexivity.
Qed.

(** X14: every message [parse] gives has a content that is not empty and is
    trimmed, and there are never more messages than the text has lines. *)
Theorem parse_messages_pushed (toLowerCase : jsstring -> jsstring)
  (content : jsstring) :
  Forall (fun m => ConversationParser.content m <> []
                   /\ trim (ConversationParser.content m)
                      = ConversationParser.content m)
    (messages (parse toLowerCase content))
  /\ length (messages (parse toLowerCase content)) <= length (lines content).
Proof.
  destruct (parse_finish toLowerCase content)
    as (name & default & step & -> & L & _).
  unfold finish; simpl. split.
  - apply pushCurrent_pushed.
    apply (fold_lineStep step (fun _ st => Forall pushed (acc st)) L)
      with (n := 0).
    + intros n st line H. exact H.
    + intros n st r rest H. now apply pushCurrent_pushed.
    + constructor.
  - rewrite pushCurrent_length.
    refine (fold_lineStep step
              (fun n st =>
                 length (acc st)
                 + (if truthy (trim (currentContent st)) then 1 else 0) <= n)
              L _ _ (lines content) 0 initial _).
    + intros n st line H. simpl.
      destruct (truthy (trim (currentContent st)));
        destruct (truthy (trim _)); lia.
    + intros n st r rest H. simpl. rewrite pushCurrent_length.
      destruct (truthy (trim (trim rest))); lia.
    + simpl. lia.
Qed.

Lemma split1_fst_clean (sep : char) (s : jsstring) :
  ~ In sep (fst (split1 sep s)).
Proof.
  induction s as [|c t IH]; simpl; [tauto|].
  destruct (split1 sep t) as [l r]. simpl in IH.
  destruct (N.eqb_spec c sep) as [E | E]; simpl; [tauto|].
  intros [K | K]; [congruence | contradiction].
Qed.

(** X15: the title [parse] gives is shorter than 100 code units and holds no
    newline: it is the first line of a first user message, or the default
    title of the dialect. *)
Theorem parse_title_one_short_line (toLowerCase : jsstring -> jsstring)
  (content : jsstring) :
  length (title (parse toLowerCase content)) < 100
  /\ ~ In newline (title (parse toLowerCase content)).
Proof.
  destruct (parse_finish toLowerCase content)
    as (name & default & step & -> & _ & _ & D1 & D2).
  unfold finish; simpl.
  generalize (pushCurrent (fold_left step (lines content) initial)) as msgs.
  intros msgs. apply Nat.ltb_lt in D1.
  assert (D3 : ~ In newline (js default)).
  { intros K.
    assert (T : existsb (N.eqb newline) (js default) = true)
      by (apply existsb_exists; exists newline;
          split; [exact K | apply N.eqb_refl]).
    congruence. }
  unfold titleOf. destruct msgs as [|m rest]; [now split|].
  destruct (Role_eqb (role m) user); [|now split].
  destruct (Nat.ltb_spec
              (length (fst (split1 newline (ConversationParser.content m))))
              100) as [L | L]; [|now split].
  split; [exact L | apply split1_fst_clean].
Qed.

Lemma categorizeConversation_named (toLowerCase : jsstring -> jsstring)
  (msgs : list ParsedMessage) :
  In (ConversationParser.categorizeConversation toLowerCase msgs) categoryNames.
Proof.
  unfold ConversationParser.categorizeConversation.
  generalize (toLowerCase (join (js " ") (map ConversationParser.content msgs)))
    as c.
  intros c. unfold categoryNames.
  destruct (includes c (js "code") || includes c (js "```")); [simpl; tauto|].
  destruct (includes c (js "design") || includes c (js "ui")
            || includes c (js "ux")); [simpl; tauto|].
  destruct (includes c (js "business") || includes c (js "strategy"));
    [simpl; tauto|].
  destruct (includes c (js "learning") || includes c (js "tutorial"));
    simpl; tauto.
Qed.

(** X13: [parse] labels the conversation with the dialect [detectSource]
    finds, as its source and as its original format; its tags name no tag
    twice and are taken from code, api, database, frontend, backend and
    deployment; its category is technical, design, business, learning or
    general. *)
Theorem parse_labels (toLowerCase : jsstring -> jsstring)
  (content : jsstring) :
  source (parse toLowerCase content) = detectSource content
  /\ metadata (parse toLowerCase content) = detectSource content
  /\ NoDup (ConversationParser.tags (parse toLowerCase content))
  /\ incl (ConversationParser.tags (parse toLowerCase content)) tagNames
  /\ In (ConversationParser.category (parse toLowerCase content))
       categoryNames.
Proof.
  destruct (parse_finish toLowerCase content)
    as (name & default & step & -> & _ & -> & _).
  unfold finish; simpl.
  destruct (extractTags_named toLowerCase content) as (N & I).
  repeat split; auto. apply categorizeConversation_named.
Qed.

(** *** A text without role prefixes *)

Lemma split1_In (sep : char) (s line : jsstring) (c : char) :
  In line (fst (split1 sep s) :: snd (split1 sep s)) -> In c line -> In c s.
Proof.
  revert line; induction s as [|d t IH]; intros line; simpl.
  - intros [<- | []] [].
  - destruct (split1 sep t) as [l r]. simpl in IH.
    destruct (N.eqb d sep); simpl.
    + intros [<- | H] Hc; [contradiction|]. right. now apply (IH line).
    + intros [<- | H] Hc.
      * destruct Hc as [-> | Hc]; [now left|]. right. apply (IH l); auto.
      * right. apply (IH line); auto.
Qed.

Lemma lines_In (content line : jsstring) (c : char) :
  In line (lines content) -> In c line -> In c content.
Proof.
  unfold lines, split. intros H. apply (split1_In newline content line c).
  now destruct (split1 newline content).
Qed.

Lemma split1_join (sep : char) (s : jsstring) :
  join [sep] (fst (split1 sep s) :: snd (split1 sep s)) = s.
Proof.
  induction s as [|c t IH]; [reflexivity|].
  cbn [split1]. destruct (split1 sep t) as [l r]. cbn [fst snd] in IH.
  destruct (N.eqb_spec c sep) as [-> | E]; cbn [fst snd].
  - change (join [sep] ([] :: l :: r)) with ([] ++ [sep] ++ join [sep] (l :: r)).
    now rewrite IH.
  - destruct r as [|r1 rs].
    + cbn [join] in *. now rewrite IH.
    + change (join [sep] ((c :: l) :: r1 :: rs))
        with (c :: (l ++ [sep] ++ join [sep] (r1 :: rs))).
      change (join [sep] (l :: r1 :: rs))
        with (l ++ [sep] ++ join [sep] (r1 :: rs)) in IH.
      now rewrite IH.
Qed.

Lemma lines_join (content : jsstring) : join [newline] (lines content) = content.
Proof.
  unfold lines, split. pose proof (split1_join newline content) as H.
  now destruct (split1 newline content).
Qed.

Lemma join_concat (sep l : jsstring) (ls : list jsstring) :
  join sep (l :: ls) = l ++ concat (map (fun x => sep ++ x) ls).
Proof.
  revert l; induction ls as [|l' ls IH]; intros l.
  - simpl. now rewrite app_nil_r.
  - change (join sep (l :: l' :: ls)) with (l ++ sep ++ join sep (l' :: ls)).
    rewrite IH. simpl. now rewrite <- app_assoc.
Qed.

Lemma fold_glue_started (ls : list jsstring) (c : char) (t : jsstring) :
  fold_left glue ls (c :: t)
  = (c :: t) ++ concat (map (fun x => [newline] ++ x) ls).
Proof.
  revert c t; induction ls as [|l ls IH]; intros c t; simpl.
  - now rewrite app_nil_r.
  - unfold glue at 2. simpl truthy. cbv iota.
    change ((c :: t) ++ [newline] ++ l) with (c :: (t ++ [newline] ++ l)).
    rewrite IH. simpl. now rewrite <- !app_assoc.
Qed.

(** The text the loop gathers when no line opens a turn is, trimmed, the
    whole text, trimmed. *)
Lemma fold_glue_trim (ls : list jsstring) :
  trim (fold_left glue ls []) = trim (join [newline] ls).
Proof.
  induction ls as [|l ls IH]; [reflexivity|].
  simpl fold_left. unfold glue at 2. simpl truthy. cbv iota.
  destruct l as [|c t].
  - rewrite IH. destruct ls as [|l' ls']; [reflexivity|].
    change (join [newline] ([] :: l' :: ls'))
      with (newline :: join [newline] (l' :: ls')).
    reflexivity.
  - now rewrite fold_glue_started, join_concat.
Qed.

Lemma fold_continueTurn (ls : list jsstring) (st : LineState) :
  fold_left continueTurn ls st
  = {| acc := acc st;
       currentRole := currentRole st;
       currentContent := fold_left glue ls (currentContent st) |}.
Proof.
  revert st; induction ls as [|l ls IH]; intros st; simpl.
  - now destruct st.
  - rewrite IH. reflexivity.
Qed.

Lemma fold_no_colon (step : LineState -> jsstring -> LineState)
  (ls : list jsstring) (st : LineState) :
  lineStep step ->
  Forall (fun line => ~ In colon line) ls ->
  fold_left step ls st = fold_left continueTurn ls st.
Proof.
  intros L F. revert st; induction F as [|l ls Hl _ IH]; intros st; simpl;
    [reflexivity|].
  destruct (L st l) as [-> | (K & _)]; [apply IH | contradiction].
Qed.

Lemma messages_without_colon (toLowerCase : jsstring -> jsstring)
  (content : jsstring) :
  ~ In colon content ->
  messages (parse toLowerCase content) = oneUserMessage content.
Proof.
  intros H.
  destruct (parse_finish toLowerCase content)
    as (name & default & step & -> & L & _).
  unfold finish; simpl.
  rewrite (fold_no_colon step (lines content) initial L).
  - rewrite fold_continueTurn. unfold pushCurrent, oneUserMessage. simpl.
    now rewrite fold_glue_trim, lines_join.
  - apply Forall_forall. intros line Hl K. apply H.
    eapply lines_In; eassumption.
Qed.

(** X16: a text that holds no colon opens no turn in any dialect: [parse]
    gives it back as one user message holding the whole text, trimmed, or
    as no message at all when the text is blank. *)
Theorem parse_without_colon (toLowerCase : jsstring -> jsstring)
  (content : jsstring) :
  ~ In colon content ->
  messages (parse toLowerCase content) = oneUserMessage content.
Proof. apply messages_without_colon. Qed.

Lemma parse_without_colon_witness :
  messages (parse toLowerCaseASCII (js "  Tell me about closures  "))
  = oneUserMessage (js "  Tell me about closures  ").
Proof.
  apply (parse_without_colon toLowerCaseASCII (js "  Tell me about closures  ")).
  vm_compute. intuition discriminate.
Defined.

(** *** The format detector reads words *)

Section LiteralPatterns.
Variable ignoreCase : bool.
Variable input : jsstring.

Lemma startsWith_nil (s : jsstring) : startsWith s [] = true.
Proof. now destruct s. Qed.

(** Matching a run of pattern characters is comparing it with what the
    input holds next. *)
Lemma rmatch_lit (p : jsstring) :
  forall k x,
    rmatch ignoreCase input (lit p) k x
    = if startsWith (map (canonicalize ignoreCase) (skipn (endIndex x) input))
           (map (canonicalize ignoreCase) p)
      then k {| endIndex := endIndex x + length p; capture := capture x |}
      else None.
Proof.
  induction p as [|c p IH]; intros k x.
  - simpl lit. simpl map. rewrite startsWith_nil. simpl.
    rewrite Nat.add_0_r. now destruct x.
  - simpl lit. cbn [rmatch].
    destruct (nth_error input (endIndex x)) as [d|] eqn:E.
    + rewrite (skipn_nth_error input (endIndex x) d E).
      cbn [map startsWith]. destruct (N.eqb _ _); [|reflexivity].
      rewrite IH. cbn [endIndex capture length].
      now rewrite Nat.add_succ_r.
    + apply nth_error_None in E. rewrite skipn_all2 by exact E. reflexivity.
Qed.

Lemma search_lit (p : jsstring) :
  forall n i, i + n = length input ->
    match search ignoreCase input (lit p) n i with
    | Some _ => true
    | None => false
    end
    = includes (map (canonicalize ignoreCase) (skipn i input))
        (map (canonicalize ignoreCase) p).
Proof.
  induction n as [|n IH]; intros i L; cbn [search]; rewrite rmatch_lit;
    cbn [endIndex]; rewrite includes_unfold;
    destruct (startsWith _ _); try reflexivity.
  - rewrite skipn_all2 by lia. reflexivity.
  - rewrite IH by lia. cbn [orb].
    destruct (nth_error input i) as [d|] eqn:E.
    + now rewrite (skipn_nth_error input i d E).
    + apply nth_error_None in E. lia.
Qed.

Lemma test_lit (p : jsstring) :
  test ignoreCase input (lit p)
  = includes (map (canonicalize ignoreCase) input)
      (map (canonicalize ignoreCase) p).
Proof.
  unfold test, exec. cbn [Nat.ltb Nat.leb]. rewrite Nat.sub_0_r.
  now rewrite (search_lit p (length input) 0).
Qed.

End LiteralPatterns.

Lemma detectSourceIn_words (entries : list (jsstring * list jsstring))
  (content : jsstring) :
  detectSourceIn (map (fun e => (fst e, map lit (snd e))) entries) content
  = firstMentioned entries content.
Proof.
  induction entries as [|[source words] rest IH]; [reflexivity|].
  cbn [map fst snd detectSourceIn firstMentioned]. rewrite IH.
  replace (existsb (fun pattern => test true content pattern) (map lit words))
    with (existsb (includesAnyCase content) words); [reflexivity|].
  induction words as [|w ws IHw]; [reflexivity|].
  cbn [map existsb]. rewrite IHw. f_equal. symmetry. apply test_lit.
Qed.

(** X17: [detectSource] reads words, whatever the case of their ASCII
    letters: it names the first dialect, in the order chatgpt, claude, gemini,
    perplexity, one of whose words the content holds, and custom when it
    holds none; two texts that differ in the case of ASCII letters only are
    of the same source. *)
Theorem detectSource_by_words :
  (forall content, detectSource content = firstMentioned sourceWords content)
  /\ (forall content content',
        map (canonicalize true) content = map (canonicalize true) content' ->
        detectSource content = detectSource content').
Proof.
  assert (H : forall content,
             detectSource content = firstMentioned sourceWords content).
  { intros content. unfold detectSource.
    change sourcePatterns
      with (map (fun e => (fst e, map lit (snd e))) sourceWords).
    apply detectSourceIn_words. }
  split; [exact H|].
  intros content content' E. rewrite !H.
  generalize sourceWords as entries.
  induction entries as [|[source words] rest IH]; [reflexivity|].
  cbn [firstMentioned]. rewrite IH. unfold includesAnyCase. now rewrite E.
Qed.

Lemma detectSource_by_words_witness :
  detectSource (js "I asked CLAUDE.") = detectSource (js "i asked claude.").
Proof.
  apply (proj2 detectSource_by_words). vm_compute. reflexivity.
Defined.

(** *** The name of the download *)

Lemma skipn_slice (s : jsstring) (i j : nat) :
  i <= j -> skipn i s = slice s i j ++ skipn j s.
Proof.
  intros L. unfold slice.
  rewrite <- (firstn_skipn (j - i) (skipn i s)) at 1.
  rewrite skipn_skipn. now replace (j - i + i) with j by lia.
Qed.

Section ClassPattern.
Variable ignoreCase : bool.
Variable input : jsstring.
Variable p : char -> bool.

(** Searching for a class finds the first code unit of the class. *)
Lemma search_Class :
  forall n i, i + n = length input ->
    match search ignoreCase input (Class p) n i with
    | Some m =>
        i <= index m /\ matchEnd m = S (index m)
        /\ (exists d, nth_error input (index m) = Some d /\ p d = true)
        /\ forallb (fun c => negb (p c)) (slice input i (index m)) = true
    | None => forallb (fun c => negb (p c)) (skipn i input) = true
    end.
Proof.
  induction n as [|n IH]; intros i L; cbn [search rmatch endIndex].
  - rewrite (proj2 (nth_error_None input i)) by lia.
    rewrite skipn_all2 by lia. reflexivity.
  - destruct (nth_error input i) as [d|] eqn:E;
      [|apply nth_error_None in E; lia].
    destruct (p d) eqn:Pd.
    + cbn [index matchEnd]. rewrite slice_empty. eauto 10.
    + specialize (IH (S i) ltac:(lia)).
      destruct (search ignoreCase input (Class p) n (S i)) as [m|].
      * destruct IH as (L1 & L2 & X & F). repeat split; auto; [lia|].
        rewrite (slice_cons input i (index m) d E) by lia.
        cbn [forallb]. now rewrite Pd, F.
      * rewrite (skipn_nth_error input i d E). cbn [forallb].
        now rewrite Pd, IH.
Qed.

Lemma map_unchanged (u : char) (s : jsstring) :
  forallb (fun c => negb (p c)) s = true ->
  map (fun c => if p c then u else c) s = s.
Proof.
  induction s as [|c s IH]; simpl; [reflexivity|]. intros H.
  apply andb_true_iff in H. destruct H as [Hc Hs].
  apply negb_true_iff in Hc. now rewrite Hc, IH.
Qed.

(** Replacing every match of a class by one code unit is replacing every
    code unit of the class. *)
Lemma stitch_Class (u : char) :
  forall fuel i, i <= length input -> length input - i < fuel ->
    stitch input i (execLoop ignoreCase input (Class p) fuel i) [u]
    = map (fun c => if p c then u else c) (skipn i input).
Proof.
  induction fuel as [|fuel IH]; intros i L F; [lia|].
  cbn [execLoop]. unfold exec.
  replace (length input <? i) with false by (symmetry; apply Nat.ltb_ge; lia).
  pose proof (search_Class (length input - i) i ltac:(lia)) as S.
  destruct (search ignoreCase input (Class p) (length input - i) i) as [m|].
  - destruct S as (L1 & L2 & (d & Hd & Pd) & Fm).
    assert (index m < length input) by (apply nth_error_Some; congruence).
    cbn [stitch]. rewrite L2, IH by lia.
    rewrite (skipn_slice input i (index m)) by lia.
    rewrite map_app, (map_unchanged u _ Fm).
    rewrite (skipn_nth_error input (index m) d Hd). cbn [map].
    now rewrite Pd.
  - cbn [stitch]. symmetry. now apply map_unchanged.
Qed.

End ClassPattern.

Lemma inRange_true (lo hi c : char) :
  inRange lo hi c = true <-> (lo <= c <= hi)%N.
Proof. unfold inRange. now rewrite andb_true_iff, !N.leb_le. Qed.

(** What the pattern leaves alone is an ASCII letter or a digit. *)
Lemma safe_cases (c : char) :
  unsafe c = false ->
  (65 <= c <= 90)%N \/ (97 <= c <= 122)%N \/ (48 <= c <= 57)%N.
Proof.
  unfold unsafe, canonicalize. cbn [andb]. intros H.
  apply negb_false_iff in H.
  destruct (N.leb 97 c && N.leb c 122) eqn:L.
  - right. left. apply andb_true_iff in L. now rewrite !N.leb_le in L.
  - apply orb_true_iff in H. rewrite !inRange_true in H. tauto.
Qed.

Lemma unsafe_or_alnum (c : char) :
  isSafeUnit (safeUnit c) = true /\ isASCII (if unsafe c then 95%N else c) = true.
Proof.
  unfold safeUnit. destruct (unsafe c) eqn:U; [split; reflexivity|].
  unfold isSafeUnit, isASCII, lowerASCII.
  destruct (safe_cases c U) as [R | [R | R]].
  - replace (N.leb 65 c && N.leb c 90) with true
      by (symmetry; apply andb_true_iff; rewrite !N.leb_le; lia).
    split; [|apply N.ltb_lt; lia].
    apply orb_true_iff. left. apply orb_true_iff. left.
    apply inRange_true. lia.
  - replace (N.leb 65 c && N.leb c 90) with false
      by (symmetry; apply andb_false_iff; right; apply N.leb_gt; lia).
    split; [|apply N.ltb_lt; lia].
    apply orb_true_iff. left. apply orb_true_iff. left.
    apply inRange_true. lia.
  - replace (N.leb 65 c && N.leb c 90) with false
      by (symmetry; apply andb_false_iff; left; apply N.leb_gt; lia).
    split; [|apply N.ltb_lt; lia].
    apply orb_true_iff. left. apply orb_true_iff. right.
    apply inRange_true. lia.
Qed.

(** X18: for a runtime that lower-cases ASCII text as Basic Latin does, the
    file name of the download is the title with every ASCII letter
    lower-cased, every digit kept and every other code unit replaced by an
    underscore, followed by ".pdf": it has the length of the title plus
    four and, before the extension, holds only a-z, 0-9 and underscores. *)
Theorem filename_safe (toLowerCase : jsstring -> jsstring) (title : jsstring) :
  lowersASCII toLowerCase ->
  filename toLowerCase title = map safeUnit title ++ js ".pdf"
  /\ forallb isSafeUnit (map safeUnit title) = true
  /\ length (filename toLowerCase title) = length title + 4.
Proof.
  intros L.
  assert (E : filename toLowerCase title = map safeUnit title ++ js ".pdf").
  { unfold filename, replaceAllRe, execAll, unsafeRegex.
    change (js "_") with (@cons char 95%N (@nil char)).
    rewrite (stitch_Class true title unsafe 95%N (S (length title)) 0)
      by lia.
    cbn [skipn]. rewrite L.
    - f_equal. unfold toLowerCaseASCII. rewrite map_map.
      apply map_ext. intros c. unfold safeUnit.
      now destruct (unsafe c).
    - rewrite forallb_forall. intros x Hx. apply in_map_iff in Hx.
      destruct Hx as (c & <- & _). apply unsafe_or_alnum. }
  split; [exact E|]. split.
  - rewrite forallb_forall. intros x Hx. apply in_map_iff in Hx.
    destruct Hx as (c & <- & _). apply unsafe_or_alnum.
  - rewrite E, length_app, length_map. reflexivity.
Qed.

Lemma filename_safe_witness :
  filename toLowerCaseASCII (js "What is a closure?")
  = map safeUnit (js "What is a closure?") ++ js ".pdf".
Proof.
  apply (proj1 (filename_safe toLowerCaseASCII (js "What is a closure?")
                  (fun s _ => eq_refl))).
Defined.

(** *** Every fenced block is found *)

Lemma fence_inside (text : jsstring) (j : nat) :
  startsWith (skipn j text) fence = true -> j + 3 <= length text.
Proof.
  intros H. apply startsWith_split in H. destruct H as (r & E).
  assert (L : length (skipn j text) = length (fence ++ r)) by now rewrite E.
  rewrite length_skipn, length_app in L. simpl in L. lia.
Qed.

Lemma rmatch_fence (text : jsstring) (k : mstate -> option mstate)
  (x : mstate) :
  rmatch false text (lit fence) k x
  = if startsWith (skipn (endIndex x) text) fence
    then k {| endIndex := endIndex x + 3; capture := capture x |}
    else None.
Proof. rewrite rmatch_lit, !canonicalize_false. reflexivity. Qed.

(** The lazy star of the code pattern walks on to a closing fence, if there
    is one within its reach. *)
Lemma lazy_star_reaches_fence (text : jsstring) :
  forall d n x j,
    endIndex x + d = j -> d <= n ->
    startsWith (skipn j text) fence = true ->
    exists z,
      starLoop (rmatch false text anything) false
        (rmatch false text (lit fence) Some) n x = Some z.
Proof.
  induction d as [|d IH]; intros n x j E L F.
  - rewrite Nat.add_0_r in E. subst j.
    destruct n; cbn [starLoop]; unfold orElse;
      rewrite rmatch_fence, F; eauto.
  - destruct n as [|n]; [lia|]. cbn [starLoop]. unfold orElse.
    destruct (rmatch false text (lit fence) Some x) as [z|]; [eauto|].
    pose proof (fence_inside text j F) as I.
    destruct (nth_error text (endIndex x)) as [c|] eqn:N;
      [|apply nth_error_None in N; lia].
    unfold anything at 1. cbn [rmatch]. rewrite N, orb_negb_r.
    cbn [endIndex].
    replace (endIndex x <? S (endIndex x)) with true
      by (symmetry; apply Nat.ltb_lt; lia).
    apply (IH n _ j); cbn [endIndex]; [lia | lia | exact F].
Qed.

Lemma search_hit (ignoreCase : bool) (text : jsstring) (pattern : regex) :
  forall n i0 i,
    i0 <= i <= i0 + n ->
    rmatch ignoreCase text pattern Some {| endIndex := i; capture := None |}
    <> None ->
    search ignoreCase text pattern n i0 <> None.
Proof.
  induction n as [|n IH]; intros i0 i L H; cbn [search].
  - replace i0 with i by lia.
    destruct (rmatch ignoreCase text pattern Some _);
      [discriminate | now elim H].
  - destruct (rmatch ignoreCase text pattern Some
                {| endIndex := i0; capture := None |}) eqn:E; [discriminate|].
    destruct (Nat.eq_dec i0 i) as [-> | D]; [congruence|].
    apply (IH (S i0) i); [lia | exact H].
Qed.

Lemma skipn_past (a r : jsstring) : skipn (length a) (a ++ r) = r.
Proof. induction a as [|c a IH]; simpl; [reflexivity | exact IH]. Qed.

(** X19: [extractCodeBlocks] finds a code highlight exactly when the text
    holds three backticks and, later and apart from them, three backticks
    again. *)
Theorem extractCodeBlocks_finds_fences (text : jsstring) (i : nat) :
  extractCodeBlocks text i <> []
  <-> exists a b c, text = a ++ fence ++ b ++ fence ++ c.
Proof.
  unfold extractCodeBlocks, execAll. cbn [execLoop]. split.
  - destruct (exec false text codeBlockRegex 0) as [m|] eqn:E;
      [intros _ | intros H; now elim H].
    destruct (codeBlockRegex_shape text 0 m E) as (middle & S).
    apply exec_bounds in E. destruct E as (_ & L1 & L2).
    exists (firstn (index m) text), middle, (skipn (matchEnd m) text).
    rewrite <- (firstn_skipn (index m) text) at 1. f_equal.
    rewrite (skipn_slice text (index m) (matchEnd m)) by lia.
    unfold match0 in S. rewrite S. now rewrite <- !app_assoc.
  - intros (a & b & c & T).
    assert (F1 : startsWith (skipn (length a) text) fence = true).
    { rewrite T, skipn_past. apply startsWith_app. }
    assert (F2 : startsWith (skipn (length a + 3 + length b) text) fence
                 = true).
    { rewrite T. replace (a ++ fence ++ b ++ fence ++ c)
        with ((a ++ fence ++ b) ++ fence ++ c) by now rewrite <- !app_assoc.
      replace (length a + 3 + length b) with (length (a ++ fence ++ b))
        by (rewrite !length_app; simpl; lia).
      rewrite skipn_past. apply startsWith_app. }
    pose proof (fence_inside text _ F2) as I.
    assert (X : exec false text codeBlockRegex 0 <> None).
    { unfold exec. cbn [Nat.ltb Nat.leb]. rewrite Nat.sub_0_r.
      apply (search_hit false text codeBlockRegex (length text) 0 (length a));
        [lia|].
      unfold codeBlockRegex. cbn [rmatch]. rewrite rmatch_fence.
      cbn [endIndex capture]. rewrite F1.
      destruct (lazy_star_reaches_fence text (length b)
                  (length text - (length a + 3))
                  {| endIndex := length a + 3; capture := None |}
                  (length a + 3 + length b)) as (z & ->);
        cbn [endIndex]; try lia; [exact F2 | discriminate]. }
    destruct (exec false text codeBlockRegex 0); [discriminate | now elim X].
Qed.

(** *** The pass over an oracle reply, run again *)

Lemma enhanceHighlight_again (toLowerCase : jsstring -> jsstring)
  (h : Highlight) :
  enhanceHighlight toLowerCase (enhanceHighlight toLowerCase h)
  = enhanceHighlight toLowerCase h.
Proof.
  destruct (enhanceHighlight_tags toLowerCase h) as (extra & E1 & E2).
  pose proof (E2 (enhanceHighlight toLowerCase h) eq_refl) as E3.
  rewrite E1 in E3.
  rewrite Set_of_again in E3
    by (intros x Hx; apply in_or_app; now right).
  rewrite <- E1 in E3.
  pose proof (Math_min_one_idem (confidence_score h)) as M.
  unfold enhanceHighlight in *. simpl in *. now rewrite E3, M.
Qed.

Lemma accepts_enhance (toLowerCase : jsstring -> jsstring)
  (conversation : ParsedConversation) (h : Highlight) :
  accepts conversation (enhanceHighlight toLowerCase h)
  = accepts conversation h.
Proof. reflexivity. Qed.

Lemma filter_accepted_again (toLowerCase : jsstring -> jsstring)
  (conversation : ParsedConversation) (hs : list Highlight) :
  filter (accepts conversation)
    (map (enhanceHighlight toLowerCase) (filter (accepts conversation) hs))
  = map (enhanceHighlight toLowerCase) (filter (accepts conversation) hs).
Proof.
  induction hs as [|h hs IH]; [reflexivity|]. cbn [filter].
  destruct (accepts conversation h) eqn:A; [|exact IH].
  cbn [map filter]. rewrite accepts_enhance, A. now rewrite IH.
Qed.

(** X20: the pass over an oracle reply is idempotent on the highlights: when
    the highlights of a result of [validateAndEnhanceResult] are handed to
    it again as a reply, every one of them is accepted and comes back
    unchanged. *)
Theorem validateAndEnhanceResult_again
  (toLowerCase : jsstring -> jsstring) (reply : ParsedReply)
  (conversation : ParsedConversation) (result : CategorizationResult) :
  validateAndEnhanceResult toLowerCase reply conversation = Returned result ->
  exists result',
    validateAndEnhanceResult toLowerCase (replyOf (highlights result))
      conversation = Returned result'
    /\ highlights result' = highlights result.
Proof.
  unfold validateAndEnhanceResult at 1.
  destruct (reply_highlights reply) as [hs|]; [|discriminate].
  rewrite filterValid_filter. intros H. injection H as <-.
  unfold validateAndEnhanceResult. cbn [replyOf reply_highlights highlights].
  rewrite filterValid_filter. eexists. split; [reflexivity|].
  cbn [highlights]. rewrite filter_accepted_again, map_map.
  apply map_ext. intros h. apply enhanceHighlight_again.
Qed.

Lemma validateAndEnhanceResult_again_witness :
  exists result',
    validateAndEnhanceResult toLowerCaseASCII (replyOf (highlights todoResult))
      (parse toLowerCaseASCII todoInput) = Returned result'
    /\ highlights result' = highlights todoResult.
Proof.
  apply (validateAndEnhanceResult_again toLowerCaseASCII todoReply
           (parse toLowerCaseASCII todoInput) todoResult).
  vm_compute. reflexivity.
Defined.

(** *** A text without turns in the pipeline *)

Lemma extractFrom_without_assistant (msgs : list ParsedMessage) (k : nat) :
  forallb (fun m => negb (Role_eqb (role m) assistant)) msgs = true ->
  extractFrom msgs k = [].
Proof.
  revert k; induction msgs as [|m rest IH]; intros k F; simpl; [reflexivity|].
  simpl in F. apply andb_true_iff in F. destruct F as [Fm Fr].
  rewrite (IH (S k) Fr). unfold extractMessage.
  apply negb_true_iff in Fm. now rewrite Fm.
Qed.

(** X21: a text that holds no colon goes through the pipeline without an
    oracle as a user's text: whatever code, markers or questions it holds,
    the result has no highlight. *)
Theorem pipeline_without_colon
  (toLowerCase : jsstring -> jsstring)
  (JSON_parse : jsstring -> option ParsedReply) (content : jsstring) :
  ~ In colon content ->
  exists result,
    categorizeConversation toLowerCase JSON_parse None
      (parse toLowerCase content) = Returned result
    /\ highlights result = [].
Proof.
  intros H. eexists. split; [reflexivity|]. cbn [highlights fallbackCategorization].
  apply extractFrom_without_assistant.
  rewrite (messages_without_colon toLowerCase content H).
  unfold oneUserMessage. now destruct (truthy (trim content)).
Qed.

Lemma pipeline_without_colon_witness :
  exists result,
    categorizeConversation toLowerCaseASCII (fun _ => None) None
      (parse toLowerCaseASCII (js "TODO - why does ```x``` fail?"))
    = Returned result
    /\ highlights result = [].
Proof.
  apply (pipeline_without_colon toLowerCaseASCII (fun _ => None)
           (js "TODO - why does ```x``` fail?")).
  vm_compute. intuition discriminate.
Defined.

(** *** Words that never decide *)

Lemma includes_prefix (s p q : jsstring) :
  includes s (p ++ q) = true -> includes s p = true.
Proof.
  intros H. apply includes_split in H. destruct H as (a & b & ->).
  rewrite <- app_assoc. apply includes_app.
Qed.

Lemma includesAnyCase_prefix (content p q : jsstring) :
  includesAnyCase content (p ++ q) = true -> includesAnyCase content p = true.
Proof.
  unfold includesAnyCase. rewrite map_app. apply includes_prefix.
Qed.

Lemma orb_absorb (a b : bool) : (b = true -> a = true) -> a || b = a.
Proof. destruct a, b; simpl; intros H; auto. symmetry. now apply H. Qed.

(** X22: three of the patterns of [sourcePatterns] never decide:
    [detectSource] gives the same source without "Claude-3", "Claude-2" and
    "Perplexity AI", which hold "Claude" and "Perplexity". *)
Theorem detectSource_deciding_words (content : jsstring) :
  detectSource content = firstMentioned decidingWords content.
Proof.
  unfold detectSource.
  change sourcePatterns
    with (map (fun e => (fst e, map lit (snd e))) sourceWords).
  rewrite detectSourceIn_words.
  unfold sourceWords, decidingWords. cbn [firstMentioned existsb].
  rewrite !orb_false_r.
  replace (includesAnyCase content (js "Claude")
           || (includesAnyCase content (js "Anthropic")
               || (includesAnyCase content (js "Claude-3")
                   || includesAnyCase content (js "Claude-2"))))
    with (includesAnyCase content (js "Claude")
          || includesAnyCase content (js "Anthropic")).
  2:{ destruct (includesAnyCase content (js "Claude")) eqn:C; [reflexivity|].
      cbn [orb]. symmetry. apply orb_absorb. intros H.
      apply orb_true_iff in H. exfalso.
      destruct H as [H | H];
        [change (js "Claude-3") with (js "Claude" ++ js "-3") in H
        |change (js "Claude-2") with (js "Claude" ++ js "-2") in H];
        apply includesAnyCase_prefix in H; congruence. }
  replace (includesAnyCase content (js "Perplexity")
           || includesAnyCase content (js "Perplexity AI"))
    with (includesAnyCase content (js "Perplexity")); [reflexivity|].
  symmetry. apply orb_absorb. intros H.
  change (js "Perplexity AI") with (js "Perplexity" ++ js " AI") in H.
  now apply includesAnyCase_prefix in H.
Qed.
